(** * my-mcp-server: tool dispatcher, schema translator and agentic loop

    A shallow embedding of the TypeScript sources

      - [src/tools/calculator.ts]   (calculator tool),
      - [src/tools/weather.ts]      (get_weather tool),
      - [src/index.ts]              (the [tools/list] and [tools/call] handlers),
      - [src/client/index.ts]       (schema translator, agentic loop and chat),
      - [src/resources/notes.ts]    (the notes resources),
      - [src/prompts/templates.ts]  (the two prompt templates),

    followed by the properties of the design specification that concern them
    and by further properties of the resources, the prompts and the chat.

    Conventions.  A JavaScript [number] is an IEEE-754 binary64 value, that is
    a primitive [float].  A JavaScript string is a [string] that holds its
    UTF-8 text; the strings are taken to be well-formed Unicode.  A thrown
    exception is the [Throw] branch of [result].  Reading a key of an object literal follows the prototype
    chain, as [JS.get] does.  Library functions whose text output is fixed by
    the JavaScript runtime or by the zod library and not by this repository
    (number formatting, case mapping, [JSON.stringify], the rendering of a
    zod error) are the fields of the class [Runtime]; every statement below
    holds for every runtime.  The zod validators are modelled after zod 3.

    The schema translator is embedded twice: as a function on values
    ([Translator]) and, statement by statement, as a computation on a store
    of objects ([Store]); the second refines to the first. *)

From Stdlib Require Import String Ascii List Bool ZArith Lia DecimalString.
From Stdlib Require Import PrimFloat FloatOps SpecFloat.
Import ListNotations.

Open Scope list_scope.
Open Scope string_scope.

Set Implicit Arguments.
Set Warnings "-register-all".
Set Warnings "-inexact-float".

(* ================================================================== *)
(** * Part I.  The embedding                                           *)
(* ================================================================== *)

(** ** JavaScript values *)

Module JS.

(** What [unknown] can hold when it arrives over JSON-RPC, plus
    [undefined] for an absent [arguments] member or an absent field. *)
Inductive value : Type :=
| VUndefined
| VNull
| VBool (b : bool)
| VNum (x : float)
| VStr (s : string)
| VArr (xs : list value)
| VObj (fields : list (string * value)).

(** Own properties of an object, in enumeration order. *)
Fixpoint assoc {A : Type} (k : string) (o : list (string * A)) : option A :=
  match o with
  | [] => None
  | (k', a) :: rest => if String.eqb k k' then Some a else assoc k rest
  end.

(** [o[key] = v] on the own properties: an existing key keeps its place, a
    new key goes last. *)
Fixpoint put {A : Type} (key : string) (v : A) (entries : list (string * A))
    : list (string * A) :=
  match entries with
  | [] => [(key, v)]
  | (k, old) :: rest =>
      if String.eqb key k then (k, v) :: rest else (k, old) :: put key v rest
  end.

Definition mem (k : string) (ks : list string) : bool :=
  existsb (String.eqb k) ks.

(** [o[k]] on the argument object: an absent key reads as [undefined]. *)
Definition prop (o : list (string * value)) (k : string) : value :=
  match assoc k o with
  | Some v => v
  | None => VUndefined
  end.

(** The property names every object literal inherits from
    [Object.prototype]. *)
Definition Object_prototype_keys : list string :=
  [ "constructor"; "__defineGetter__"; "__defineSetter__"; "hasOwnProperty";
    "__lookupGetter__"; "__lookupSetter__"; "isPrototypeOf";
    "propertyIsEnumerable"; "toString"; "valueOf"; "__proto__";
    "toLocaleString" ].

(** The three outcomes of reading [literal[k]] where [literal] is an object
    literal whose own properties all have type [A]: an own property, a
    member inherited from [Object.prototype] (a function, or the prototype
    itself: never nullish), or [undefined]. *)
Inductive lookup (A : Type) : Type :=
| Own (a : A)
| Inherited (k : string)
| Absent.
Arguments Inherited {A} k.
Arguments Absent {A}.

Definition get {A : Type} (literal : list (string * A)) (k : string) : lookup A :=
  match assoc k literal with
  | Some a => Own a
  | None => if mem k Object_prototype_keys then Inherited k else Absent
  end.

(** Numbers. *)
Definition is_finite (x : float) : bool :=
  negb (PrimFloat.is_nan x) && negb (PrimFloat.is_infinity x).

Definition float_of_Z (z : Z) : float :=
  SF2Prim (binary_normalize prec emax z 0 false).

(** [Math.floor]. *)
Definition Math_floor (x : float) : float :=
  match Prim2SF x with
  | S754_finite s m e =>
      if (0 <=? e)%Z then x
      else
        let n := if s then Z.neg m else Z.pos m in
        float_of_Z (n / 2 ^ (- e))%Z
  | _ => x
  end.

(** [Math.round]: the nearest integer, ties towards plus infinity; a
    result of zero keeps the sign of the argument. *)
Definition Math_round (x : float) : float :=
  match Prim2SF x with
  | S754_finite s m e =>
      if (0 <=? e)%Z then x
      else
        let n := if s then Z.neg m else Z.pos m in
        let r := ((2 * n + 2 ^ (- e)) / 2 ^ (- e + 1))%Z in
        if (r =? 0)%Z then (if s then (-0)%float else 0%float)
        else float_of_Z r
  | _ => x
  end.

(** [x] is an integer [i] with [0 <= i]: the index used by [array[x]]. *)
Definition index_of (x : float) : option nat :=
  match Prim2SF x with
  | S754_zero _ => Some 0
  | S754_finite false m e =>
      if (0 <=? e)%Z then Some (Z.to_nat (Z.pos m * 2 ^ e))
      else if (Z.pos m mod 2 ^ (- e) =? 0)%Z
           then Some (Z.to_nat (Z.pos m / 2 ^ (- e)))
           else None
  | _ => None
  end.

(** [ToNumber] of a possibly undefined number. *)
Definition ToNumber (v : option float) : float :=
  match v with
  | Some x => x
  | None => nan
  end.

(** The number of bytes of the UTF-8 sequence that begins with [c]. *)
Definition utf8_length (c : ascii) : nat :=
  if Nat.ltb (nat_of_ascii c) 192 then 1
  else if Nat.ltb (nat_of_ascii c) 224 then 2
  else if Nat.ltb (nat_of_ascii c) 240 then 3
  else 4.

Fixpoint take (n : nat) (s : string) : string :=
  match n, s with
  | S n', String c rest => String c (take n' rest)
  | _, _ => EmptyString
  end.

Fixpoint drop (n : nat) (s : string) : string :=
  match n, s with
  | S n', String _ rest => drop n' rest
  | _, _ => s
  end.

(** The first character of [s] lies outside the Basic Multilingual Plane:
    it is two UTF-16 code units, a surrogate pair, and four bytes of
    UTF-8. *)
Definition starts_with_pair (s : string) : bool :=
  match s with
  | EmptyString => false
  | String c _ => Nat.eqb (utf8_length c) 4
  end.

(** [s.charAt(0)] and [s.slice(1)], which cut [s] after its first UTF-16
    code unit, for an [s] that does not start with a surrogate pair: the
    code unit is then the whole first character, one to three bytes. *)
Definition charAt0 (s : string) : string :=
  match s with
  | EmptyString => EmptyString
  | String c _ => take (utf8_length c) s
  end.

Definition slice1 (s : string) : string :=
  match s with
  | EmptyString => EmptyString
  | String c _ => drop (utf8_length c) s
  end.

(** [xs.join(sep)]. *)
Fixpoint join (sep : string) (xs : list string) : string :=
  match xs with
  | [] => ""
  | [x] => x
  | x :: rest => x ++ sep ++ join sep rest
  end.

(** The result of a computation that may throw. *)
Inductive result (E A : Type) : Type :=
| Ok (a : A)
| Throw (e : E).
Arguments Ok {E A} a.
Arguments Throw {E A} e.

End JS.
Import JS.

(** ** zod: the validators the tools use *)

Module Zod.

Inductive ZodIssueCode : Type :=
| invalid_type
| invalid_enum_value
| too_small.

(** An issue of a [ZodError]: what failed and the path of the value that
    failed, a list of keys from the root. *)
Record ZodIssue : Type := mkIssue {
  issue_code : ZodIssueCode;
  issue_path : list string
}.

(** [safeParse]: the parsed data, or the issues. *)
Definition SafeParse (A : Type) : Type := (A + list ZodIssue)%type.

(** A schema, applied at a path. *)
Definition Schema (A : Type) : Type := list string -> value -> SafeParse A.

(** [z.number()]: a number other than [NaN]. *)
Definition number : Schema float :=
  fun path v =>
    match v with
    | VNum x => if PrimFloat.is_nan x then inr [mkIssue invalid_type path] else inl x
    | _ => inr [mkIssue invalid_type path]
    end.

(** [z.string().min(n)].  The length is counted in bytes; the schemas
    below ask for [min(1)] only, which holds of the text that is not
    empty, however its length is counted. *)
Definition string_min (n : nat) : Schema string :=
  fun path v =>
    match v with
    | VStr s => if Nat.ltb (String.length s) n then inr [mkIssue too_small path] else inl s
    | _ => inr [mkIssue invalid_type path]
    end.

(** [z.enum([...])]: a string among the options; the parsed data is typed
    by the option it matched. *)
Definition enum {A : Type} (options : list (string * A)) : Schema A :=
  fun path v =>
    match v with
    | VStr s =>
        match assoc s options with
        | Some a => inl a
        | None => inr [mkIssue invalid_enum_value path]
        end
    | _ => inr [mkIssue invalid_type path]
    end.

(** [schema.default(d)]: [undefined] is replaced by [d] before parsing. *)
Definition default {A : Type} (schema : Schema A) (d : value) : Schema A :=
  fun path v =>
    match v with
    | VUndefined => schema path d
    | _ => schema path v
    end.

(** The members of [z.object({...})]: every key of the shape is parsed,
    at the path extended with its name, and the issues of all keys are
    collected; keys outside the shape are dropped.  (No key of the shapes
    below names a member of [Object.prototype], so reading it from the
    arguments finds an own property or [undefined].) *)
Definition field {A : Type} (o : list (string * value)) (path : list string)
    (k : string) (schema : Schema A) : SafeParse A :=
  schema (path ++ [k])%list (prop o k).

Definition both {A B : Type} (ra : SafeParse A) (rb : SafeParse B) : SafeParse (A * B) :=
  match ra, rb with
  | inl a, inl b => inl (a, b)
  | inl _, inr ib => inr ib
  | inr ia, inl _ => inr ia
  | inr ia, inr ib => inr (ia ++ ib)%list
  end.

Definition object {A : Type} (shape : list (string * value) -> list string -> SafeParse A)
    : Schema A :=
  fun path v =>
    match v with
    | VObj o => shape o path
    | _ => inr [mkIssue invalid_type path]
    end.

(** [r] fails with an issue whose path is [p]. *)
Definition has_issue {A : Type} (r : SafeParse A) (p : list string) : Prop :=
  exists issues i, r = inr issues /\ In i issues /\ issue_path i = p.

End Zod.
Import Zod.

(** ** The runtime *)

(** Text produced by the JavaScript runtime and by zod. *)
Class Runtime : Type := {
  (** [Number::toString], also [`${x}`] for a number [x] *)
  Number_toString : float -> string;
  String_toLowerCase : string -> string;
  String_toUpperCase : string -> string;
  (** [JSON.stringify(v, null, indent)] *)
  JSON_stringify : value -> nat -> string;
  (** [error.message] of a [ZodError] with the given issues *)
  ZodError_message : list ZodIssue -> string
}.

(** [`${x}`] for a number that may be [undefined]. *)
Definition template `{Runtime} (x : option float) : string :=
  match x with
  | Some n => Number_toString n
  | None => "undefined"
  end.

(** ** MCP protocol types *)

Module Mcp.

(** The JSON-RPC error codes of the SDK's [ErrorCode]. *)
Inductive ErrorCode : Type :=
| ParseError
| InvalidRequest
| MethodNotFound
| InvalidParams
| InternalError.

(** [new McpError(code, message)]. *)
Record McpError : Type := mkMcpError {
  code : ErrorCode;
  message : string
}.

Record Content : Type := mkContent {
  content_type : string;
  content_text : string
}.

Record CallToolResult : Type := mkCallToolResult {
  content : list Content
}.

(** A property of a tool's [inputSchema]. *)
Record PropertySchema : Type := mkProperty {
  prop_type : string;
  prop_description : option string;
  prop_enum : option (list string)
}.

Record InputSchema : Type := mkInputSchema {
  properties : option (list (string * PropertySchema));
  required : option (list string)
}.

(** A tool as [tools/list] returns it. *)
Record Tool : Type := mkTool {
  name : string;
  description : option string;
  inputSchema : InputSchema
}.

End Mcp.
Import Mcp.

Definition text_result (s : string) : CallToolResult :=
  mkCallToolResult [mkContent "text" s].

(** ** src/tools/calculator.ts *)

Module Calculator.

Inductive Operation : Type := add | subtract | multiply | divide.

Definition operation_name (op : Operation) : string :=
  match op with
  | add => "add"
  | subtract => "subtract"
  | multiply => "multiply"
  | divide => "divide"
  end.

Record CalculatorInput : Type := mkInput {
  operation : Operation;
  a : float;
  b : float
}.

Definition CalculatorInputSchema : Schema CalculatorInput :=
  object (fun o path =>
    match both (field o path "operation"
                  (enum [("add", add); ("subtract", subtract);
                         ("multiply", multiply); ("divide", divide)]))
               (both (field o path "a" number) (field o path "b" number)) with
    | inl (op, (x, y)) => inl (mkInput op x y)
    | inr issues => inr issues
    end).

Definition calculatorToolDefinition : Tool :=
  mkTool "calculator"
    (Some "Perform basic arithmetic operations: add, subtract, multiply, or divide two numbers.")
    (mkInputSchema
       (Some [ ("operation",
                mkProperty "string" (Some "The arithmetic operation to perform")
                  (Some ["add"; "subtract"; "multiply"; "divide"]));
               ("a", mkProperty "number" (Some "The first number") None);
               ("b", mkProperty "number" (Some "The second number") None) ])
       (Some ["operation"; "a"; "b"])).

(** The [switch (operation)]: the number, or the thrown error. *)
Definition compute (input : CalculatorInput) : result McpError float :=
  match operation input with
  | add => Ok (a input + b input)%float
  | subtract => Ok (a input - b input)%float
  | multiply => Ok (a input * b input)%float
  | divide =>
      if PrimFloat.eqb (b input) 0%float
      then Throw (mkMcpError InvalidParams "Cannot divide by zero")
      else Ok (a input / b input)%float
  end.

Definition handleCalculator `{Runtime} (args : value) : result McpError CallToolResult :=
  match CalculatorInputSchema [] args with
  | inr issues =>
      Throw (mkMcpError InvalidParams ("Invalid input: " ++ ZodError_message issues))
  | inl input =>
      match compute input with
      | Throw e => Throw e
      | Ok r =>
          Ok (text_result
                (Number_toString (a input) ++ " " ++ operation_name (operation input)
                 ++ " " ++ Number_toString (b input) ++ " = " ++ Number_toString r))
      end
  end.

End Calculator.

(** ** src/tools/weather.ts *)

Module Weather.

Inductive Unit : Type := celsius | fahrenheit.

Record WeatherInput : Type := mkInput {
  city : string;
  unit : Unit
}.

Definition WeatherInputSchema : Schema WeatherInput :=
  object (fun o path =>
    match both (field o path "city" (string_min 1))
               (field o path "unit"
                  (default (enum [("celsius", celsius); ("fahrenheit", fahrenheit)])
                     (VStr "celsius"))) with
    | inl (c, u) => inl (mkInput c u)
    | inr issues => inr issues
    end).

Definition weatherToolDefinition : Tool :=
  mkTool "get_weather"
    (Some "Get the current weather for a city. Returns temperature, humidity, and conditions.")
    (mkInputSchema
       (Some [ ("city",
                mkProperty "string" (Some "Name of the city to get weather for") None);
               ("unit",
                mkProperty "string" (Some "Temperature unit (default: celsius)")
                  (Some ["celsius"; "fahrenheit"])) ])
       (Some ["city"])).

(** A row of the weather table as the handler reads it: a member that is
    [None] reads as [undefined]. *)
Record WeatherData : Type := mkData {
  tempC : option float;
  humidity : option float;
  condition : option string
}.

Definition row (t h : float) (c : string) : WeatherData :=
  mkData (Some t) (Some h) (Some c).

Definition MOCK_WEATHER : list (string * WeatherData) :=
  [ ("london", row 12 80 "Cloudy");
    ("new york", row 18 60 "Sunny");
    ("tokyo", row 22 55 "Partly Cloudy");
    ("paris", row 14 70 "Rainy");
    ("sydney", row 25 50 "Sunny") ].

(** What the handler takes from its environment: the successive results of
    [Math.random()] and the text of [new Date().toISOString()]. *)
Record Env : Type := mkEnv {
  Math_random : nat -> float;
  Date_toISOString : string
}.

(** The object built after [??], with three draws in source order. *)
Definition random_weather (env : Env) : WeatherData :=
  mkData
    (Some (Math_round (15 + Math_random env 0 * 15)%float))
    (Some (Math_round (40 + Math_random env 1 * 40)%float))
    (match index_of (Math_floor (Math_random env 2 * 4)%float) with
     | Some i => nth_error ["Sunny"; "Cloudy"; "Rainy"; "Windy"] i
     | None => None
     end).

(** [MOCK_WEATHER[key] ?? {...}].  A key that names a member of
    [Object.prototype] yields that member, on which [tempC], [humidity]
    and [condition] are all [undefined]. *)
Definition weather_data (env : Env) (key : string) : WeatherData :=
  match get MOCK_WEATHER key with
  | Own d => d
  | Inherited _ => mkData None None None
  | Absent => random_weather env
  end.

(** The degree sign, U+00B0. *)
Definition degree : string := "°".

Definition temp (data : WeatherData) (u : Unit) : option float :=
  match u with
  | fahrenheit =>
      Some (Math_round (ToNumber (tempC data) * 1.8 + 32)%float)
  | celsius => tempC data
  end.

Definition unitSymbol (u : Unit) : string :=
  match u with
  | fahrenheit => degree ++ "F"
  | celsius => degree ++ "C"
  end.

Definition optional_string (s : option string) : value :=
  match s with
  | Some x => VStr x
  | None => VUndefined
  end.

(** [city.charAt(0).toUpperCase() + city.slice(1)].  When the city starts
    with a surrogate pair, [charAt(0)] is its first half alone, which
    [toUpperCase] leaves as it is, and the concatenation is the city
    again. *)
Definition capitalized `{Runtime} (city : string) : string :=
  if starts_with_pair city then city
  else String_toUpperCase (charAt0 city) ++ slice1 city.

Definition weatherReport `{Runtime} (env : Env) (input : WeatherInput) : value :=
  let key := String_toLowerCase (city input) in
  let data := weather_data env key in
  VObj [ ("city", VStr (capitalized (city input)));
         ("temperature", VStr (template (temp data (unit input)) ++ unitSymbol (unit input)));
         ("humidity", VStr (template (humidity data) ++ "%"));
         ("condition", optional_string (condition data));
         ("timestamp", VStr (Date_toISOString env)) ].

Definition handleGetWeather `{Runtime} (env : Env) (args : value)
    : result McpError CallToolResult :=
  match WeatherInputSchema [] args with
  | inr issues =>
      Throw (mkMcpError InvalidParams ("Invalid input: " ++ ZodError_message issues))
  | inl input =>
      Ok (text_result (JSON_stringify (weatherReport env input) 2))
  end.

End Weather.

(** ** src/index.ts: the tools/list and tools/call handlers *)

Module Server.

Definition listTools : list Tool :=
  [Calculator.calculatorToolDefinition; Weather.weatherToolDefinition].

Inductive Handler : Type := HandleCalculator | HandleGetWeather.

(** The [switch (name)]: which case is taken; [None] is [default]. *)
Definition route (name : string) : option Handler :=
  if String.eqb name "calculator" then Some HandleCalculator
  else if String.eqb name "get_weather" then Some HandleGetWeather
  else None.

Definition run `{Runtime} (env : Weather.Env) (h : Handler) (args : value)
    : result McpError CallToolResult :=
  match h with
  | HandleCalculator => Calculator.handleCalculator args
  | HandleGetWeather => Weather.handleGetWeather env args
  end.

(** The line written to stderr before the switch. *)
Definition log_line (name : string) : string :=
  "[tool:call] name=" ++ name ++ String (ascii_of_nat 10) EmptyString.

(** The [tools/call] request handler. *)
Definition invokeTool `{Runtime} (env : Weather.Env) (name : string) (args : value)
    : result McpError CallToolResult :=
  match route name with
  | Some h => run env h args
  | None => Throw (mkMcpError MethodNotFound ("Unknown tool: " ++ name))
  end.

(** The handler with its side channel: what goes to stderr, and the reply. *)
Definition callToolRequest `{Runtime} (env : Weather.Env) (name : string) (args : value)
    : list string * result McpError CallToolResult :=
  ([log_line name], invokeTool env name args).

(** The names in the registry. *)
Definition registered_names : list string := List.map Mcp.name listTools.

End Server.
Import Server.

(** ** src/client/index.ts: the schema translator *)

Module Translator.

(** The SDK's [SchemaType] enumeration. *)
Inductive SchemaType : Type :=
| STRING | NUMBER | INTEGER | BOOLEAN | ARRAY | OBJECT.

(** What [map[type] ?? SchemaType.STRING] evaluates to: a type tag, or,
    when [type] names a member of [Object.prototype], that member. *)
Inductive TypeTag : Type :=
| Tag (t : SchemaType)
| PrototypeMember (k : string).

Definition map : list (string * SchemaType) :=
  [ ("string", STRING); ("number", NUMBER); ("integer", INTEGER);
    ("boolean", BOOLEAN); ("array", ARRAY); ("object", OBJECT) ].

Definition toGeminiSchemaType (type : string) : TypeTag :=
  match get map type with
  | Own t => Tag t
  | Inherited k => PrototypeMember k
  | Absent => Tag STRING
  end.

(** One entry of [parameters.properties]. *)
Record Property : Type := mkProperty {
  type : TypeTag;
  description : string;
  enum : option (list string)
}.

(** The object [parameters.properties]: its own entries in enumeration
    order, and the prototype an assignment to ["__proto__"] gives it. *)
Record Properties : Type := mkProperties {
  proto : option Property;
  own : list (string * Property)
}.

Definition empty : Properties := mkProperties None [].

(** [properties[key] = v]. *)
Definition assign (o : Properties) (key : string) (v : Property) : Properties :=
  if String.eqb key "__proto__" then mkProperties (Some v) (own o)
  else mkProperties (proto o) (put key v (own o)).

Record Parameters : Type := mkParameters {
  parameters_type : SchemaType;
  properties : Properties;
  required : list string
}.

Record FunctionDeclaration : Type := mkFunctionDeclaration {
  name : string;
  fn_description : string;
  parameters : Parameters
}.

Definition or_else {A : Type} (x : option A) (d : A) : A :=
  match x with
  | Some a => a
  | None => d
  end.

Definition translate_property (val : PropertySchema) : Property :=
  mkProperty (toGeminiSchemaType (prop_type val))
             (or_else (prop_description val) "")
             (prop_enum val).

(** The body of the [for ... of Object.entries(schema.properties)] loop,
    folded over the entries. *)
Definition translate_properties (entries : list (string * PropertySchema)) : Properties :=
  fold_left (fun o kv => assign o (fst kv) (translate_property (snd kv))) entries empty.

Definition mcpToolToGeminiFn (tool : Tool) : FunctionDeclaration :=
  let schema := Mcp.inputSchema tool in
  mkFunctionDeclaration
    (Mcp.name tool)
    (or_else (Mcp.description tool) "")
    (mkParameters OBJECT
       (match Mcp.properties schema with
        | Some entries => translate_properties entries
        | None => empty
        end)
       (or_else (Mcp.required schema) [])).

(** One entry, translated. *)
Definition translate_entry (kv : string * PropertySchema) : string * Property :=
  (fst kv, translate_property (snd kv)).

End Translator.

(** ** src/client/index.ts: the schema translator over a store of objects *)

(** The translator again, statement by statement, over a store of
    JavaScript objects: tools, schemas and declarations are objects that
    hold references, the translator reads the tool it is given through its
    reference and allocates the declaration it returns.  This is the model
    in which "no side effect" is a statement. *)
Module Store.

Definition loc : Type := nat.

(** What a property of these objects holds. *)
Inductive jsval : Type :=
| Undefined
| Str (s : string)
| Kind (t : Translator.TypeTag)
| Ref (l : loc).

(** An object, with the prototype an assignment to ["__proto__"] gave it
    and its own properties in order, or an array of strings. *)
Inductive cell : Type :=
| Obj (proto : option loc) (fields : list (string * jsval))
| Arr (items : list string).

Record store : Type := mkStore {
  cells : loc -> option cell;
  next : loc
}.

Definition empty_store : store := mkStore (fun _ => None) 0.

(** The cell at an allocated location. *)
Definition deref (h : store) (l : loc) : option cell :=
  if Nat.ltb l (next h) then cells h l else None.

Definition update (h : store) (l : loc) (c : cell) : store :=
  mkStore (fun l' => if Nat.eqb l' l then Some c else cells h l') (next h).

(** Computations on the store; [None] is a [TypeError], which a tool of
    the declared type never causes. *)
Definition H (A : Type) : Type := store -> option (A * store).

Definition ret {A : Type} (a : A) : H A := fun h => Some (a, h).

Definition bind {A B : Type} (m : H A) (k : A -> H B) : H B :=
  fun h =>
    match m h with
    | Some (a, h') => k a h'
    | None => None
    end.

Notation "x <- m ;; k" := (bind m (fun x => k))
  (at level 61, m at next level, right associativity).
Notation "m ;;; k" := (bind m (fun _ => k))
  (at level 61, right associativity).

Definition extend (h : store) (c : cell) : store :=
  mkStore (fun l => if Nat.eqb l (next h) then Some c else cells h l) (S (next h)).

(** An object or array literal: a fresh location. *)
Definition alloc (c : cell) : H loc :=
  fun h => Some (next h, extend h c).

Definition field (fields : list (string * jsval)) (k : string) : jsval :=
  match assoc k fields with
  | Some v => v
  | None => Undefined
  end.

(** [v.k], for the keys the translator reads (none is a member of
    [Object.prototype]). *)
Definition getprop (v : jsval) (k : string) : H jsval :=
  fun h =>
    match v with
    | Ref l =>
        match deref h l with
        | Some (Obj _ fields) => Some (field fields k, h)
        | Some (Arr _) => Some (Undefined, h)
        | None => None
        end
    | _ => None
    end.

(** [v[k] = x] where [x] is an object. *)
Definition setprop (v : jsval) (k : string) (x : loc) : H unit :=
  fun h =>
    match v with
    | Ref l =>
        match deref h l with
        | Some (Obj proto fields) =>
            if String.eqb k "__proto__"
            then Some (tt, update h l (Obj (Some x) fields))
            else Some (tt, update h l (Obj proto (put k (Ref x) fields)))
        | _ => None
        end
    | _ => None
    end.

(** [Object.entries(v)]. *)
Definition entries (v : jsval) : H (list (string * jsval)) :=
  fun h =>
    match v with
    | Ref l =>
        match deref h l with
        | Some (Obj _ fields) => Some (fields, h)
        | _ => None
        end
    | _ => None
    end.

Definition as_string (v : jsval) : H string :=
  fun h =>
    match v with
    | Str s => Some (s, h)
    | _ => None
    end.

(** [ToPropertyKey] of the index in [map[type]]: a string is its own key,
    [undefined] is the key "undefined". *)
Definition property_key (v : jsval) : H string :=
  fun h =>
    match v with
    | Str s => Some (s, h)
    | Undefined => Some ("undefined", h)
    | _ => None
    end.

Definition as_ref (v : jsval) : H loc :=
  fun h =>
    match v with
    | Ref l => Some (l, h)
    | _ => None
    end.

(** [v ?? d] and the truth of [v]. *)
Definition nullish (v : jsval) : bool :=
  match v with
  | Undefined => true
  | _ => false
  end.

Definition truthy (v : jsval) : bool :=
  match v with
  | Undefined => false
  | Str s => negb (String.eqb s "")
  | _ => true
  end.

Definition or_else (v d : jsval) : jsval := if nullish v then d else v.

(** The body of the [for] loop, for the entries that remain. *)
Fixpoint forEntries (parameters : loc) (es : list (string * jsval)) : H unit :=
  match es with
  | [] => ret tt
  | (key, val) :: rest =>
      target <- getprop (Ref parameters) "properties" ;;
      type <- getprop val "type" ;;
      type <- property_key type ;;
      description <- getprop val "description" ;;
      enum <- getprop val "enum" ;;
      spread <- alloc (Obj None (if truthy enum then [("enum", enum)] else [])) ;;
      spread <- entries (Ref spread) ;;
      property <- alloc (Obj None
                           ([ ("type", Kind (Translator.toGeminiSchemaType type));
                              ("description", or_else description (Str "")) ]
                            ++ spread)%list) ;;
      setprop target key property ;;;
      forEntries parameters rest
  end.

Definition mcpToolToGeminiFn (tool : loc) : H loc :=
  schema <- getprop (Ref tool) "inputSchema" ;;
  properties <- alloc (Obj None []) ;;
  required <- getprop schema "required" ;;
  required <- (if nullish required
               then (fresh <- alloc (Arr []) ;; ret (Ref fresh))
               else ret required) ;;
  parameters <- alloc (Obj None [ ("type", Kind (Translator.Tag Translator.OBJECT));
                                  ("properties", Ref properties);
                                  ("required", required) ]) ;;
  schema_properties <- getprop schema "properties" ;;
  (if truthy schema_properties
   then (es <- entries schema_properties ;; forEntries parameters es)
   else ret tt) ;;;
  name <- getprop (Ref tool) "name" ;;
  description <- getprop (Ref tool) "description" ;;
  alloc (Obj None [ ("name", name);
                    ("description", or_else description (Str ""));
                    ("parameters", Ref parameters) ]).

(** *** Reading values back from the store *)

Definition read_string (v : jsval) : option string :=
  match v with
  | Str s => Some s
  | _ => None
  end.

Definition read_strings (h : store) (v : jsval) : option (list string) :=
  match v with
  | Ref l =>
      match deref h l with
      | Some (Arr items) => Some items
      | _ => None
      end
  | _ => None
  end.

Definition read_optional {A : Type} (read : jsval -> option A) (v : jsval)
    : option (option A) :=
  match v with
  | Undefined => Some None
  | _ =>
      match read v with
      | Some a => Some (Some a)
      | None => None
      end
  end.

Fixpoint read_all {A : Type} (read : jsval -> option A) (fields : list (string * jsval))
    : option (list (string * A)) :=
  match fields with
  | [] => Some []
  | (k, v) :: rest =>
      match read v, read_all read rest with
      | Some a, Some others => Some ((k, a) :: others)
      | _, _ => None
      end
  end.

Definition read_object (h : store) (v : jsval) : option (option loc * list (string * jsval)) :=
  match v with
  | Ref l =>
      match deref h l with
      | Some (Obj proto fields) => Some (proto, fields)
      | _ => None
      end
  | _ => None
  end.

(** The tool at a reference. *)
Definition read_property_schema (h : store) (v : jsval) : option PropertySchema :=
  match read_object h v with
  | Some (_, fields) =>
      match read_string (field fields "type"),
            read_optional read_string (field fields "description"),
            read_optional (read_strings h) (field fields "enum") with
      | Some type, Some description, Some enum => Some (Mcp.mkProperty type description enum)
      | _, _, _ => None
      end
  | None => None
  end.

Definition read_entries (h : store) (v : jsval) : option (list (string * PropertySchema)) :=
  match read_object h v with
  | Some (_, fields) => read_all (read_property_schema h) fields
  | None => None
  end.

Definition read_input_schema (h : store) (v : jsval) : option InputSchema :=
  match read_object h v with
  | Some (_, fields) =>
      match read_optional (read_entries h) (field fields "properties"),
            read_optional (read_strings h) (field fields "required") with
      | Some properties, Some required => Some (mkInputSchema properties required)
      | _, _ => None
      end
  | None => None
  end.

Definition read_tool (h : store) (l : loc) : option Tool :=
  match read_object h (Ref l) with
  | Some (_, fields) =>
      match read_string (field fields "name"),
            read_optional read_string (field fields "description"),
            read_input_schema h (field fields "inputSchema") with
      | Some name, Some description, Some schema => Some (mkTool name description schema)
      | _, _, _ => None
      end
  | None => None
  end.

(** The declaration at a reference. *)
Definition read_kind (v : jsval) : option Translator.TypeTag :=
  match v with
  | Kind t => Some t
  | _ => None
  end.

Definition read_property (h : store) (v : jsval) : option Translator.Property :=
  match read_object h v with
  | Some (None, fields) =>
      match read_kind (field fields "type"),
            read_string (field fields "description"),
            read_optional (read_strings h) (field fields "enum") with
      | Some type, Some description, Some enum =>
          Some (Translator.mkProperty type description enum)
      | _, _, _ => None
      end
  | _ => None
  end.

Definition read_properties (h : store) (v : jsval) : option Translator.Properties :=
  match read_object h v with
  | Some (proto, fields) =>
      match match proto with
            | Some l => read_optional (read_property h) (Ref l)
            | None => Some None
            end,
            read_all (read_property h) fields with
      | Some proto, Some own => Some (Translator.mkProperties proto own)
      | _, _ => None
      end
  | None => None
  end.

Definition read_parameters (h : store) (v : jsval) : option Translator.Parameters :=
  match read_object h v with
  | Some (None, fields) =>
      match read_kind (field fields "type"),
            read_properties h (field fields "properties"),
            read_strings h (field fields "required") with
      | Some (Translator.Tag type), Some properties, Some required =>
          Some (Translator.mkParameters type properties required)
      | _, _, _ => None
      end
  | _ => None
  end.

Definition read_declaration (h : store) (l : loc) : option Translator.FunctionDeclaration :=
  match read_object h (Ref l) with
  | Some (None, fields) =>
      match read_string (field fields "name"),
            read_string (field fields "description"),
            read_parameters h (field fields "parameters") with
      | Some name, Some description, Some parameters =>
          Some (Translator.mkFunctionDeclaration name description parameters)
      | _, _, _ => None
      end
  | _ => None
  end.

(** *** Putting a tool in the store *)

Definition optional_field {A : Type} (k : string) (store_value : A -> H jsval) (o : option A)
    : H (list (string * jsval)) :=
  match o with
  | Some a => v <- store_value a ;; ret [(k, v)]
  | None => ret []
  end.

Definition store_string (s : string) : H jsval := ret (Str s).

Definition store_strings (items : list string) : H jsval :=
  l <- alloc (Arr items) ;; ret (Ref l).

Definition store_property_schema (p : PropertySchema) : H jsval :=
  description <- optional_field "description" store_string (prop_description p) ;;
  enum <- optional_field "enum" store_strings (prop_enum p) ;;
  l <- alloc (Obj None ([("type", Str (prop_type p))] ++ description ++ enum)%list) ;;
  ret (Ref l).

Fixpoint store_all (ps : list (string * PropertySchema)) : H (list (string * jsval)) :=
  match ps with
  | [] => ret []
  | (k, p) :: rest =>
      v <- store_property_schema p ;;
      others <- store_all rest ;;
      ret ((k, v) :: others)
  end.

Definition store_entries (ps : list (string * PropertySchema)) : H jsval :=
  fields <- store_all ps ;;
  l <- alloc (Obj None fields) ;;
  ret (Ref l).

Definition store_input_schema (s : InputSchema) : H jsval :=
  properties <- optional_field "properties" store_entries (Mcp.properties s) ;;
  required <- optional_field "required" store_strings (Mcp.required s) ;;
  l <- alloc (Obj None ([("type", Str "object")] ++ properties ++ required)%list) ;;
  ret (Ref l).

Definition store_tool (t : Tool) : H loc :=
  description <- optional_field "description" store_string (Mcp.description t) ;;
  schema <- store_input_schema (Mcp.inputSchema t) ;;
  alloc (Obj None ([("name", Str (Mcp.name t))] ++ description
                   ++ [("inputSchema", schema)])%list).

(** Nothing that was allocated in [h] has changed in [h']. *)
Definition unchanged (h h' : store) : Prop :=
  next h <= next h' /\ forall l, l < next h -> cells h' l = cells h l.

(** *** What the loop maintains *)

(** The entry of the declaration at [lo] is [p]: a fresh object, allocated
    after the properties object [q], whose enum, if it has one, is an array
    of the store [h0] the translator started from. *)
Definition property_at (h0 h : store) (q lo : loc) (p : Translator.Property) : Prop :=
  q < lo /\ lo < next h
  /\ exists fields,
       cells h lo = Some (Obj None fields)
       /\ field fields "type" = Kind (Translator.type p)
       /\ field fields "description" = Str (Translator.description p)
       /\ match Translator.enum p with
          | None => field fields "enum" = Undefined
          | Some items => exists a, field fields "enum" = Ref a /\ deref h0 a = Some (Arr items)
          end.

Definition entry_at (h0 h : store) (q : loc)
    (kv : string * jsval) (ke : string * Translator.Property) : Prop :=
  fst kv = fst ke /\ exists lo, snd kv = Ref lo /\ property_at h0 h q lo (snd ke).

(** The properties object at [q] is [acc]. *)
Definition properties_at (h0 h : store) (q : loc) (acc : Translator.Properties) : Prop :=
  exists proto fields,
    cells h q = Some (Obj proto fields)
    /\ match proto with
       | None => Translator.proto acc = None
       | Some lp => exists p, Translator.proto acc = Some p /\ property_at h0 h q lp p
       end
    /\ Forall2 (entry_at h0 h q) fields (Translator.own acc).

(** Nothing that was allocated in [h] has changed in [h'], except at [q]. *)
Definition unchanged_but (q : loc) (h h' : store) : Prop :=
  next h <= next h' /\ forall l, l < next h -> l <> q -> cells h' l = cells h l.

End Store.

(** ** src/client/index.ts: the agentic loop *)

Module Loop.

(** A function call the model asks for. *)
Record FunctionCall : Type := mkCall {
  call_name : string;
  call_args : value
}.

(** What the loop reads off a model response: [candidate.functionCalls()]
    and [candidate.text()]. *)
Record Response : Type := mkResponse {
  functionCalls : option (list FunctionCall);
  text : string
}.

(** [{ functionResponse: { name, response: { result } } }]. *)
Record FunctionResponse : Type := mkFunctionResponse {
  response_name : string;
  response_result : string
}.

(** The two arguments [chat.sendMessage] is called with. *)
Inductive Request : Type :=
| UserMessage (userInput : string)
| ToolResults (toolResults : list FunctionResponse).

(** What the turn does to the outside, in order. *)
Inductive Event : Type :=
| ConsoleLog (line : string)
| ConsoleError (line : string)
| CallTool (name : string) (args : value)
| SendMessage (request : Request).

Inductive outcome (A : Type) : Type :=
| Returned (a : A)
| Thrown (err : string)
| OutOfFuel.
Arguments Returned {A} a.
Arguments Thrown {A} err.
Arguments OutOfFuel {A}.

Section Controller.

Context `{Runtime}.

(** The outside: the chat session and the MCP server behind the
    transport.  A call either returns or throws the text of its error. *)
Variable World : Type.
Variable sendMessage : Request -> World -> result string Response * World.
Variable callTool : string -> value -> World -> result string CallToolResult * World.

(** Computations of the turn: events emitted, new world, outcome. *)
Definition M (A : Type) : Type := World -> list Event * World * outcome A.

Definition ret {A : Type} (a : A) : M A := fun w => ([], w, Returned a).

Definition bind {A B : Type} (m : M A) (k : A -> M B) : M B :=
  fun w =>
    match m w with
    | (evs, w', Returned a) =>
        match k a w' with
        | (evs', w'', out) => ((evs ++ evs')%list, w'', out)
        end
    | (evs, w', Thrown err) => (evs, w', Thrown err)
    | (evs, w', OutOfFuel) => (evs, w', OutOfFuel)
    end.

Definition emit (e : Event) : M unit := fun w => ([e], w, Returned tt).

Definition of_result {A : Type} (r : result string A) : outcome A :=
  match r with
  | Ok a => Returned a
  | Throw err => Thrown err
  end.

Definition await_sendMessage (request : Request) : M Response :=
  fun w =>
    match sendMessage request w with
    | (r, w') => ([SendMessage request], w', of_result r)
    end.

Definition await_callTool (name : string) (args : value) : M CallToolResult :=
  fun w =>
    match callTool name args w with
    | (r, w') => ([CallTool name args], w', of_result r)
    end.

(** [try { m } catch (err) { handler(err) }]. *)
Definition try_catch {A : Type} (m : M A) (handler : string -> M A) : M A :=
  fun w =>
    match m w with
    | (evs, w', Thrown err) =>
        match handler err w' with
        | (evs', w'', out) => ((evs ++ evs')%list, w'', out)
        end
    | other => other
    end.

Notation "x <- m ;; k" := (bind m (fun x => k))
  (at level 61, m at next level, right associativity).
Notation "m ;;; k" := (bind m (fun _ => k))
  (at level 61, right associativity).

Definition newline : string := String (ascii_of_nat 10) EmptyString.

(** The text content of a tool result, joined by newlines. *)
Definition resultText (toolResult : CallToolResult) : string :=
  join newline
    (List.map content_text
       (filter (fun c => String.eqb (content_type c) "text") (content toolResult))).

(** The two console lines around a tool call, and the line of an error. *)
Definition calling_line (call : FunctionCall) : string :=
  newline ++ "⚙️  Calling tool: " ++ call_name call ++ "("
  ++ JSON_stringify (call_args call) 0 ++ ")".

Definition result_line (toolResult : CallToolResult) : string :=
  "   ✅ Result: " ++ resultText toolResult.

Definition error_line (err : string) : string :=
  newline ++ "❌ Error: " ++ err.

(** The entry of the batch for [call], given the result of its invocation. *)
Definition function_response (call : FunctionCall) (toolResult : CallToolResult)
    : FunctionResponse :=
  mkFunctionResponse (call_name call) (resultText toolResult).

(** [part] answers [call]: it carries the name of the call and the text of
    a result the server returned for that very call. *)
Definition answers (call : FunctionCall) (part : FunctionResponse) : Prop :=
  response_name part = call_name call
  /\ exists w w' toolResult,
       callTool (call_name call) (call_args call) w = (Ok toolResult, w')
       /\ part = function_response call toolResult.

(** The [for (const call of functionCalls)] loop; [toolResults] is the
    array built so far. *)
Fixpoint forCalls (calls : list FunctionCall) (toolResults : list FunctionResponse)
    : M (list FunctionResponse) :=
  match calls with
  | [] => ret toolResults
  | call :: rest =>
      emit (ConsoleLog (calling_line call)) ;;;
      toolResult <- await_callTool (call_name call) (call_args call) ;;
      emit (ConsoleLog (result_line toolResult)) ;;;
      forCalls rest (toolResults ++ [function_response call toolResult])%list
  end.

(** Steps 8 and 9 of the loop body: run the calls, then send the batch. *)
Definition toolRound (calls : list FunctionCall) : M Response :=
  toolResults <- forCalls calls [] ;;
  await_sendMessage (ToolResults toolResults).

(** The [while (true)] loop.  The source has no bound on the number of
    rounds; [fuel] bounds them here and its exhaustion is [OutOfFuel]. *)
Fixpoint agenticLoop (fuel : nat) (candidate : Response) : M unit :=
  match fuel with
  | O => fun w => ([], w, OutOfFuel)
  | S fuel' =>
      match functionCalls candidate with
      | None | Some [] =>
          emit (ConsoleLog (newline ++ "🤖 Gemini: " ++ text candidate))
      | Some calls =>
          response <- toolRound calls ;;
          agenticLoop fuel' response
      end
  end.

(** The calls invoked one after the other from [w], when each of them
    returns: their results, in order, and the world after the last.
    [None] when one of them throws. *)
Fixpoint returned (calls : list FunctionCall) (w : World)
    : option (list CallToolResult * World) :=
  match calls with
  | [] => Some ([], w)
  | call :: rest =>
      match callTool (call_name call) (call_args call) w with
      | (Ok toolResult, w1) =>
          match returned rest w1 with
          | Some (toolResults, w2) => Some (toolResult :: toolResults, w2)
          | None => None
          end
      | (Throw _, _) => None
      end
  end.

(** The batch that answers [calls] with [toolResults]: the entry at each
    position carries the name of the call and the text of the result at
    that position. *)
Definition batch (calls : list FunctionCall) (toolResults : list CallToolResult)
    : list FunctionResponse :=
  List.map (fun p => function_response (fst p) (snd p)) (combine calls toolResults).

(** The first [n] rounds after [candidate], when each of them is whole
    (every call returns, and so does the message that carries the batch):
    the calls invoked and the batches sent in these rounds, in order, the
    response to the last batch, and the world then.  [None] when the model
    asks for fewer rounds or one of them is cut short. *)
Fixpoint rounds (n : nat) (candidate : Response) (w : World)
    : option (list FunctionCall * list (list FunctionResponse) * Response * World) :=
  match n with
  | O => Some ([], [], candidate, w)
  | S n' =>
      match functionCalls candidate with
      | None | Some [] => None
      | Some calls =>
          match returned calls w with
          | Some (toolResults, w1) =>
              match sendMessage (ToolResults (batch calls toolResults)) w1 with
              | (Ok response, w2) =>
                  match rounds n' response w2 with
                  | Some (invoked, batches, last, w3) =>
                      Some ((calls ++ invoked)%list,
                            batch calls toolResults :: batches, last, w3)
                  | None => None
                  end
              | (Throw _, _) => None
              end
          | None => None
          end
      end
  end.

(** The [try ... catch] of one user message. *)
Definition turn (fuel : nat) (userInput : string) : M unit :=
  try_catch
    (response <- await_sendMessage (UserMessage userInput) ;;
     agenticLoop fuel response)
    (fun err => emit (ConsoleError (error_line err))).

(** Projections of a trace. *)
Definition tool_calls (evs : list Event) : list (string * value) :=
  flat_map (fun e => match e with CallTool n a => [(n, a)] | _ => [] end) evs.

Definition sent (evs : list Event) : list Request :=
  flat_map (fun e => match e with SendMessage r => [r] | _ => [] end) evs.

Definition errors (evs : list Event) : list string :=
  flat_map (fun e => match e with ConsoleError l => [l] | _ => [] end) evs.

End Controller.

Definition request_of (call : FunctionCall) : string * value :=
  (call_name call, call_args call).

(** The numbers of the SDK's [ErrorCode], as [`${code}`] prints them. *)
Definition code_number (c : ErrorCode) : string :=
  match c with
  | ParseError => "-32700"
  | InvalidRequest => "-32600"
  | MethodNotFound => "-32601"
  | InvalidParams => "-32602"
  | InternalError => "-32603"
  end.

(** [error.message] of [new McpError(code, message)]: the SDK's
    constructor passes [`MCP error ${code}: ${message}`] to [Error]. *)
Definition McpError_message (c : ErrorCode) (message : string) : string :=
  "MCP error " ++ code_number c ++ ": " ++ message.

(** [err.message] of the rejection the client sees for an [McpError] the
    handler threw: the server replies with the code and [error.message],
    and the client builds a new [McpError] from the two, so the code is in
    front twice. *)
Definition rejection (e : McpError) : string :=
  McpError_message (code e) (McpError_message (code e) (message e)).

(** The client wired to this repository's server: [mcpClient.callTool]
    resolves with the handler's result and rejects with [rejection] of the
    [McpError] the handler threw.  The server keeps no state, and the
    environment of its handlers is the same at every call. *)
Definition serverCallTool `{Runtime} (World : Type) (env : Weather.Env)
    (name : string) (args : value) (w : World) : result string CallToolResult * World :=
  (match invokeTool env name args with
   | Ok r => Ok r
   | Throw e => Throw (rejection e)
   end, w).

(** A scripted model: the world is the list of responses still to come. *)
Definition scripted (request : Request) (w : list Response)
    : result string Response * list Response :=
  match w with
  | response :: rest => (Ok response, rest)
  | [] => (Throw "fetch failed", [])
  end.

End Loop.

(** ** The specification's vocabulary *)

(** The checks the specification asks of the dispatcher against a tool's
    declared [inputSchema]: type check, required-field presence and
    enum-membership check.  These definitions follow the specification; the
    handlers above validate with their zod schemas instead. *)
Module Declared.

(** A value that JSON can carry: no [undefined], no [NaN], no infinity. *)
Fixpoint is_json (v : value) : bool :=
  match v with
  | VUndefined => false
  | VNull => true
  | VBool _ => true
  | VNum x => is_finite x
  | VStr _ => true
  | VArr xs => forallb is_json xs
  | VObj fields => forallb (fun kv => is_json (snd kv)) fields
  end.

(** Type check against a primitive kind; a kind outside the six
    constrains nothing. *)
Definition has_type (kind : string) (v : value) : bool :=
  if String.eqb kind "string" then match v with VStr _ => true | _ => false end
  else if String.eqb kind "number" then match v with VNum _ => true | _ => false end
  else if String.eqb kind "integer" then
    match v with VNum x => PrimFloat.eqb (Math_floor x) x | _ => false end
  else if String.eqb kind "boolean" then match v with VBool _ => true | _ => false end
  else if String.eqb kind "array" then match v with VArr _ => true | _ => false end
  else if String.eqb kind "object" then match v with VObj _ => true | _ => false end
  else true.

Definition in_enum (allowed : option (list string)) (v : value) : bool :=
  match allowed with
  | None => true
  | Some options =>
      match v with
      | VStr s => mem s options
      | _ => false
      end
  end.

Definition field_ok (p : PropertySchema) (v : value) : bool :=
  has_type (prop_type p) v && in_enum (prop_enum p) v.

Definition declared_properties (schema : InputSchema) : list (string * PropertySchema) :=
  match Mcp.properties schema with
  | Some ps => ps
  | None => []
  end.

Definition declared_required (schema : InputSchema) : list string :=
  match Mcp.required schema with
  | Some r => r
  | None => []
  end.

(** Field [f] of the argument mapping violates the schema: it is required
    and missing, or present with the wrong type or outside its enum. *)
Definition violates (schema : InputSchema) (args : list (string * value)) (f : string) : bool :=
  match assoc f args with
  | None => mem f (declared_required schema)
  | Some v =>
      match assoc f (declared_properties schema) with
      | Some p => negb (field_ok p v)
      | None => false
      end
  end.

(** The argument mapping satisfies the schema: no field violates it. *)
Definition satisfies (schema : InputSchema) (args : list (string * value)) : bool :=
  forallb (fun f => negb (violates schema args f))
          (declared_required schema ++ List.map fst (declared_properties schema))%list.

End Declared.

(** The specification's error kinds, as a caller can tell them apart: the
    reply to a failed [tools/call] carries an [ErrorCode] and a message, and
    nothing else. *)
Module Taxonomy.

Definition NotFound (e : McpError) : Prop := code e = MethodNotFound.

Definition InvalidInput (e : McpError) : Prop := code e = InvalidParams.

(** A substring test for "the message carries / names". *)
Definition carries (msg part : string) : Prop :=
  exists before after, msg = before ++ part ++ after.

(** [k] between double quotes: how JSON writes the key [k], when [k] is
    made of letters, digits and underscores. *)
Definition quoted (k : string) : string :=
  String (ascii_of_nat 34) (k ++ String (ascii_of_nat 34) EmptyString).

Definition is_word_char (c : ascii) : bool :=
  let n := nat_of_ascii c in
  (Nat.leb 48 n && Nat.leb n 57) || (Nat.leb 65 n && Nat.leb n 90)
  || (Nat.leb 97 n && Nat.leb n 122) || Nat.eqb n 95.

Fixpoint is_word (k : string) : bool :=
  match k with
  | EmptyString => true
  | String c rest => is_word_char c && is_word rest
  end.

(** The message names the field: it carries the field's name as a JSON
    string. *)
Definition names (msg field : string) : Prop := carries msg (quoted field).

(** What zod's rendering of an error does, being the JSON text of its
    issues: the keys on the path of every issue are in it, as JSON
    strings. *)
Definition shows_paths (R : Runtime) : Prop :=
  forall (issues : list ZodIssue) (i : ZodIssue) (k : string),
    In i issues -> In k (issue_path i) -> is_word k = true ->
    carries (ZodError_message issues) (quoted k).

End Taxonomy.

(** ** Inputs of the scenarios *)

Module Scenarios.

(** The arguments of a calculator invocation. *)
Definition calculator_args (operation : string) (a b : value) : value :=
  VObj [("operation", VStr operation); ("a", a); ("b", b)].

(** [{operation: "divide", a: 1, b: 0}] and [{operation: "add", a: "x", b: 2}]. *)
Definition divide_1_0 : value := calculator_args "divide" (VNum 1) (VNum 0).

Definition add_x_2 : value := calculator_args "add" (VStr "x") (VNum 2).

(** [{city: "Tokyo"}]. *)
Definition tokyo : list (string * value) := [("city", VStr "Tokyo")].

(** A tool with one field whose kind is "constructor". *)
Definition odd_tool : Tool :=
  mkTool "odd" (Some "A tool with an unrecognized kind")
    (mkInputSchema (Some [("x", Mcp.mkProperty "constructor" (Some "a field") None)])
                   (Some ["x"])).

(** Function calls a model may ask for; the last names no registered tool. *)
Definition multiply_call : Loop.FunctionCall :=
  Loop.mkCall "calculator" (calculator_args "multiply" (VNum 25) (VNum 4)).

Definition divide_call : Loop.FunctionCall := Loop.mkCall "calculator" divide_1_0.

Definition weather_call : Loop.FunctionCall := Loop.mkCall "get_weather" (VObj tokyo).

Definition unknown_call : Loop.FunctionCall := Loop.mkCall "calculater" (VObj []).

(** A response that asks for calls, and a response that is a final answer. *)
Definition asks (calls : list Loop.FunctionCall) : Loop.Response :=
  Loop.mkResponse (Some calls) "".

Definition says (answer : string) : Loop.Response := Loop.mkResponse None answer.

End Scenarios.

(** ** src/resources/notes.ts *)

Module Notes.

Record Note : Type := mkNote {
  id : float;
  title : string;
  content : string;
  createdAt : string;
  tags : list string
}.

(** A text given line by line. *)
Definition lines (ls : list string) : string := join Loop.newline ls.

Definition notesStore : list Note :=
  [ mkNote 1 "What is MCP?"
      (lines
         [ "Model Context Protocol (MCP) is an open standard by Anthropic.";
           "It lets LLMs connect to external data sources and tools in a structured way.";
           "";
           "Key primitives:";
           "- Tools: actions the AI can take (like function calls)";
           "- Resources: data the AI can read (like files/documents)";
           "- Prompts: reusable message templates" ])
      "2025-01-01T10:00:00Z" ["mcp"; "learning"];
    mkNote 2 "MCP Transport Types"
      (lines
         [ "MCP supports two main transports:";
           "";
           "1. stdio — standard input/output";
           "   - Best for local tools run as subprocesses (e.g. Claude Desktop)";
           "   - Simple, no networking needed";
           "";
           "2. Streamable HTTP — HTTP with streaming";
           "   - Best for networked/cloud deployments";
           "   - Supports multiple concurrent clients" ])
      "2025-01-02T12:00:00Z" ["mcp"; "transport"];
    mkNote 3 "Why use Zod for validation?"
      (lines
         [ "Zod is a TypeScript-first schema validation library.";
           "";
           "In MCP servers, you should ALWAYS validate tool inputs because:";
           "1. The AI might send unexpected data types";
           "2. Malformed inputs could crash your server";
           "3. Good error messages help the AI self-correct";
           "";
           "Example:";
           "  const schema = z.object({ name: z.string(), age: z.number().min(0) });";
           "  const result = schema.safeParse(input); // never throws" ])
      "2025-01-03T09:00:00Z" ["typescript"; "zod"; "validation"] ].

(** An entry of [resources/list]. *)
Record Resource : Type := mkResource {
  uri : string;
  name : string;
  description : string;
  mimeType : string
}.

Definition getNotesResourceList `{Runtime} : list Resource :=
  List.map
    (fun note =>
       mkResource ("notes://" ++ Number_toString (id note))
                  (title note)
                  ("Note #" ++ Number_toString (id note) ++ " — tags: " ++ join ", " (tags note))
                  "text/plain")
    notesStore.

(** The reply to [resources/read]. *)
Record ResourceContents : Type := mkContents {
  contents_uri : string;
  contents_mimeType : string;
  contents_text : string
}.

Record ReadResourceResult : Type := mkReadResourceResult {
  contents : list ResourceContents
}.

(** [s] without [prefix], when it starts with it. *)
Fixpoint strip_prefix (prefix s : string) : option string :=
  match prefix, s with
  | EmptyString, _ => Some s
  | String c p, String d r => if Ascii.eqb c d then strip_prefix p r else None
  | String _ _, EmptyString => None
  end.

(** [\d]: one of the ten ASCII digits. *)
Definition is_digit (c : ascii) : bool :=
  Nat.leb 48 (nat_of_ascii c) && Nat.leb (nat_of_ascii c) 57.

Fixpoint all_digits (s : string) : bool :=
  match s with
  | EmptyString => true
  | String c r => is_digit c && all_digits r
  end.

(** [uri.match(/^notes:\/\/(\d+)$/)]: the digits it captures. *)
Definition match_note_uri (uri : string) : option string :=
  match strip_prefix "notes://" uri with
  | Some digits =>
      if all_digits digits && negb (String.eqb digits "") then Some digits else None
  | None => None
  end.

(** The integer a string of digits denotes, after [acc]. *)
Fixpoint digits_value (acc : Z) (s : string) : Z :=
  match s with
  | EmptyString => acc
  | String c r => digits_value (10 * acc + (Z.of_nat (nat_of_ascii c) - 48)) r
  end.

(** [parseInt(digits, 10)] on a string of digits: the number nearest to the
    integer they denote.  (Past twenty significant digits ECMAScript lets
    an implementation zero the digits that follow; this is the result
    without that licence.) *)
Definition parseInt (digits : string) : float := float_of_Z (digits_value 0 digits).

(** One entry of the summary of all notes. *)
Definition summary_entry `{Runtime} (n : Note) : string :=
  "[" ++ Number_toString (id n) ++ "] " ++ title n ++ Loop.newline
  ++ "    Tags: " ++ join ", " (tags n) ++ Loop.newline
  ++ "    Created: " ++ createdAt n.

Definition summary_text `{Runtime} : string :=
  "📝 All Notes (" ++ Number_toString (float_of_Z (Z.of_nat (length notesStore)))
  ++ " total)" ++ Loop.newline ++ Loop.newline
  ++ join (Loop.newline ++ Loop.newline) (List.map summary_entry notesStore).

Definition note_text (note : Note) : string :=
  "📝 " ++ title note ++ Loop.newline
  ++ "Created: " ++ createdAt note ++ Loop.newline
  ++ "Tags: " ++ join ", " (tags note) ++ Loop.newline ++ Loop.newline
  ++ content note.

Definition single (uri text : string) : ReadResourceResult :=
  mkReadResourceResult [mkContents uri "text/plain" text].

(** [readNoteResource]; what it throws is the message of a plain [Error]. *)
Definition readNoteResource `{Runtime} (uri : string) : result string ReadResourceResult :=
  if String.eqb uri "notes://all" then Ok (single uri summary_text)
  else
    match match_note_uri uri with
    | Some digits =>
        let wanted := parseInt digits in
        match find (fun n => PrimFloat.eqb (id n) wanted) notesStore with
        | Some note => Ok (single uri (note_text note))
        | None => Throw ("Note with ID " ++ Number_toString wanted ++ " not found")
        end
    | None => Throw ("Unknown resource URI: " ++ uri)
    end.

End Notes.

(** ** src/prompts/templates.ts *)

Module Prompts.

Definition lines (ls : list string) : string := join Loop.newline ls.

Definition quote : string := String (ascii_of_nat 34) EmptyString.

(** A declared argument of a prompt, and a prompt as [prompts/list]
    returns it. *)
Record PromptArgument : Type := mkArgument {
  argument_name : string;
  argument_description : string;
  argument_required : bool
}.

Record Prompt : Type := mkPrompt {
  prompt_name : string;
  prompt_description : string;
  prompt_arguments : list PromptArgument
}.

(** [{ role, content: { type, text } }]. *)
Record PromptMessage : Type := mkMessage {
  role : string;
  message_type : string;
  message_text : string
}.

Record GetPromptResult : Type := mkGetPromptResult {
  messages : list PromptMessage
}.

Definition user_message (text : string) : GetPromptResult :=
  mkGetPromptResult [mkMessage "user" "text" text].

(** *** Prompt 1: code-review *)

Definition codeReviewPromptDef : Prompt :=
  mkPrompt "code-review"
    "Generate a structured code review prompt for a given language and code snippet."
    [ mkArgument "language" "Programming language (e.g. TypeScript, Python, Go)" true;
      mkArgument "focus"
        "Review focus area: security | performance | readability | all" false ].

Inductive Focus : Type := security | performance | readability | all.

Definition focus_name (f : Focus) : string :=
  match f with
  | security => "security"
  | performance => "performance"
  | readability => "readability"
  | all => "all"
  end.

Record CodeReviewArgs : Type := mkCodeReviewArgs {
  language : string;
  focus : Focus
}.

Definition CodeReviewArgsSchema : Schema CodeReviewArgs :=
  object (fun o path =>
    match both (field o path "language" (string_min 1))
               (field o path "focus"
                  (default (enum [ ("security", security); ("performance", performance);
                                   ("readability", readability); ("all", all) ])
                     (VStr "all"))) with
    | inl (l, f) => inl (mkCodeReviewArgs l f)
    | inr issues => inr issues
    end).

Definition focusInstructions (f : Focus) : string :=
  match f with
  | all =>
      lines [ "- Check for bugs and logical errors";
              "- Evaluate security vulnerabilities";
              "- Assess performance implications";
              "- Review code readability and style" ]
  | security =>
      lines [ "- Identify injection vulnerabilities";
              "- Check for improper authentication/authorization";
              "- Look for data exposure risks";
              "- Assess input validation" ]
  | performance =>
      lines [ "- Identify bottlenecks and O(n²) or worse algorithms";
              "- Check for unnecessary re-renders or recomputations";
              "- Assess memory usage patterns";
              "- Look for missing caching opportunities" ]
  | readability =>
      lines [ "- Evaluate variable and function naming";
              "- Check for code duplication (DRY principle)";
              "- Assess modularity and single responsibility";
              "- Review comments and documentation" ]
  end.

Definition code_review_text (args : CodeReviewArgs) : string :=
  lines
    [ "You are an expert " ++ language args
      ++ " code reviewer. Please review the code I provide with a focus on "
      ++ focus_name (focus args) ++ ".";
      "";
      "For your review, please:";
      focusInstructions (focus args);
      "";
      "Structure your response as:";
      "1. **Summary** — overall assessment (1-2 sentences)";
      "2. **Issues Found** — list each issue with severity (🔴 critical / 🟡 warning / 🟢 suggestion)";
      "3. **Code Examples** — show fixed code where applicable";
      "4. **Positive Highlights** — what's done well";
      "";
      "Please wait for me to share the code." ].

Definition handleCodeReviewPrompt `{Runtime} (args : value) : result McpError GetPromptResult :=
  match CodeReviewArgsSchema [] args with
  | inr issues =>
      Throw (mkMcpError InvalidParams
               ("Invalid prompt arguments: " ++ ZodError_message issues))
  | inl parsed => Ok (user_message (code_review_text parsed))
  end.

(** *** Prompt 2: explain-concept *)

Definition explainConceptPromptDef : Prompt :=
  mkPrompt "explain-concept"
    "Generate a prompt asking the AI to explain a technical concept at a specific level."
    [ mkArgument "concept" "The technical concept to explain (e.g. 'MCP Resources')" true;
      mkArgument "level" "Explanation level: beginner | intermediate | expert" false ].

Inductive Level : Type := beginner | intermediate | expert.

Definition level_name (l : Level) : string :=
  match l with
  | beginner => "beginner"
  | intermediate => "intermediate"
  | expert => "expert"
  end.

Record ExplainConceptArgs : Type := mkExplainConceptArgs {
  concept : string;
  level : Level
}.

Definition ExplainConceptArgsSchema : Schema ExplainConceptArgs :=
  object (fun o path =>
    match both (field o path "concept" (string_min 1))
               (field o path "level"
                  (default (enum [ ("beginner", beginner); ("intermediate", intermediate);
                                   ("expert", expert) ])
                     (VStr "beginner"))) with
    | inl (c, l) => inl (mkExplainConceptArgs c l)
    | inr issues => inr issues
    end).

Definition audienceDesc (l : Level) : string :=
  match l with
  | beginner => "someone completely new to programming"
  | intermediate => "a developer with 1-3 years of experience"
  | expert => "a senior engineer"
  end.

Definition explanation_points (l : Level) : string :=
  match l with
  | beginner =>
      lines [ "- Use simple analogies from everyday life";
              "- Avoid jargon (or define it when necessary)";
              "- Include a simple code example if applicable";
              "- Keep it under 300 words" ]
  | intermediate =>
      lines [ "- Connect it to concepts the reader likely already knows";
              "- Include a practical code example";
              "- Mention common pitfalls";
              "- Around 400 words" ]
  | expert =>
      lines [ "- Dive into implementation details and trade-offs";
              "- Compare with alternative approaches";
              "- Discuss edge cases and performance implications";
              "- Include advanced usage patterns" ]
  end.

Definition explain_concept_text (args : ExplainConceptArgs) : string :=
  lines
    [ "Explain " ++ quote ++ concept args ++ quote ++ " to " ++ audienceDesc (level args) ++ ".";
      "";
      "Your explanation should:";
      explanation_points (level args) ].

Definition handleExplainConceptPrompt `{Runtime} (args : value)
    : result McpError GetPromptResult :=
  match ExplainConceptArgsSchema [] args with
  | inr issues =>
      Throw (mkMcpError InvalidParams
               ("Invalid prompt arguments: " ++ ZodError_message issues))
  | inl parsed => Ok (user_message (explain_concept_text parsed))
  end.

End Prompts.

(** ** src/index.ts: the resource and prompt handlers *)

Module Handlers.

(** What a handler throws: an [McpError], or a plain [Error] with its
    message. *)
Inductive Exception : Type :=
| Mcp (e : McpError)
| PlainError (message : string).

(** [resources/list]. *)
Definition listResources `{Runtime} : list Notes.Resource :=
  Notes.mkResource "notes://all" "All Notes" "A summary list of all learning notes"
    "text/plain"
  :: Notes.getNotesResourceList.

(** [resources/read]. *)
Definition readResource `{Runtime} (uri : string) : result Exception Notes.ReadResourceResult :=
  if String.prefix "notes://" uri then
    match Notes.readNoteResource uri with
    | Ok r => Ok r
    | Throw message => Throw (PlainError message)
    end
  else Throw (Mcp (mkMcpError InvalidRequest ("Unknown resource URI: " ++ uri))).

(** [prompts/list]. *)
Definition listPrompts : list Prompts.Prompt :=
  [Prompts.codeReviewPromptDef; Prompts.explainConceptPromptDef].

(** [prompts/get]; [args] is [request.params.arguments], which defaults to
    the empty object. *)
Definition getPrompt `{Runtime} (name : string) (args : value)
    : result McpError Prompts.GetPromptResult :=
  let args := match args with VUndefined => VObj [] | _ => args end in
  if String.eqb name "code-review" then Prompts.handleCodeReviewPrompt args
  else if String.eqb name "explain-concept" then Prompts.handleExplainConceptPrompt args
  else Throw (mkMcpError MethodNotFound ("Unknown prompt: " ++ name)).

(** The lines the two handlers write to stderr. *)
Definition resource_log_line (uri : string) : string :=
  "[resource:read] uri=" ++ uri ++ Loop.newline.

Definition prompt_log_line (name : string) : string :=
  "[prompt:get] name=" ++ name ++ Loop.newline.

End Handlers.

(** ** src/client/index.ts: the terminal chat *)

Module Session.

(** What the chat does to the outside: a question put to the terminal,
    an event of a turn, and the two closings of [exit]. *)
Inductive Event : Type :=
| Question (prompt : string)
| Client (e : Loop.Event)
| CloseClient
| CloseReadline.

(** How the chat stands when the lines typed so far are used up: closed by
    [exit], waiting for the next line, out of fuel inside a turn, or left
    by an exception that escaped the callback of [rl.question]. *)
Inductive status : Type :=
| Closed
| Waiting
| OutOfFuel
| Escaped (err : string).

Section Chat.

Context {R : Runtime}.

(** [String.prototype.trim]. *)
Variable String_trim : string -> string.

Variable World : Type.
Variable sendMessage : Loop.Request -> World -> result string Loop.Response * World.
Variable callTool : string -> value -> World -> result string CallToolResult * World.

Definition prompt : string := Loop.newline ++ "You: ".

Definition goodbye : string := Loop.newline ++ "👋 Goodbye!".

Definition is_exit (userInput : string) : bool :=
  String.eqb (String_toLowerCase (String_trim userInput)) "exit".

Definition is_blank (userInput : string) : bool :=
  String.eqb (String_trim userInput) "".

(** [askQuestion], over the lines the user types; each turn has [fuel]
    rounds.  [mcpClient.close()] is taken to return. *)
Fixpoint askQuestion (fuel : nat) (inputs : list string) (w : World)
    : list Event * World * status :=
  match inputs with
  | [] => ([Question prompt], w, Waiting)
  | userInput :: rest =>
      if is_exit userInput then
        ([Question prompt; Client (Loop.ConsoleLog goodbye); CloseClient; CloseReadline],
         w, Closed)
      else if is_blank userInput then
        match askQuestion fuel rest w with
        | (evs, w', st) => (Question prompt :: evs, w', st)
        end
      else
        match Loop.turn sendMessage callTool fuel userInput w with
        | (evs, w', Loop.Returned _) =>
            match askQuestion fuel rest w' with
            | (evs', w'', st) =>
                (Question prompt :: List.map Client evs ++ evs', w'', st)%list
            end
        | (evs, w', Loop.Thrown err) =>
            ((Question prompt :: List.map Client evs)%list, w', Escaped err)
        | (evs, w', Loop.OutOfFuel) =>
            ((Question prompt :: List.map Client evs)%list, w', OutOfFuel)
        end
  end.

(** The lines that become turns: those before the first [exit] that are
    not blank. *)
Fixpoint turns (inputs : list string) : list string :=
  match inputs with
  | [] => []
  | userInput :: rest =>
      if is_exit userInput then []
      else if is_blank userInput then turns rest
      else userInput :: turns rest
  end.

End Chat.

(** Projections of a trace of the chat. *)
Definition user_messages (evs : list Event) : list string :=
  flat_map
    (fun e =>
       match e with
       | Client (Loop.SendMessage (Loop.UserMessage userInput)) => [userInput]
       | _ => []
       end)
    evs.

Definition questions (evs : list Event) : nat :=
  length (filter (fun e => match e with Question _ => true | _ => false end) evs).

End Session.

(** The names a batch of results answers, over the messages of a turn. *)
Definition answered (requests : list Loop.Request) : list string :=
  flat_map
    (fun r =>
       match r with
       | Loop.ToolResults toolResults => List.map Loop.response_name toolResults
       | Loop.UserMessage _ => []
       end)
    requests.

(** ** A concrete runtime *)

(** Hypotheses on the runtime are met by this one: it prints the natural
    numbers in decimal and renders a zod error with the paths of its
    issues; it leaves the case of a text as it is. *)
Module Witness.

Definition Number_toString (x : float) : string :=
  match index_of x with
  | Some n => NilZero.string_of_uint (Nat.to_uint n)
  | None => "NaN"
  end.

Definition code_name (c : ZodIssueCode) : string :=
  match c with
  | invalid_type => "invalid_type"
  | invalid_enum_value => "invalid_enum_value"
  | too_small => "too_small"
  end.

(** An issue as a JSON object with its code and its path, and an error as
    the JSON array of its issues. *)
Definition issue_text (i : ZodIssue) : string :=
  "{ " ++ Taxonomy.quoted "code" ++ ": " ++ Taxonomy.quoted (code_name (issue_code i))
  ++ ", " ++ Taxonomy.quoted "path" ++ ": ["
  ++ join ", " (List.map Taxonomy.quoted (issue_path i)) ++ "] }".

Definition ZodError_message (issues : list ZodIssue) : string :=
  "[" ++ join ", " (List.map issue_text issues) ++ "]".

Definition runtime : Runtime :=
  Build_Runtime Number_toString (fun s => s) (fun s => s) (fun _ _ => "null")
    ZodError_message.

End Witness.

(* ================================================================== *)
(** * Part II.  Properties                                             *)
(* ================================================================== *)

Import Declared Taxonomy Scenarios.

Unset Implicit Arguments.

(** ** Scenarios of the calculator *)

Example multiply_25_4_computes :
  Calculator.compute (Calculator.mkInput Calculator.multiply 25 4) = Ok 100%float.
Proof. reflexivity. Qed.

Example add_parses :
  Calculator.CalculatorInputSchema [] (calculator_args "add" (VNum 1) (VNum 2))
  = inl (Calculator.mkInput Calculator.add 1 2).
Proof. reflexivity. Qed.

Example extra_keys_are_dropped :
  Calculator.CalculatorInputSchema []
    (VObj [("note", VNull); ("b", VNum 2); ("a", VNum 1); ("operation", VStr "add")])
  = inl (Calculator.mkInput Calculator.add 1 2).
Proof. reflexivity. Qed.

Example all_issues_are_collected :
  Calculator.CalculatorInputSchema [] (VObj [])
  = inr [ mkIssue invalid_type ["operation"]; mkIssue invalid_type ["a"];
          mkIssue invalid_type ["b"] ].
Proof. reflexivity. Qed.

Example undefined_arguments_are_rejected :
  Calculator.CalculatorInputSchema [] VUndefined = inr [mkIssue invalid_type []].
Proof. reflexivity. Qed.

(** C9.  Invoking the calculator with operation multiply, a = 25 and b = 4
    succeeds, and the text it returns ends with the runtime's rendering of
    the number 100: the text is "25 multiply 4 = 100" up to how the runtime
    prints the three numbers. *)
Theorem calculator_multiply_25_4 :
  forall (R : Runtime) (env : Weather.Env),
    invokeTool env "calculator" (calculator_args "multiply" (VNum 25) (VNum 4))
    = Ok (text_result
            (Number_toString 25 ++ " multiply " ++ Number_toString 4
             ++ " = " ++ Number_toString (25 * 4)%float))
    /\ (25 * 4 = 100)%float.
Proof.
  intros R env. split; reflexivity.
Qed.

(** ** Division by zero *)

Lemma divide_by_zero_throws :
  forall (R : Runtime) (env : Weather.Env),
    invokeTool env "calculator" divide_1_0
    = Throw (mkMcpError InvalidParams "Cannot divide by zero").
Proof. intros; reflexivity. Qed.

Lemma add_x_2_throws :
  forall (R : Runtime) (env : Weather.Env),
    invokeTool env "calculator" add_x_2
    = Throw (mkMcpError InvalidParams
               ("Invalid input: " ++ ZodError_message [mkIssue invalid_type ["a"]])).
Proof. intros; reflexivity. Qed.

(** Negative zero is zero for [===]: dividing by it is refused too. *)
Example divide_by_negative_zero_throws :
  forall (R : Runtime) (env : Weather.Env),
    invokeTool env "calculator" (calculator_args "divide" (VNum 1) (VNum (-0)))
    = Throw (mkMcpError InvalidParams "Cannot divide by zero").
Proof. intros; reflexivity. Qed.

(** C3, as the code has it.  Dividing 1 by 0 does not crash the dispatcher:
    the handler's reply is a thrown [McpError] whose message is "Cannot
    divide by zero".  Its code is [InvalidParams], the code of a schema
    validation failure; the message, which does not start with "Invalid
    input: ", is what tells the two apart. *)
Theorem calculator_divide_by_zero :
  forall (R : Runtime) (env : Weather.Env),
    exists e : McpError,
      invokeTool env "calculator" divide_1_0 = Throw e
      /\ message e = "Cannot divide by zero"
      /\ code e = InvalidParams
      /\ (forall issues, message e <> "Invalid input: " ++ ZodError_message issues).
Proof.
  intros R env.
  exists (mkMcpError InvalidParams "Cannot divide by zero").
  repeat split.
  intros issues. simpl. discriminate.
Qed.

(** C3, as stated, fails: the error for dividing by zero is of the kind
    [InvalidInput], the same as the error for an ill-typed argument. *)
Lemma divide_by_zero_is_InvalidInput :
  exists c : ErrorCode,
    c = InvalidParams
    /\ forall (R : Runtime) (env : Weather.Env),
         exists e e' : McpError,
           invokeTool env "calculator" divide_1_0 = Throw e
           /\ invokeTool env "calculator" add_x_2 = Throw e'
           /\ InvalidInput e /\ InvalidInput e' /\ code e = c /\ code e' = c.
Proof.
  exists InvalidParams. split; [reflexivity|].
  intros R env.
  eexists; eexists.
  split; [apply divide_by_zero_throws|].
  split; [apply add_x_2_throws|].
  repeat split.
Qed.

(** ** Unknown tools *)

Example registered_names_are :
  registered_names = ["calculator"; "get_weather"].
Proof. reflexivity. Qed.

Lemma route_unregistered :
  forall name : string, ~ In name registered_names -> route name = None.
Proof.
  intros name Hnot. unfold route.
  destruct (String.eqb_spec name "calculator") as [->|_].
  - exfalso. apply Hnot. simpl. auto.
  - destruct (String.eqb_spec name "get_weather") as [->|_].
    + exfalso. apply Hnot. simpl. auto.
    + reflexivity.
Qed.

Lemma route_registered :
  forall name : string, In name registered_names -> exists h, route name = Some h.
Proof.
  intros name [<-|[<-|[]]]; eexists; reflexivity.
Qed.

Lemma carries_suffix :
  forall prefix part : string, carries (prefix ++ part) part.
Proof.
  intros prefix part. exists prefix, "".
  induction prefix as [|c prefix IH]; simpl.
  - induction part as [|c part IHp]; simpl; [reflexivity|]. now rewrite <- IHp.
  - simpl in IH. now rewrite <- IH.
Qed.

(** C6.  For every name outside the registry the switch takes its default
    case, so no handler is run, and the reply is a thrown [McpError] of
    kind [NotFound] whose message is "Unknown tool: " followed by that very
    name. *)
Theorem unknown_tool_not_found :
  forall (R : Runtime) (env : Weather.Env) (name : string) (args : value),
    ~ In name registered_names ->
    route name = None
    /\ invokeTool env name args = Throw (mkMcpError MethodNotFound ("Unknown tool: " ++ name))
    /\ NotFound (mkMcpError MethodNotFound ("Unknown tool: " ++ name))
    /\ carries ("Unknown tool: " ++ name) name.
Proof.
  intros R env name args Hnot.
  pose proof (route_unregistered name Hnot) as Hroute.
  split; [exact Hroute|].
  split; [unfold invokeTool; now rewrite Hroute|].
  split; [reflexivity|].
  apply carries_suffix.
Qed.

Lemma unknown_tool_not_found_witness :
  ~ In "calculater" registered_names
  /\ forall (R : Runtime) (env : Weather.Env),
       route "calculater" = None
       /\ invokeTool env "calculater" (VObj [])
          = Throw (mkMcpError MethodNotFound "Unknown tool: calculater")
       /\ NotFound (mkMcpError MethodNotFound "Unknown tool: calculater")
       /\ carries "Unknown tool: calculater" "calculater".
Proof.
  assert (Hnot : ~ In "calculater" registered_names).
  { simpl. intros [H|[H|[]]]; discriminate H. }
  split; [exact Hnot|].
  intros R env.
  exact (unknown_tool_not_found R env "calculater" (VObj []) Hnot).
Defined.

(** ** Schema validation *)

Lemma both_has_issue_l :
  forall (A B : Type) (ra : SafeParse A) (rb : SafeParse B) p,
    has_issue ra p -> has_issue (both ra rb) p.
Proof.
  intros A B ra rb p (ia & i & -> & Hin & Hp).
  destruct rb as [b|ib]; simpl.
  - exists ia, i. auto.
  - exists (ia ++ ib)%list, i. repeat split; auto. apply in_or_app; auto.
Qed.

Lemma both_has_issue_r :
  forall (A B : Type) (ra : SafeParse A) (rb : SafeParse B) p,
    has_issue rb p -> has_issue (both ra rb) p.
Proof.
  intros A B ra rb p (ib & i & -> & Hin & Hp).
  destruct ra as [a|ia]; simpl.
  - exists ib, i. auto.
  - exists (ia ++ ib)%list, i. repeat split; auto. apply in_or_app; auto.
Qed.

Lemma number_rejects :
  forall path v, (forall x, v <> VNum x) -> has_issue (number path v) path.
Proof.
  intros path v Hv. exists [mkIssue invalid_type path], (mkIssue invalid_type path).
  destruct v; simpl; auto. now destruct (Hv x).
Qed.

Lemma string_min_rejects :
  forall n path v, (forall s, v <> VStr s) -> has_issue (string_min n path v) path.
Proof.
  intros n path v Hv. exists [mkIssue invalid_type path], (mkIssue invalid_type path).
  destruct v; simpl; auto. now destruct (Hv s).
Qed.

Lemma enum_rejects :
  forall (A : Type) (options : list (string * A)) path v,
    (forall s, v = VStr s -> assoc s options = None) ->
    has_issue (enum options path v) path.
Proof.
  intros A options path v Hv.
  destruct v; simpl;
    try (exists [mkIssue invalid_type path], (mkIssue invalid_type path); simpl; now auto).
  rewrite (Hv s eq_refl).
  exists [mkIssue invalid_enum_value path], (mkIssue invalid_enum_value path); simpl; auto.
Qed.

Lemma is_json_field :
  forall (args : list (string * value)) f v,
    is_json (VObj args) = true -> assoc f args = Some v -> is_json v = true.
Proof.
  intros args f v. simpl. induction args as [|[k x] args IH]; simpl; [discriminate|].
  intros Hall Hf. apply andb_prop in Hall as [Hx Hrest].
  destruct (String.eqb f k).
  - now inversion Hf; subst.
  - now apply IH.
Qed.

Lemma prop_absent :
  forall (args : list (string * value)) f, assoc f args = None -> prop args f = VUndefined.
Proof. intros args f Hf. unfold prop. now rewrite Hf. Qed.

Lemma prop_present :
  forall (args : list (string * value)) f v, assoc f args = Some v -> prop args f = v.
Proof. intros args f v Hf. unfold prop. now rewrite Hf. Qed.

(** Case analysis on a field name against the literal keys of a schema. *)
Ltac case_key f k :=
  let E := fresh "E" in
  destruct (String.eqb_spec f k) as [E|E]; [subst f|].

(** Evaluate the declared check of a field in hypothesis [H]. *)
Ltac check_field H :=
  unfold field_ok, has_type, in_enum, mem in H; cbn in H.

(** A string outside a declared enum matches no option of the zod enum. *)
Ltac enum_cases s H :=
  check_field H; cbn;
  repeat match goal with
         | |- context [String.eqb s ?k] => destruct (String.eqb s k)
         end;
  solve [reflexivity | discriminate H].

(** A violation of the declared calculator schema is an issue of the zod
    schema at the same field. *)
Lemma calculator_schema_rejects :
  forall (args : list (string * value)) (f : string),
    violates (Mcp.inputSchema Calculator.calculatorToolDefinition) args f = true ->
    has_issue (Calculator.CalculatorInputSchema [] (VObj args)) [f].
Proof.
  intros args f Hv.
  assert (Hfields :
    has_issue
      (both (field args [] "operation"
               (enum [("add", Calculator.add); ("subtract", Calculator.subtract);
                      ("multiply", Calculator.multiply); ("divide", Calculator.divide)]))
            (both (field args [] "a" number) (field args [] "b" number))) [f]).
  { unfold violates in Hv. simpl in Hv.
    destruct (assoc f args) as [v|] eqn:Hf.
    - case_key f "operation".
      + apply both_has_issue_l. unfold field. rewrite (prop_present _ _ _ Hf).
        apply enum_rejects. intros s ->. enum_cases s Hv.
      + case_key f "a".
        * apply both_has_issue_r, both_has_issue_l. unfold field.
          rewrite (prop_present _ _ _ Hf). apply number_rejects.
          intros x ->. now check_field Hv.
        * case_key f "b"; [|discriminate Hv].
          apply both_has_issue_r, both_has_issue_r. unfold field.
          rewrite (prop_present _ _ _ Hf). apply number_rejects.
          intros x ->. now check_field Hv.
    - unfold mem in Hv. simpl in Hv.
      case_key f "operation".
      + apply both_has_issue_l. unfold field. rewrite (prop_absent _ _ Hf).
        apply enum_rejects. discriminate.
      + case_key f "a".
        * apply both_has_issue_r, both_has_issue_l. unfold field.
          rewrite (prop_absent _ _ Hf). apply number_rejects. discriminate.
        * case_key f "b"; [|discriminate Hv].
          apply both_has_issue_r, both_has_issue_r. unfold field.
          rewrite (prop_absent _ _ Hf). apply number_rejects. discriminate. }
  destruct Hfields as (issues & i & Heq & Hin & Hp).
  exists issues, i. repeat split; auto.
  unfold Calculator.CalculatorInputSchema, object. now rewrite Heq.
Qed.

(** The same for get_weather, on arguments that JSON can carry. *)
Lemma weather_schema_rejects :
  forall (args : list (string * value)) (f : string),
    is_json (VObj args) = true ->
    violates (Mcp.inputSchema Weather.weatherToolDefinition) args f = true ->
    has_issue (Weather.WeatherInputSchema [] (VObj args)) [f].
Proof.
  intros args f Hjson Hv.
  assert (Hfields :
    has_issue
      (both (field args [] "city" (string_min 1))
            (field args [] "unit"
               (default (enum [("celsius", Weather.celsius); ("fahrenheit", Weather.fahrenheit)])
                  (VStr "celsius")))) [f]).
  { unfold violates in Hv. simpl in Hv.
    destruct (assoc f args) as [v|] eqn:Hf.
    - pose proof (is_json_field _ _ _ Hjson Hf) as Hjv.
      case_key f "city".
      + apply both_has_issue_l. unfold field. rewrite (prop_present _ _ _ Hf).
        apply string_min_rejects. intros s ->. now check_field Hv.
      + case_key f "unit"; [|discriminate Hv].
        apply both_has_issue_r. unfold field. rewrite (prop_present _ _ _ Hf).
        assert (Hdef : forall path,
          default (enum [("celsius", Weather.celsius); ("fahrenheit", Weather.fahrenheit)])
            (VStr "celsius") path v
          = enum [("celsius", Weather.celsius); ("fahrenheit", Weather.fahrenheit)] path v).
        { intros path. destruct v; try reflexivity. discriminate Hjv. }
        rewrite Hdef. apply enum_rejects. intros s ->. enum_cases s Hv.
    - unfold mem in Hv. simpl in Hv.
      case_key f "city"; [|discriminate Hv].
      apply both_has_issue_l. unfold field. rewrite (prop_absent _ _ Hf).
      apply string_min_rejects. discriminate. }
  destruct Hfields as (issues & i & Heq & Hin & Hp).
  exists issues, i. repeat split; auto.
  unfold Weather.WeatherInputSchema, object. now rewrite Heq.
Qed.

(** A violation makes the handler throw its validation error. *)
Lemma violation_throws :
  forall (R : Runtime) (env : Weather.Env) (tool : Tool)
         (args : list (string * value)) (f : string),
    In tool listTools ->
    is_json (VObj args) = true ->
    violates (Mcp.inputSchema tool) args f = true ->
    exists (issues : list ZodIssue) (i : ZodIssue),
      invokeTool env (Mcp.name tool) (VObj args)
      = Throw (mkMcpError InvalidParams ("Invalid input: " ++ ZodError_message issues))
      /\ In i issues
      /\ issue_path i = [f].
Proof.
  intros R env tool args f Htool Hjson Hv.
  destruct Htool as [<-|[<-|[]]].
  - destruct (calculator_schema_rejects _ _ Hv) as (issues & i & Heq & Hin & Hp).
    exists issues, i. repeat split; auto.
    change (Calculator.handleCalculator (VObj args) = Throw
              (mkMcpError InvalidParams ("Invalid input: " ++ ZodError_message issues))).
    unfold Calculator.handleCalculator. now rewrite Heq.
  - destruct (weather_schema_rejects _ _ Hjson Hv) as (issues & i & Heq & Hin & Hp).
    exists issues, i. repeat split; auto.
    change (Weather.handleGetWeather env (VObj args) = Throw
              (mkMcpError InvalidParams ("Invalid input: " ++ ZodError_message issues))).
    unfold Weather.handleGetWeather. now rewrite Heq.
Qed.

(** ** Arguments that satisfy the declared schema *)

Lemma assoc_in_keys :
  forall (A : Type) (o : list (string * A)) k a,
    assoc k o = Some a -> In k (List.map fst o).
Proof.
  intros A o k a. induction o as [|[k' a'] o IH]; simpl; [discriminate|].
  destruct (String.eqb_spec k k') as [->|_]; auto.
Qed.

Lemma mem_in :
  forall k ks, mem k ks = true -> In k ks.
Proof.
  intros k ks Hm. unfold mem in Hm. apply existsb_exists in Hm as (x & Hin & Heq).
  apply String.eqb_eq in Heq. now subst.
Qed.

Lemma violates_declared :
  forall schema args f,
    violates schema args f = true ->
    In f (declared_required schema ++ List.map fst (declared_properties schema))%list.
Proof.
  intros schema args f Hv. unfold violates in Hv. apply in_or_app.
  destruct (assoc f args).
  - right. destruct (assoc f (declared_properties schema)) eqn:Hp; [|discriminate].
    eapply assoc_in_keys; eauto.
  - left. now apply mem_in.
Qed.

Lemma satisfies_no_violation :
  forall schema args,
    satisfies schema args = true -> forall f, violates schema args f = false.
Proof.
  intros schema args Hs f.
  destruct (violates schema args f) eqn:Hv; [|reflexivity].
  unfold satisfies in Hs. rewrite forallb_forall in Hs.
  specialize (Hs f (violates_declared _ _ _ Hv)). rewrite Hv in Hs. discriminate.
Qed.

(** *** The message of a validation error *)

Lemma carries_after_prefix :
  forall prefix msg part : string, carries msg part -> carries (prefix ++ msg) part.
Proof.
  intros prefix msg part (before & after & ->).
  exists (prefix ++ before), after.
  induction prefix as [|c prefix IH]; simpl; [reflexivity|]. now rewrite IH.
Qed.

Lemma string_app_assoc :
  forall s1 s2 s3 : string, (s1 ++ s2) ++ s3 = s1 ++ s2 ++ s3.
Proof.
  induction s1 as [|c s1 IH]; intros s2 s3; simpl; [reflexivity|]. now rewrite IH.
Qed.

Lemma carries_before_suffix :
  forall msg suffix part : string, carries msg part -> carries (msg ++ suffix) part.
Proof.
  intros msg suffix part (before & after & ->).
  exists before, (after ++ suffix). now rewrite !string_app_assoc.
Qed.

Lemma carries_itself : forall part : string, carries part part.
Proof.
  intros part. exists "", "". simpl.
  induction part as [|c part IH]; simpl; [reflexivity|]. now rewrite <- IH.
Qed.

Lemma carries_join :
  forall (sep : string) (xs : list string) (x part : string),
    In x xs -> carries x part -> carries (join sep xs) part.
Proof.
  intros sep xs x part. induction xs as [|y ys IH]; intros Hin Hx; [destruct Hin|].
  destruct ys as [|z zs].
  - destruct Hin as [->|[]]. exact Hx.
  - change (join sep (y :: z :: zs)) with (y ++ sep ++ join sep (z :: zs)).
    destruct Hin as [->|Hin].
    + now apply carries_before_suffix.
    + apply carries_after_prefix, carries_after_prefix. now apply IH.
Qed.

(** The rendering of the concrete runtime shows the paths. *)
Lemma concrete_runtime_shows_paths : shows_paths Witness.runtime.
Proof.
  intros issues i k Hi Hk _.
  change (carries (Witness.ZodError_message issues) (quoted k)).
  unfold Witness.ZodError_message.
  apply carries_after_prefix, carries_before_suffix.
  apply (carries_join ", " _ (Witness.issue_text i)); [now apply in_map|].
  unfold Witness.issue_text.
  do 7 apply carries_after_prefix. apply carries_before_suffix.
  apply (carries_join ", " _ (quoted k)); [now apply in_map|apply carries_itself].
Qed.

(** A field that violates the schema of a registered tool is one of its
    declared fields, all of them words. *)
Lemma violated_field_is_word :
  forall (tool : Tool) (args : list (string * value)) (f : string),
    In tool listTools ->
    violates (Mcp.inputSchema tool) args f = true ->
    is_word f = true.
Proof.
  intros tool args f [<-|[<-|[]]] Hv; apply violates_declared in Hv; simpl in Hv;
    repeat (destruct Hv as [<-|Hv]; [reflexivity|]); destruct Hv.
Qed.

(** C5.  Whenever a field of a JSON argument mapping violates the declared
    input schema of a registered tool (required and missing, wrongly typed,
    or outside its enum), [invokeTool] throws an error of kind
    [InvalidInput] whose message is "Invalid input: " followed by the
    message of a zod error that has an issue at the path of that field;
    and the message names the field, between double quotes, on every
    runtime whose rendering of a zod error shows the paths of the issues,
    as the JSON text that zod produces does. *)
Theorem violation_is_invalid_input :
  forall (R : Runtime) (env : Weather.Env) (tool : Tool)
         (args : list (string * value)) (f : string),
    In tool listTools ->
    is_json (VObj args) = true ->
    violates (Mcp.inputSchema tool) args f = true ->
    exists (issues : list ZodIssue) (i : ZodIssue),
      invokeTool env (Mcp.name tool) (VObj args)
      = Throw (mkMcpError InvalidParams ("Invalid input: " ++ ZodError_message issues))
      /\ InvalidInput (mkMcpError InvalidParams ("Invalid input: " ++ ZodError_message issues))
      /\ In i issues
      /\ issue_path i = [f]
      /\ (shows_paths R -> names ("Invalid input: " ++ ZodError_message issues) f).
Proof.
  intros R env tool args f Htool Hjson Hv.
  destruct (violation_throws R env tool args f Htool Hjson Hv)
    as (issues & i & Hthrow & Hin & Hpath).
  exists issues, i.
  split; [exact Hthrow|]. split; [reflexivity|]. split; [exact Hin|].
  split; [exact Hpath|].
  intros Hshows. apply carries_after_prefix.
  apply (Hshows issues i f Hin).
  - rewrite Hpath. now left.
  - exact (violated_field_is_word tool args f Htool Hv).
Qed.

(** The scenario of C5: operation add with a = "x" and b = 2 is refused with
    a single issue, at field a, and on the concrete runtime the message
    names a. *)
Lemma violation_is_invalid_input_witness :
  In Calculator.calculatorToolDefinition listTools
  /\ is_json add_x_2 = true
  /\ violates (Mcp.inputSchema Calculator.calculatorToolDefinition)
       [("operation", VStr "add"); ("a", VStr "x"); ("b", VNum 2)] "a" = true
  /\ shows_paths Witness.runtime
  /\ (forall (R : Runtime) (env : Weather.Env),
        invokeTool env "calculator" add_x_2
        = Throw (mkMcpError InvalidParams
                   ("Invalid input: " ++ ZodError_message [mkIssue invalid_type ["a"]])))
  /\ forall env : Weather.Env,
       exists (issues : list ZodIssue) (i : ZodIssue),
         @invokeTool Witness.runtime env "calculator" add_x_2
         = Throw (mkMcpError InvalidParams
                    ("Invalid input: " ++ Witness.ZodError_message issues))
         /\ In i issues
         /\ issue_path i = ["a"]
         /\ names ("Invalid input: " ++ Witness.ZodError_message issues) "a".
Proof.
  assert (Htool : In Calculator.calculatorToolDefinition listTools) by (simpl; auto).
  assert (Hjson : is_json add_x_2 = true) by reflexivity.
  assert (Hv : violates (Mcp.inputSchema Calculator.calculatorToolDefinition)
                 [("operation", VStr "add"); ("a", VStr "x"); ("b", VNum 2)] "a" = true)
    by reflexivity.
  split; [exact Htool|]. split; [exact Hjson|]. split; [exact Hv|].
  split; [exact concrete_runtime_shows_paths|].
  split; [intros R env; reflexivity|].
  intros env.
  destruct (violation_is_invalid_input Witness.runtime env
              Calculator.calculatorToolDefinition
              [("operation", VStr "add"); ("a", VStr "x"); ("b", VNum 2)] "a"
              Htool Hjson Hv)
    as (issues & i & Hthrow & _ & Hin & Hpath & Hnames).
  exists issues, i. split; [exact Hthrow|]. split; [exact Hin|]. split; [exact Hpath|].
  exact (Hnames concrete_runtime_shows_paths).
Defined.

(** On the concrete runtime, the message for a missing b. *)
Example missing_b_is_named :
  forall env : Weather.Env,
    @invokeTool Witness.runtime env "calculator"
      (VObj [("operation", VStr "add"); ("a", VNum 1)])
    = Throw (mkMcpError InvalidParams
               ("Invalid input: [{ " ++ quoted "code" ++ ": " ++ quoted "invalid_type"
                ++ ", " ++ quoted "path" ++ ": [" ++ quoted "b" ++ "] }]")).
Proof. reflexivity. Qed.


Lemma is_finite_not_nan :
  forall x, is_finite x = true -> PrimFloat.is_nan x = false.
Proof.
  intros x Hx. unfold is_finite in Hx. apply andb_prop in Hx as [Hn _].
  now destruct (PrimFloat.is_nan x).
Qed.

(** A required field of kind number that does not violate the schema is
    read as a number by [z.number()]. *)
Lemma number_field_accepts :
  forall schema args f descr,
    is_json (VObj args) = true ->
    mem f (declared_required schema) = true ->
    assoc f (declared_properties schema) = Some (Mcp.mkProperty "number" descr None) ->
    violates schema args f = false ->
    exists x, field args [] f number = inl x.
Proof.
  intros schema args f descr Hjson Hreq Hprop Hv.
  unfold violates in Hv. rewrite Hreq, Hprop in Hv.
  destruct (assoc f args) as [v|] eqn:Hf; [|discriminate].
  pose proof (is_json_field _ _ _ Hjson Hf) as Hjv.
  unfold field. rewrite (prop_present _ _ _ Hf).
  destruct v; try (check_field Hv; discriminate).
  exists x. simpl. simpl in Hjv. now rewrite (is_finite_not_nan _ Hjv).
Qed.

Lemma calculator_schema_accepts :
  forall args : list (string * value),
    is_json (VObj args) = true ->
    satisfies (Mcp.inputSchema Calculator.calculatorToolDefinition) args = true ->
    exists op x y,
      Calculator.CalculatorInputSchema [] (VObj args) = inl (Calculator.mkInput op x y)
      /\ prop args "operation" = VStr (Calculator.operation_name op).
Proof.
  intros args Hjson Hs.
  pose proof (satisfies_no_violation _ _ Hs) as Hno.
  destruct (number_field_accepts (Mcp.inputSchema Calculator.calculatorToolDefinition)
              args "a" (Some "The first number") Hjson eq_refl eq_refl (Hno "a")) as [x Hx].
  destruct (number_field_accepts (Mcp.inputSchema Calculator.calculatorToolDefinition)
              args "b" (Some "The second number") Hjson eq_refl eq_refl (Hno "b")) as [y Hy].
  specialize (Hno "operation"). unfold violates in Hno. simpl in Hno.
  destruct (assoc "operation" args) as [v|] eqn:Hf; [|discriminate].
  assert (Hop : exists op,
    field args [] "operation"
      (enum [("add", Calculator.add); ("subtract", Calculator.subtract);
             ("multiply", Calculator.multiply); ("divide", Calculator.divide)]) = inl op
    /\ v = VStr (Calculator.operation_name op)).
  { unfold field. rewrite (prop_present _ _ _ Hf).
    destruct v; try (check_field Hno; discriminate).
    check_field Hno. cbn.
    case_key s "add"; [now exists Calculator.add|].
    case_key s "subtract"; [now exists Calculator.subtract|].
    case_key s "multiply"; [now exists Calculator.multiply|].
    case_key s "divide"; [now exists Calculator.divide|].
    discriminate. }
  destruct Hop as (op & Hop & ->).
  exists op, x, y. split; [|now apply prop_present].
  unfold Calculator.CalculatorInputSchema, object. now rewrite Hop, Hx, Hy.
Qed.

Lemma weather_schema_accepts :
  forall args : list (string * value),
    is_json (VObj args) = true ->
    satisfies (Mcp.inputSchema Weather.weatherToolDefinition) args = true ->
    prop args "city" <> VStr "" ->
    exists input, Weather.WeatherInputSchema [] (VObj args) = inl input.
Proof.
  intros args Hjson Hs Hcity.
  pose proof (satisfies_no_violation _ _ Hs) as Hno.
  assert (Hc : exists c, field args [] "city" (string_min 1) = inl c).
  { specialize (Hno "city"). unfold violates in Hno. simpl in Hno.
    destruct (assoc "city" args) as [v|] eqn:Hf; [|discriminate].
    unfold field. rewrite (prop_present _ _ _ Hf) in *.
    destruct v; try (check_field Hno; discriminate).
    exists s. simpl. destruct s; [now destruct Hcity|reflexivity]. }
  assert (Hu : exists u,
    field args [] "unit"
      (default (enum [("celsius", Weather.celsius); ("fahrenheit", Weather.fahrenheit)])
         (VStr "celsius")) = inl u).
  { specialize (Hno "unit"). unfold violates in Hno. simpl in Hno.
    unfold field, prop.
    destruct (assoc "unit" args) as [v|] eqn:Hf; [|now exists Weather.celsius].
    destruct v; try (check_field Hno; discriminate).
    check_field Hno. cbn.
    case_key s "celsius"; [now exists Weather.celsius|].
    case_key s "fahrenheit"; [now exists Weather.fahrenheit|].
    discriminate. }
  destruct Hc as [c Hc]. destruct Hu as [u Hu].
  exists (Weather.mkInput c u).
  unfold Weather.WeatherInputSchema, object. now rewrite Hc, Hu.
Qed.

(** [z.number()] on a field: the number, or one issue at the field. *)
Lemma number_field :
  forall (o : list (string * value)) (path : list string) (k : string),
    match field o path k number with
    | inl x => prop o k = VNum x /\ PrimFloat.is_nan x = false
    | inr issues =>
        issues = [mkIssue invalid_type (path ++ [k])%list]
        /\ forall x, prop o k = VNum x -> PrimFloat.is_nan x = true
    end.
Proof.
  intros o path k. unfold field, number.
  destruct (prop o k) as [| |b|x|s|xs|fields]; try (split; [reflexivity|discriminate]).
  destruct (PrimFloat.is_nan x) eqn:Hnan.
  - split; [reflexivity|]. intros x' Hx. now inversion Hx; subst.
  - now split.
Qed.

Lemma operation_options :
  forall s : string,
    match assoc s [ ("add", Calculator.add); ("subtract", Calculator.subtract);
                    ("multiply", Calculator.multiply); ("divide", Calculator.divide) ] with
    | Some op => s = Calculator.operation_name op
    | None => forall op, s <> Calculator.operation_name op
    end.
Proof.
  intros s. cbn [assoc].
  destruct (String.eqb_spec s "add") as [->|H1]; [reflexivity|].
  destruct (String.eqb_spec s "subtract") as [->|H2]; [reflexivity|].
  destruct (String.eqb_spec s "multiply") as [->|H3]; [reflexivity|].
  destruct (String.eqb_spec s "divide") as [->|H4]; [reflexivity|].
  intros [| | |]; assumption.
Qed.

(** The [operation] field: one of the four names, or one issue. *)
Lemma operation_field :
  forall (o : list (string * value)) (path : list string),
    match field o path "operation"
            (enum [ ("add", Calculator.add); ("subtract", Calculator.subtract);
                    ("multiply", Calculator.multiply); ("divide", Calculator.divide) ]) with
    | inl op => prop o "operation" = VStr (Calculator.operation_name op)
    | inr issues =>
        (exists c, issues = [mkIssue c (path ++ ["operation"])%list])
        /\ forall op, prop o "operation" <> VStr (Calculator.operation_name op)
    end.
Proof.
  intros o path. unfold field, enum.
  destruct (prop o "operation") as [| |b|x|s|xs|fields];
    try (split; [now eexists|intros op; discriminate]).
  pose proof (operation_options s) as Hs.
  destruct (assoc s _) as [op|].
  - now subst s.
  - split; [now eexists|]. intros op Hop. inversion Hop. now apply (Hs op).
Qed.

Lemma operation_name_inj :
  forall op op', Calculator.operation_name op = Calculator.operation_name op' -> op = op'.
Proof. intros [| | |] [| | |] H; (reflexivity || discriminate H). Qed.

(** What the calculator's schema makes of an argument object. *)
Lemma calculator_schema_cases :
  forall o : list (string * value),
    match Calculator.CalculatorInputSchema [] (VObj o) with
    | inl input =>
        prop o "operation" = VStr (Calculator.operation_name (Calculator.operation input))
        /\ prop o "a" = VNum (Calculator.a input)
        /\ prop o "b" = VNum (Calculator.b input)
        /\ PrimFloat.is_nan (Calculator.a input) = false
        /\ PrimFloat.is_nan (Calculator.b input) = false
    | inr issues => issues <> []
    end.
Proof.
  intros o. unfold Calculator.CalculatorInputSchema, object.
  pose proof (operation_field o []) as Hop.
  pose proof (number_field o [] "a") as Ha.
  pose proof (number_field o [] "b") as Hb.
  destruct (field o [] "operation" _) as [op|iop]; [|destruct Hop as [[c ->] _]];
    (destruct (field o [] "a" number) as [x|ia]; [|destruct Ha as [-> _]]);
    (destruct (field o [] "b" number) as [y|ib]; [|destruct Hb as [-> _]]);
    cbn [both app]; try discriminate.
  destruct Ha as [Ha Hx]. destruct Hb as [Hb Hy]. now repeat split.
Qed.

(** C4, as the code has it.  For a JSON argument mapping that satisfies
    the declared input schema of a registered tool, and whose city is not
    the empty string when the tool is get_weather, schema validation
    succeeds: [invokeTool] never throws the "Invalid input: ..." error of a
    validation failure.  It throws "Cannot divide by zero" when the tool is
    the calculator, the operation is divide and b equals zero, and in
    every other case it returns a result. *)
Theorem satisfying_arguments_pass_validation :
  forall (R : Runtime) (env : Weather.Env) (tool : Tool) (args : list (string * value)),
    In tool listTools ->
    is_json (VObj args) = true ->
    satisfies (Mcp.inputSchema tool) args = true ->
    (Mcp.name tool = "get_weather" -> prop args "city" <> VStr "") ->
    ((Mcp.name tool = "calculator"
      /\ prop args "operation" = VStr "divide"
      /\ exists y, prop args "b" = VNum y /\ PrimFloat.eqb y 0 = true) ->
     invokeTool env (Mcp.name tool) (VObj args)
     = Throw (mkMcpError InvalidParams "Cannot divide by zero"))
    /\ (~ (Mcp.name tool = "calculator"
           /\ prop args "operation" = VStr "divide"
           /\ exists y, prop args "b" = VNum y /\ PrimFloat.eqb y 0 = true) ->
        exists r, invokeTool env (Mcp.name tool) (VObj args) = Ok r)
    /\ (forall issues,
          invokeTool env (Mcp.name tool) (VObj args)
          <> Throw (mkMcpError InvalidParams ("Invalid input: " ++ ZodError_message issues))).
Proof.
  intros R env tool args Htool Hjson Hs Hcity.
  destruct Htool as [<-|[<-|[]]].
  - destruct (calculator_schema_accepts args Hjson Hs) as (op & x & y & Hparse & _).
    pose proof (calculator_schema_cases args) as Hcases. rewrite Hparse in Hcases.
    cbn [Calculator.operation Calculator.a Calculator.b] in Hcases.
    destruct Hcases as (Hop & _ & Hb & _).
    change (invokeTool env (Mcp.name Calculator.calculatorToolDefinition) (VObj args))
      with (Calculator.handleCalculator (VObj args)).
    unfold Calculator.handleCalculator. rewrite Hparse.
    unfold Calculator.compute. cbn [Calculator.operation Calculator.a Calculator.b].
    split; [|split].
    + intros (_ & Hdivide & y' & Hy' & Hzero).
      rewrite Hop in Hdivide. inversion Hdivide as [Hname].
      apply (operation_name_inj op Calculator.divide) in Hname. subst op.
      rewrite Hb in Hy'. inversion Hy'; subst y'. now rewrite Hzero.
    + intros Hnot. destruct op; try (eexists; reflexivity).
      destruct (PrimFloat.eqb y 0) eqn:Hzero; [|eexists; reflexivity].
      exfalso. apply Hnot. split; [reflexivity|]. split; [exact Hop|]. now exists y.
    + intros issues. destruct op; try discriminate.
      destruct (PrimFloat.eqb y 0); discriminate.
  - destruct (weather_schema_accepts args Hjson Hs (Hcity eq_refl)) as (input & Hparse).
    change (invokeTool env (Mcp.name Weather.weatherToolDefinition) (VObj args))
      with (Weather.handleGetWeather env (VObj args)).
    unfold Weather.handleGetWeather. rewrite Hparse.
    split; [|split].
    + intros (Hname & _). discriminate Hname.
    + intros _. eexists; reflexivity.
    + intros issues. discriminate.
Qed.

(** Two invocations that satisfy the declared schemas: the weather of
    Tokyo, which is answered, and one divided by zero, which is refused
    with "Cannot divide by zero". *)
Lemma satisfying_arguments_pass_validation_witness :
  In Weather.weatherToolDefinition listTools
  /\ is_json (VObj tokyo) = true
  /\ satisfies (Mcp.inputSchema Weather.weatherToolDefinition) tokyo = true
  /\ prop tokyo "city" <> VStr ""
  /\ In Calculator.calculatorToolDefinition listTools
  /\ is_json divide_1_0 = true
  /\ satisfies (Mcp.inputSchema Calculator.calculatorToolDefinition)
       [("operation", VStr "divide"); ("a", VNum 1); ("b", VNum 0)] = true
  /\ prop [("operation", VStr "divide"); ("a", VNum 1); ("b", VNum 0)] "b" = VNum 0
  /\ PrimFloat.eqb 0 0 = true
  /\ forall (R : Runtime) (env : Weather.Env),
       (exists r, invokeTool env "get_weather" (VObj tokyo) = Ok r)
       /\ invokeTool env "calculator" divide_1_0
          = Throw (mkMcpError InvalidParams "Cannot divide by zero")
       /\ (forall issues,
             invokeTool env "calculator" divide_1_0
             <> Throw (mkMcpError InvalidParams
                         ("Invalid input: " ++ ZodError_message issues))).
Proof.
  assert (Htool : In Weather.weatherToolDefinition listTools) by (simpl; auto).
  assert (Hcity : prop tokyo "city" <> VStr "") by (simpl; discriminate).
  assert (Hcalc : In Calculator.calculatorToolDefinition listTools) by (simpl; auto).
  assert (Hother : Mcp.name Calculator.calculatorToolDefinition = "get_weather" ->
                   prop [("operation", VStr "divide"); ("a", VNum 1); ("b", VNum 0)] "city"
                   <> VStr "")
    by (intros H; discriminate H).
  split; [exact Htool|]. split; [reflexivity|]. split; [reflexivity|].
  split; [exact Hcity|]. split; [exact Hcalc|]. split; [reflexivity|].
  split; [reflexivity|]. split; [reflexivity|]. split; [reflexivity|].
  intros R env.
  destruct (satisfying_arguments_pass_validation R env Weather.weatherToolDefinition tokyo
              Htool eq_refl eq_refl (fun _ => Hcity)) as (_ & Hok & _).
  destruct (satisfying_arguments_pass_validation R env Calculator.calculatorToolDefinition
              [("operation", VStr "divide"); ("a", VNum 1); ("b", VNum 0)]
              Hcalc eq_refl eq_refl Hother)
    as (Hthrow & _ & Hnever).
  split; [|split].
  - apply Hok. intros (Hname & _). discriminate Hname.
  - apply Hthrow. split; [reflexivity|]. split; [reflexivity|]. now exists 0%float.
  - exact Hnever.
Defined.

(** C4, as stated, fails.  The empty city satisfies the declared schema of
    get_weather (a string is all it asks for) and the zod schema refuses it;
    and the calculator answers a division by zero, which satisfies its
    schema, with an [InvalidInput] error. *)
Lemma empty_city_is_invalid_input :
  satisfies (Mcp.inputSchema Weather.weatherToolDefinition) [("city", VStr "")] = true
  /\ is_json (VObj [("city", VStr "")]) = true
  /\ satisfies (Mcp.inputSchema Calculator.calculatorToolDefinition)
       [("operation", VStr "divide"); ("a", VNum 1); ("b", VNum 0)] = true
  /\ is_json divide_1_0 = true
  /\ forall (R : Runtime) (env : Weather.Env),
       exists e e' : McpError,
         invokeTool env "get_weather" (VObj [("city", VStr "")]) = Throw e
         /\ e = mkMcpError InvalidParams
                  ("Invalid input: " ++ ZodError_message [mkIssue too_small ["city"]])
         /\ InvalidInput e
         /\ invokeTool env "calculator" divide_1_0 = Throw e'
         /\ InvalidInput e'.
Proof.
  repeat (split; [reflexivity|]).
  intros R env. eexists; eexists. repeat split.
Qed.

(** ** The weather report *)

Example london_is_stored :
  forall env, Weather.weather_data env "london" = Weather.row 12 80 "Cloudy".
Proof. reflexivity. Qed.

Example london_in_fahrenheit :
  forall env,
    Weather.temp (Weather.weather_data env "london") Weather.fahrenheit = Some 54%float.
Proof. reflexivity. Qed.

Example sydney_in_fahrenheit :
  forall env,
    Weather.temp (Weather.weather_data env "sydney") Weather.fahrenheit = Some 77%float.
Proof. reflexivity. Qed.

Example round_ties_go_up :
  List.map Math_round [2.5; -2.5; 53.6; -0.2; 0x1.fffffffffffffp-2]%float
  = [3; -2; 54; -0; 0]%float.
Proof. reflexivity. Qed.

(** An unknown city draws its weather from [Math.random]. *)
Example unknown_city_is_random :
  forall env,
    Weather.weather_data env "atlantis" = Weather.random_weather env.
Proof. reflexivity. Qed.

Example random_weather_of_halves :
  Weather.random_weather (Weather.mkEnv (fun _ => 0.5%float) "")
  = Weather.mkData (Some 23%float) (Some 60%float) (Some "Rainy").
Proof. reflexivity. Qed.

(** A city named after a member of [Object.prototype] finds that member in
    the table, and no temperature on it. *)
Example constructor_has_no_weather :
  forall env,
    Weather.weather_data env "constructor" = Weather.mkData None None None.
Proof. reflexivity. Qed.

Lemma weather_input_parses :
  forall (fields : list (string * value)) (c : string) (u : Weather.Unit),
    prop fields "city" = VStr c ->
    c <> "" ->
    (prop fields "unit" = VUndefined /\ u = Weather.celsius
     \/ prop fields "unit" = VStr "celsius" /\ u = Weather.celsius
     \/ prop fields "unit" = VStr "fahrenheit" /\ u = Weather.fahrenheit) ->
    Weather.WeatherInputSchema [] (VObj fields) = inl (Weather.mkInput c u).
Proof.
  intros fields c u Hc Hne Hu.
  unfold Weather.WeatherInputSchema, object, field. rewrite Hc.
  assert (Hcity : string_min 1 ([] ++ ["city"])%list (VStr c) = inl c).
  { simpl. destruct c; [now destruct Hne|reflexivity]. }
  rewrite Hcity.
  destruct Hu as [[-> ->]|[[-> ->]|[-> ->]]]; reflexivity.
Qed.

Lemma not_in_keys_assoc :
  forall (A : Type) (o : list (string * A)) (k : string),
    ~ In k (List.map fst o) -> assoc k o = None.
Proof.
  intros A o k. induction o as [|[k' a'] o IH]; simpl; intros Hnot; [reflexivity|].
  destruct (String.eqb_spec k k') as [->|_]; [exfalso; auto|]. apply IH. auto.
Qed.

Lemma not_in_mem :
  forall (k : string) (ks : list string), ~ In k ks -> mem k ks = false.
Proof.
  intros k ks Hnot. destruct (mem k ks) eqn:Hm; [|reflexivity].
  exfalso. apply Hnot. now apply mem_in.
Qed.

(** C10.  For a get_weather invocation with a non-empty city: when the
    unit is omitted it is read as celsius and the temperature of the report
    is the stored [tempC] followed by the Celsius symbol; when the unit is
    fahrenheit the temperature of the report is
    [Math.round(tempC * 1.8 + 32)] followed by the Fahrenheit symbol.  The
    stored [tempC] is that of the row of the table for the city in lower
    case: 12 for london, 18 for new york, 22 for tokyo, 14 for paris, 25
    for sydney.  For a city that names a member of [Object.prototype] it is
    [undefined], and for every other city it is the number drawn,
    [Math.round(15 + Math.random() * 15)]. *)
Theorem weather_temperature :
  forall (R : Runtime) (env : Weather.Env) (fields : list (string * value)) (c : string)
         (u : Weather.Unit) (tempC : option float),
    prop fields "city" = VStr c ->
    c <> "" ->
    (prop fields "unit" = VUndefined /\ u = Weather.celsius
     \/ prop fields "unit" = VStr "celsius" /\ u = Weather.celsius
     \/ prop fields "unit" = VStr "fahrenheit" /\ u = Weather.fahrenheit) ->
    ((exists t,
        In (String_toLowerCase c, t)
           [("london", 12); ("new york", 18); ("tokyo", 22); ("paris", 14);
            ("sydney", 25)]%float
        /\ tempC = Some t)
     \/ (In (String_toLowerCase c) Object_prototype_keys /\ tempC = None)
     \/ (~ In (String_toLowerCase c) ["london"; "new york"; "tokyo"; "paris"; "sydney"]
         /\ ~ In (String_toLowerCase c) Object_prototype_keys
         /\ tempC = Some (Math_round (15 + Weather.Math_random env 0 * 15)%float))) ->
    Weather.WeatherInputSchema [] (VObj fields) = inl (Weather.mkInput c u)
    /\ exists report,
         invokeTool env "get_weather" (VObj fields)
         = Ok (text_result (JSON_stringify (VObj report) 2))
         /\ assoc "temperature" report
            = Some (VStr (match u with
                          | Weather.celsius => template tempC ++ "°C"
                          | Weather.fahrenheit =>
                              Number_toString
                                (Math_round (ToNumber tempC * 1.8 + 32)%float)
                              ++ "°F"
                          end)).
Proof.
  intros R env fields c u tempC Hc Hne Hu Hstored.
  assert (Hparse : Weather.WeatherInputSchema [] (VObj fields)
                   = inl (Weather.mkInput c u))
    by (apply weather_input_parses; auto).
  split; [exact Hparse|].
  assert (Hdata : Weather.tempC (Weather.weather_data env (String_toLowerCase c)) = tempC).
  { destruct Hstored as [(t & Hrow & ->)|[(Hproto & ->)|(Hrow & Hproto & ->)]].
    - simpl in Hrow.
      repeat (destruct Hrow as [Hrow|Hrow];
              [injection Hrow as Hkey Ht; rewrite <- Hkey, <- Ht; reflexivity|]).
      destruct Hrow.
    - simpl in Hproto.
      repeat (destruct Hproto as [Hproto|Hproto]; [rewrite <- Hproto; reflexivity|]).
      destruct Hproto.
    - unfold Weather.weather_data, get.
      rewrite (not_in_keys_assoc _ Weather.MOCK_WEATHER _ Hrow), (not_in_mem _ _ Hproto).
      reflexivity. }
  change (invokeTool env "get_weather" (VObj fields))
    with (Weather.handleGetWeather env (VObj fields)).
  unfold Weather.handleGetWeather. rewrite Hparse.
  eexists. split; [reflexivity|].
  cbn [assoc String.eqb Ascii.eqb Bool.eqb Weather.city Weather.unit].
  destruct u; unfold Weather.temp; rewrite Hdata; reflexivity.
Qed.

(** London in Fahrenheit and Tokyo with no unit, on the concrete runtime,
    which leaves the case of a text as it is: 12 degrees Celsius are 53.6
    degrees Fahrenheit, reported as 54. *)
Lemma weather_temperature_witness :
  prop [("city", VStr "london"); ("unit", VStr "fahrenheit")] "city" = VStr "london"
  /\ "london" <> ""
  /\ prop [("city", VStr "london"); ("unit", VStr "fahrenheit")] "unit" = VStr "fahrenheit"
  /\ In (@String_toLowerCase Witness.runtime "london", 12%float)
        [("london", 12); ("new york", 18); ("tokyo", 22); ("paris", 14); ("sydney", 25)]%float
  /\ prop [("city", VStr "tokyo")] "unit" = VUndefined
  /\ In (@String_toLowerCase Witness.runtime "tokyo", 22%float)
        [("london", 12); ("new york", 18); ("tokyo", 22); ("paris", 14); ("sydney", 25)]%float
  /\ forall env : Weather.Env,
       (exists report,
          @invokeTool Witness.runtime env "get_weather"
            (VObj [("city", VStr "london"); ("unit", VStr "fahrenheit")])
          = Ok (text_result (@JSON_stringify Witness.runtime (VObj report) 2))
          /\ assoc "temperature" report = Some (VStr "54°F"))
       /\ @Weather.WeatherInputSchema [] (VObj [("city", VStr "tokyo")])
          = inl (Weather.mkInput "tokyo" Weather.celsius)
       /\ exists report,
            @invokeTool Witness.runtime env "get_weather" (VObj [("city", VStr "tokyo")])
            = Ok (text_result (@JSON_stringify Witness.runtime (VObj report) 2))
            /\ assoc "temperature" report = Some (VStr "22°C").
Proof.
  assert (Hne : "london" <> "") by discriminate.
  assert (Hne' : "tokyo" <> "") by discriminate.
  assert (Hlondon : In (@String_toLowerCase Witness.runtime "london", 12%float)
                       [("london", 12); ("new york", 18); ("tokyo", 22); ("paris", 14);
                        ("sydney", 25)]%float) by (left; reflexivity).
  assert (Htokyo : In (@String_toLowerCase Witness.runtime "tokyo", 22%float)
                      [("london", 12); ("new york", 18); ("tokyo", 22); ("paris", 14);
                       ("sydney", 25)]%float) by (right; right; left; reflexivity).
  split; [reflexivity|]. split; [exact Hne|]. split; [reflexivity|].
  split; [exact Hlondon|]. split; [reflexivity|]. split; [exact Htokyo|].
  intros env. split; [|split].
  - exact (proj2 (weather_temperature Witness.runtime env
                    [("city", VStr "london"); ("unit", VStr "fahrenheit")] "london"
                    Weather.fahrenheit (Some 12%float) eq_refl Hne
                    (or_intror (or_intror (conj eq_refl eq_refl)))
                    (or_introl (ex_intro _ 12%float (conj Hlondon eq_refl))))).
  - exact (proj1 (weather_temperature Witness.runtime env [("city", VStr "tokyo")] "tokyo"
                    Weather.celsius (Some 22%float) eq_refl Hne'
                    (or_introl (conj eq_refl eq_refl))
                    (or_introl (ex_intro _ 22%float (conj Htokyo eq_refl))))).
  - exact (proj2 (weather_temperature Witness.runtime env [("city", VStr "tokyo")] "tokyo"
                    Weather.celsius (Some 22%float) eq_refl Hne'
                    (or_introl (conj eq_refl eq_refl))
                    (or_introl (ex_intro _ 22%float (conj Htokyo eq_refl))))).
Defined.

(** With a runtime that lower-cases "Tokyo" to "tokyo", the report for
    Tokyo reads 22 degrees when no unit is given. *)
Example tokyo_report :
  forall (R : Runtime) (env : Weather.Env),
    String_toLowerCase "Tokyo" = "tokyo" ->
    invokeTool env "get_weather" (VObj tokyo)
    = Ok (text_result
            (JSON_stringify
               (VObj [ ("city", VStr (String_toUpperCase "T" ++ "okyo"));
                       ("temperature", VStr (Number_toString 22 ++ "°C"));
                       ("humidity", VStr (Number_toString 55 ++ "%"));
                       ("condition", VStr "Partly Cloudy");
                       ("timestamp", VStr (Weather.Date_toISOString env)) ]) 2)).
Proof.
  intros R env Hlower.
  change (invokeTool env "get_weather" (VObj tokyo))
    with (Weather.handleGetWeather env (VObj tokyo)).
  unfold Weather.handleGetWeather. simpl.
  unfold Weather.weatherReport. simpl. rewrite Hlower. reflexivity.
Qed.

(** ** The schema translator *)

Section TranslatorFacts.

Import Translator.

(** Each of the six primitive kinds maps to its own type tag. *)
Lemma six_kinds :
  toGeminiSchemaType "string" = Tag STRING
  /\ toGeminiSchemaType "number" = Tag NUMBER
  /\ toGeminiSchemaType "integer" = Tag INTEGER
  /\ toGeminiSchemaType "boolean" = Tag BOOLEAN
  /\ toGeminiSchemaType "array" = Tag ARRAY
  /\ toGeminiSchemaType "object" = Tag OBJECT.
Proof. repeat split. Qed.

(** A kind that is neither one of the six nor the name of a member of
    [Object.prototype] maps to the string tag. *)
Lemma other_kinds_default_to_string :
  forall kind : string,
    assoc kind map = None ->
    mem kind Object_prototype_keys = false ->
    toGeminiSchemaType kind = Tag STRING.
Proof.
  intros kind Hmap Hproto. unfold toGeminiSchemaType, get. now rewrite Hmap, Hproto.
Qed.

(** The names of the members of [Object.prototype] do not. *)
Lemma inherited_kinds_do_not :
  forall kind : string,
    In kind Object_prototype_keys ->
    toGeminiSchemaType kind = PrototypeMember kind.
Proof.
  intros kind Hin. simpl in Hin.
  repeat (destruct Hin as [<-|Hin]; [reflexivity|]). destruct Hin.
Qed.

(** C7 at an unrecognized kind.  The kind "constructor" is none of the six,
    and the translator does not give it the string tag: it gives it the
    member of that name that the lookup table inherits. *)
Theorem unrecognized_kind_constructor :
  assoc "constructor" map = None
  /\ toGeminiSchemaType "constructor" = PrototypeMember "constructor"
  /\ toGeminiSchemaType "constructor" <> Tag STRING
  /\ own (properties (parameters (mcpToolToGeminiFn odd_tool)))
     = [("x", mkProperty (PrototypeMember "constructor") "a field" None)].
Proof.
  repeat split. discriminate.
Qed.

Lemma put_fresh :
  forall (A : Type) key (v : A) entries,
    ~ In key (List.map fst entries) -> put key v entries = (entries ++ [(key, v)])%list.
Proof.
  intros A key v entries. induction entries as [|[k old] entries IH]; simpl; intros Hnot.
  - reflexivity.
  - destruct (String.eqb_spec key k) as [->|_]; [exfalso; auto|].
    rewrite IH; auto.
Qed.

Lemma translate_loop_invariant :
  forall (entries : list (string * PropertySchema)) (acc : Properties),
    NoDup (List.map fst (own acc) ++ List.map fst entries)%list ->
    ~ In "__proto__" (List.map fst entries) ->
    fold_left (fun o kv => assign o (fst kv) (translate_property (snd kv))) entries acc
    = mkProperties (proto acc) (own acc ++ List.map translate_entry entries)%list.
Proof.
  induction entries as [|[k p] entries IH]; intros acc Hnd Hproto; simpl.
  - rewrite app_nil_r. now destruct acc.
  - simpl in Hnd, Hproto.
    assert (Hk : ~ In k (List.map fst (own acc))).
    { intros Hin. apply NoDup_remove_2 in Hnd. apply Hnd, in_or_app. auto. }
    assert (Hassign : assign acc k (translate_property p)
                      = mkProperties (proto acc)
                          (own acc ++ [(k, translate_property p)])%list).
    { unfold assign. destruct (String.eqb_spec k "__proto__") as [->|_]; [exfalso; auto|].
      now rewrite put_fresh. }
    rewrite Hassign, IH; simpl.
    + now rewrite <- app_assoc.
    + rewrite List.map_app, <- app_assoc. exact Hnd.
    + auto.
Qed.

(** X16.  What the translator preserves.  When the field names are those
    of an object ([Object.entries] lists each once) and none is "__proto__", the
    translator keeps every field, in order, with its description (the empty
    string if it has none), its enum if it has one, and the kind mapped by
    [toGeminiSchemaType]; it keeps the required list, the name and the
    description of the tool. *)
Lemma translation_preserves_fields :
  forall (tool : Tool) (entries : list (string * PropertySchema)),
    Mcp.properties (Mcp.inputSchema tool) = Some entries ->
    NoDup (List.map fst entries) ->
    ~ In "__proto__" (List.map fst entries) ->
    let fn := mcpToolToGeminiFn tool in
    name fn = Mcp.name tool
    /\ fn_description fn = or_else (Mcp.description tool) ""
    /\ required (parameters fn) = or_else (Mcp.required (Mcp.inputSchema tool)) []
    /\ proto (properties (parameters fn)) = None
    /\ own (properties (parameters fn))
       = List.map (fun kv =>
                     (fst kv,
                      mkProperty (toGeminiSchemaType (prop_type (snd kv)))
                                 (or_else (prop_description (snd kv)) "")
                                 (prop_enum (snd kv)))) entries.
Proof.
  intros tool entries Hprops Hnd Hproto fn.
  unfold fn, mcpToolToGeminiFn. simpl. rewrite Hprops.
  unfold translate_properties.
  rewrite translate_loop_invariant by (simpl; auto).
  simpl. repeat split.
Qed.

(** A field named "__proto__" is not kept: the assignment sets the
    prototype of the properties object. *)
Example proto_field_is_lost :
  translate_properties [("__proto__", Mcp.mkProperty "string" None None)]
  = mkProperties (Some (mkProperty (Tag STRING) "" None)) [].
Proof. reflexivity. Qed.

(** The two registered tools, translated. *)
Example calculator_declaration :
  mcpToolToGeminiFn Calculator.calculatorToolDefinition
  = mkFunctionDeclaration "calculator"
      "Perform basic arithmetic operations: add, subtract, multiply, or divide two numbers."
      (mkParameters OBJECT
         (mkProperties None
            [ ("operation",
               mkProperty (Tag STRING) "The arithmetic operation to perform"
                 (Some ["add"; "subtract"; "multiply"; "divide"]));
              ("a", mkProperty (Tag NUMBER) "The first number" None);
              ("b", mkProperty (Tag NUMBER) "The second number" None) ])
         ["operation"; "a"; "b"]).
Proof. reflexivity. Qed.

End TranslatorFacts.

(** ** The agentic loop *)

Section LoopFacts.

Import Loop.

Context {R : Runtime}.
Variable World : Type.
Variable sendMessage : Request -> World -> result string Response * World.
Variable callTool : string -> value -> World -> result string CallToolResult * World.

(** One iteration of the [for] loop. *)
Lemma forCalls_cons :
  forall call rest acc w,
    forCalls callTool (call :: rest) acc w
    = match callTool (call_name call) (call_args call) w with
      | (Ok toolResult, w1) =>
          match forCalls callTool rest (acc ++ [function_response call toolResult])%list w1 with
          | (evs, w2, out) =>
              (ConsoleLog (calling_line call)
               :: CallTool (call_name call) (call_args call)
               :: ConsoleLog (result_line toolResult) :: evs, w2, out)
          end
      | (Throw err, w1) =>
          ([ConsoleLog (calling_line call); CallTool (call_name call) (call_args call)],
           w1, Thrown err)
      end.
Proof.
  intros call rest acc w. simpl. unfold bind, emit, await_callTool. simpl.
  destruct (callTool (call_name call) (call_args call) w) as [[toolResult|err] w1]; simpl.
  - fold (function_response call toolResult).
    destruct (forCalls callTool rest (acc ++ [function_response call toolResult])%list w1)
      as [[evs w2] out].
    reflexivity.
  - reflexivity.
Qed.

(** What the [for] loop does: it never sends a message and never runs out
    of fuel; if it returns, it has invoked every call, in order, and
    appended one answer per call, in order; if it throws, it has invoked
    the calls up to the one that failed and no other. *)
Lemma forCalls_spec :
  forall calls acc w evs w' out,
    forCalls callTool calls acc w = (evs, w', out) ->
    sent evs = []
    /\ errors evs = []
    /\ match out with
       | Returned toolResults =>
           tool_calls evs = List.map request_of calls
           /\ exists parts,
                toolResults = (acc ++ parts)%list /\ Forall2 (answers callTool) calls parts
       | Thrown err =>
           exists done call rest w0 w1,
             calls = (done ++ call :: rest)%list
             /\ tool_calls evs = List.map request_of (done ++ [call])%list
             /\ callTool (call_name call) (call_args call) w0 = (Throw err, w1)
       | OutOfFuel => False
       end.
Proof.
  induction calls as [|call rest IH]; intros acc w evs w' out Hrun.
  - simpl in Hrun. unfold ret in Hrun. inversion Hrun; subst. simpl.
    repeat split. exists []. rewrite app_nil_r. split; [reflexivity|constructor].
  - rewrite forCalls_cons in Hrun.
    destruct (callTool (call_name call) (call_args call) w) as [[toolResult|err] w1] eqn:Hcall.
    + destruct (forCalls callTool rest (acc ++ [function_response call toolResult])%list w1)
        as [[evs1 w2] out1] eqn:Hrest.
      inversion Hrun; subst. clear Hrun.
      destruct (IH _ _ _ _ _ Hrest) as (Hsent & Herr & Hout).
      split; [exact Hsent|]. split; [exact Herr|].
      destruct out as [toolResults|err|].
      * destruct Hout as (Hcalls & parts & -> & Hall).
        split; [simpl; now rewrite Hcalls|].
        exists (function_response call toolResult :: parts).
        split; [now rewrite <- app_assoc|].
        constructor; [|exact Hall].
        split; [reflexivity|]. now exists w, w1, toolResult.
      * destruct Hout as (done & call' & rest' & w0 & w0' & -> & Hcalls & Hfail).
        exists (call :: done), call', rest', w0, w0'.
        split; [reflexivity|]. split; [simpl; now rewrite Hcalls|exact Hfail].
      * exact Hout.
    + inversion Hrun; subst. clear Hrun.
      repeat split.
      exists [], call, rest, w. eexists. repeat split. exact Hcall.
Qed.

(** A call that throws ends the [for] loop at once. *)
Lemma forCalls_throws :
  forall done call rest acc w evs0 w0 toolResults err w1,
    forCalls callTool done acc w = (evs0, w0, Returned toolResults) ->
    callTool (call_name call) (call_args call) w0 = (Throw err, w1) ->
    forCalls callTool (done ++ call :: rest)%list acc w
    = ((evs0 ++ [ConsoleLog (calling_line call);
                 CallTool (call_name call) (call_args call)])%list,
       w1, Thrown err).
Proof.
  induction done as [|d done IH]; intros call rest acc w evs0 w0 toolResults err w1 Hdone Hfail.
  - simpl in Hdone. unfold ret in Hdone. inversion Hdone; subst.
    simpl app. rewrite forCalls_cons, Hfail. reflexivity.
  - simpl app. rewrite forCalls_cons. rewrite forCalls_cons in Hdone.
    destruct (callTool (call_name d) (call_args d) w) as [[toolResult|e] w2]; [|discriminate].
    destruct (forCalls callTool done (acc ++ [function_response d toolResult])%list w2)
      as [[evs2 w3] out2] eqn:Hrest.
    inversion Hdone; subst. clear Hdone.
    rewrite (IH call rest _ _ _ _ _ _ _ Hrest Hfail). reflexivity.
Qed.

Lemma sent_app :
  forall evs evs', sent (evs ++ evs')%list = (sent evs ++ sent evs')%list.
Proof. intros. unfold sent. apply flat_map_app. Qed.

Lemma tool_calls_app :
  forall evs evs', tool_calls (evs ++ evs')%list = (tool_calls evs ++ tool_calls evs')%list.
Proof. intros. unfold tool_calls. apply flat_map_app. Qed.

Lemma errors_app :
  forall evs evs', errors (evs ++ evs')%list = (errors evs ++ errors evs')%list.
Proof. intros. unfold errors. apply flat_map_app. Qed.

(** One round of the loop, through the [for] loop. *)
Lemma toolRound_unfold :
  forall calls w,
    toolRound sendMessage callTool calls w
    = match forCalls callTool calls [] w with
      | (evs, w1, Returned toolResults) =>
          match sendMessage (ToolResults toolResults) w1 with
          | (r, w2) => ((evs ++ [SendMessage (ToolResults toolResults)])%list, w2, of_result r)
          end
      | (evs, w1, Thrown err) => (evs, w1, Thrown err)
      | (evs, w1, OutOfFuel) => (evs, w1, OutOfFuel)
      end.
Proof.
  intros calls w. unfold toolRound, bind, await_sendMessage.
  destruct (forCalls callTool calls [] w) as [[evs w1] [toolResults|err|]]; try reflexivity.
  destruct (sendMessage (ToolResults toolResults) w1) as [r w2]. reflexivity.
Qed.

(** A response that asks for calls starts a round. *)
Lemma agenticLoop_round :
  forall fuel candidate calls w,
    functionCalls candidate = Some calls ->
    calls <> [] ->
    agenticLoop sendMessage callTool (S fuel) candidate w
    = match toolRound sendMessage callTool calls w with
      | (evs, w1, Returned response) =>
          match agenticLoop sendMessage callTool fuel response w1 with
          | (evs', w2, out) => ((evs ++ evs')%list, w2, out)
          end
      | (evs, w1, Thrown err) => (evs, w1, Thrown err)
      | (evs, w1, OutOfFuel) => (evs, w1, OutOfFuel)
      end.
Proof.
  intros fuel candidate calls w Hcalls Hne. simpl. rewrite Hcalls.
  destruct calls as [|call rest]; [now destruct Hne|]. reflexivity.
Qed.

(** A response without calls ends the loop with the text of the model. *)
Lemma agenticLoop_final :
  forall fuel candidate w,
    functionCalls candidate = None \/ functionCalls candidate = Some [] ->
    agenticLoop sendMessage callTool (S fuel) candidate w
    = ([ConsoleLog (newline ++ "🤖 Gemini: " ++ text candidate)], w, Returned tt).
Proof.
  intros fuel candidate w [Hc|Hc]; simpl; rewrite Hc; reflexivity.
Qed.

(** *** The calls of a round, one after the other *)

Lemma batch_nil : batch [] [] = [].
Proof. reflexivity. Qed.

Lemma batch_cons :
  forall call rest toolResult toolResults,
    batch (call :: rest) (toolResult :: toolResults)
    = function_response call toolResult :: batch rest toolResults.
Proof. reflexivity. Qed.

Lemma returned_length :
  forall calls w toolResults w1,
    returned callTool calls w = Some (toolResults, w1) ->
    length toolResults = length calls.
Proof.
  induction calls as [|call rest IH]; intros w toolResults w1 Hret; simpl in Hret.
  - now inversion Hret.
  - destruct (callTool (call_name call) (call_args call) w) as [[r|err] w0]; [|discriminate].
    destruct (returned callTool rest w0) as [[rs w2]|] eqn:Hrest; [|discriminate].
    inversion Hret; subst. simpl. now rewrite (IH _ _ _ Hrest).
Qed.

(** A whole batch has one entry per call, named after it, in order. *)
Lemma batch_names :
  forall calls toolResults,
    length toolResults = length calls ->
    length (batch calls toolResults) = length calls
    /\ List.map response_name (batch calls toolResults) = List.map call_name calls.
Proof.
  induction calls as [|call rest IH]; intros [|r rs] Hlen; try discriminate.
  - now split.
  - rewrite batch_cons. simpl. inversion Hlen as [Hlen'].
    destruct (IH rs Hlen') as [Hl Hn]. now rewrite Hl, Hn.
Qed.

(** When every call returns, the [for] loop has invoked each of them and
    has appended the whole batch. *)
Lemma returned_forCalls :
  forall calls acc w toolResults w1,
    returned callTool calls w = Some (toolResults, w1) ->
    exists evs,
      forCalls callTool calls acc w
      = (evs, w1, Returned (acc ++ batch calls toolResults)%list)
      /\ sent evs = []
      /\ errors evs = []
      /\ tool_calls evs = List.map request_of calls.
Proof.
  induction calls as [|call rest IH]; intros acc w toolResults w1 Hret.
  - simpl in Hret. inversion Hret; subst. exists []. rewrite batch_nil, app_nil_r.
    repeat split.
  - simpl in Hret. rewrite forCalls_cons.
    destruct (callTool (call_name call) (call_args call) w) as [[r|err] w0]; [|discriminate].
    destruct (returned callTool rest w0) as [[rs w2]|] eqn:Hrest; [|discriminate].
    inversion Hret; subst. clear Hret.
    destruct (IH (acc ++ [function_response call r])%list w0 rs w1 Hrest)
      as (evs & Hfor & Hsent & Herr & Htools).
    rewrite Hfor. eexists. split; [|split; [|split]].
    + rewrite batch_cons, <- app_assoc. reflexivity.
    + exact Hsent.
    + exact Herr.
    + simpl. now rewrite Htools.
Qed.

(** When a call throws after the calls before it have returned, the [for]
    loop ends there. *)
Lemma failing_forCalls :
  forall done call rest acc w toolResults w0 err w1,
    returned callTool done w = Some (toolResults, w0) ->
    callTool (call_name call) (call_args call) w0 = (Throw err, w1) ->
    exists evs,
      forCalls callTool (done ++ call :: rest)%list acc w = (evs, w1, Thrown err)
      /\ sent evs = []
      /\ errors evs = []
      /\ tool_calls evs = List.map request_of (done ++ [call])%list.
Proof.
  intros done call rest acc w toolResults w0 err w1 Hdone Hfail.
  destruct (returned_forCalls done acc w toolResults w0 Hdone)
    as (evs0 & Hfor & Hsent & Herr & Htools).
  rewrite (forCalls_throws done call rest acc w evs0 w0 _ err w1 Hfor Hfail).
  eexists. split; [reflexivity|]. split; [|split].
  - now rewrite sent_app, Hsent.
  - now rewrite errors_app, Herr.
  - rewrite tool_calls_app, Htools, List.map_app. reflexivity.
Qed.

(** Either every call returns, or there is a first call that throws. *)
Lemma returned_or_fails :
  forall calls w,
    (exists toolResults w1, returned callTool calls w = Some (toolResults, w1))
    \/ (exists done call rest toolResults w0 err w1,
          calls = (done ++ call :: rest)%list
          /\ returned callTool done w = Some (toolResults, w0)
          /\ callTool (call_name call) (call_args call) w0 = (Throw err, w1)).
Proof.
  induction calls as [|call rest IH]; intros w.
  - left. now exists [], w.
  - destruct (callTool (call_name call) (call_args call) w) as [[r|err] w0] eqn:Hcall.
    + destruct (IH w0) as [(rs & w1 & Hrest)
                          |(done & c & rest' & rs & wa & err & wb & -> & Hdone & Hfail)].
      * left. exists (r :: rs), w1. simpl. now rewrite Hcall, Hrest.
      * right. exists (call :: done), c, rest', (r :: rs), wa, err, wb.
        split; [reflexivity|]. split; [|exact Hfail]. simpl. now rewrite Hcall, Hdone.
    + right. exists [], call, rest, [], w, err, w0. now repeat split.
Qed.

(** C1, as the code has it.  For a response that asks for one or more
    calls, the loop runs one round, in which the calls are invoked one
    after the other in the order the model listed them.  If every call
    returns, the round sends exactly one message, the whole batch: one
    entry per call, the entry at each position carrying the name of the
    call at that position and the text of its result.  If a call throws
    after the calls before it have returned, the calls after it are not
    invoked, the round and the loop end with the error of that call, and no
    message is sent: there is no partial batch.  One of the two is always
    the case. *)
Theorem round_sends_whole_batch_or_nothing :
  forall (fuel : nat) (candidate : Response) (calls : list FunctionCall) (w : World),
    functionCalls candidate = Some calls ->
    calls <> [] ->
    (forall toolResults w1,
       returned callTool calls w = Some (toolResults, w1) ->
       exists evs r w2,
         sendMessage (ToolResults (batch calls toolResults)) w1 = (r, w2)
         /\ toolRound sendMessage callTool calls w
            = ((evs ++ [SendMessage (ToolResults (batch calls toolResults))])%list,
               w2, of_result r)
         /\ tool_calls evs = List.map request_of calls
         /\ sent evs = []
         /\ length (batch calls toolResults) = length calls
         /\ List.map response_name (batch calls toolResults) = List.map call_name calls
         /\ exists evs' w3 out,
              agenticLoop sendMessage callTool (S fuel) candidate w
              = ((evs ++ SendMessage (ToolResults (batch calls toolResults)) :: evs')%list,
                 w3, out)
              /\ (forall err, r = Throw err -> evs' = [] /\ out = Thrown err))
    /\ (forall done call rest toolResults w0 err w1,
          calls = (done ++ call :: rest)%list ->
          returned callTool done w = Some (toolResults, w0) ->
          callTool (call_name call) (call_args call) w0 = (Throw err, w1) ->
          exists evs,
            toolRound sendMessage callTool calls w = (evs, w1, Thrown err)
            /\ agenticLoop sendMessage callTool (S fuel) candidate w = (evs, w1, Thrown err)
            /\ tool_calls evs = List.map request_of (done ++ [call])%list
            /\ sent evs = [])
    /\ ((exists toolResults w1, returned callTool calls w = Some (toolResults, w1))
        \/ (exists done call rest toolResults w0 err w1,
              calls = (done ++ call :: rest)%list
              /\ returned callTool done w = Some (toolResults, w0)
              /\ callTool (call_name call) (call_args call) w0 = (Throw err, w1))).
Proof.
  intros fuel candidate calls w Hcalls Hne.
  split; [|split; [|apply returned_or_fails]].
  - intros toolResults w1 Hret.
    destruct (returned_forCalls calls [] w toolResults w1 Hret)
      as (evs & Hfor & Hsent & _ & Htools).
    destruct (batch_names calls toolResults (returned_length _ _ _ _ Hret)) as [Hlen Hnames].
    destruct (sendMessage (ToolResults (batch calls toolResults)) w1) as [r w2] eqn:Hsend.
    exists evs, r, w2. split; [reflexivity|].
    assert (Hround : toolRound sendMessage callTool calls w
                     = ((evs ++ [SendMessage (ToolResults (batch calls toolResults))])%list,
                        w2, of_result r)).
    { rewrite toolRound_unfold, Hfor. cbn [app]. now rewrite Hsend. }
    split; [exact Hround|]. split; [exact Htools|]. split; [exact Hsent|].
    split; [exact Hlen|]. split; [exact Hnames|].
    rewrite (agenticLoop_round fuel candidate calls w Hcalls Hne), Hround.
    destruct r as [response|err]; cbn [of_result].
    + destruct (agenticLoop sendMessage callTool fuel response w2) as [[evs' w3] out].
      exists evs', w3, out. split; [now rewrite <- app_assoc|discriminate].
    + exists [], w2, (Thrown err). split; [reflexivity|].
      intros err' Herr. inversion Herr. now split.
  - intros done call rest toolResults w0 err w1 -> Hdone Hfail.
    destruct (failing_forCalls done call rest [] w toolResults w0 err w1 Hdone Hfail)
      as (evs & Hfor & Hsent & _ & Htools).
    exists evs.
    assert (Hround : toolRound sendMessage callTool (done ++ call :: rest)%list w
                     = (evs, w1, Thrown err))
      by (now rewrite toolRound_unfold, Hfor).
    split; [exact Hround|]. split; [|split; assumption].
    now rewrite (agenticLoop_round fuel candidate _ w Hcalls Hne), Hround.
Qed.

(** *** The rounds of a turn *)

(** After [n] whole rounds the loop is where [rounds] says, having sent
    the batches of these rounds and nothing else. *)
Lemma rounds_agenticLoop :
  forall n candidate w invoked batches last wn,
    rounds sendMessage callTool n candidate w = Some (invoked, batches, last, wn) ->
    exists evsn,
      sent evsn = List.map ToolResults batches
      /\ tool_calls evsn = List.map request_of invoked
      /\ errors evsn = []
      /\ forall fuel,
           agenticLoop sendMessage callTool (n + fuel) candidate w
           = match agenticLoop sendMessage callTool fuel last wn with
             | (evs, w', out) => ((evsn ++ evs)%list, w', out)
             end.
Proof.
  induction n as [|n IH]; intros candidate w invoked batches last wn Hrounds.
  - simpl in Hrounds. inversion Hrounds; subst. exists []. repeat split.
    intros fuel. simpl.
    now destruct (agenticLoop sendMessage callTool fuel last wn) as [[evs w'] out].
  - simpl in Hrounds.
    destruct (functionCalls candidate) as [[|call rest]|] eqn:Hcalls; try discriminate.
    destruct (returned callTool (call :: rest) w) as [[toolResults w1]|] eqn:Hret;
      [|discriminate].
    destruct (sendMessage (ToolResults (batch (call :: rest) toolResults)) w1)
      as [[response|err] w2] eqn:Hsend; [|discriminate].
    destruct (rounds sendMessage callTool n response w2) as [[[[inv bs] c] w3]|] eqn:Hrest;
      [|discriminate].
    inversion Hrounds; subst. clear Hrounds.
    destruct (IH _ _ _ _ _ _ Hrest) as (evsn & Hsent & Htools & Herr & Hloop).
    destruct (returned_forCalls (call :: rest) [] w toolResults w1 Hret)
      as (evs & Hfor & Hsent1 & Herr1 & Htools1).
    exists (evs ++ SendMessage (ToolResults (batch (call :: rest) toolResults)) :: evsn)%list.
    split; [|split; [|split]].
    + rewrite sent_app, Hsent1. cbn [sent flat_map app]. fold (sent evsn). now rewrite Hsent.
    + rewrite tool_calls_app, Htools1. cbn [tool_calls flat_map app]. fold (tool_calls evsn).
      rewrite Htools. change (call :: rest ++ inv)%list with ((call :: rest) ++ inv)%list.
      now rewrite List.map_app.
    + rewrite errors_app, Herr1. cbn [errors flat_map app]. fold (errors evsn). exact Herr.
    + intros fuel.
      assert (Hne : call :: rest <> []) by discriminate.
      change (S n + fuel) with (S (n + fuel)).
      rewrite (agenticLoop_round (n + fuel) candidate _ w Hcalls Hne).
      rewrite toolRound_unfold, Hfor. cbn [app]. rewrite Hsend. cbn [of_result].
      rewrite Hloop.
      destruct (agenticLoop sendMessage callTool fuel last wn) as [[evs' w'] out].
      rewrite <- !app_assoc. reflexivity.
Qed.

(** The turn up to the round after [n] whole rounds. *)
Lemma turn_after_rounds :
  forall n fuel userInput w candidate0 w0 invoked batches candidate wn,
    sendMessage (UserMessage userInput) w = (Ok candidate0, w0) ->
    rounds sendMessage callTool n candidate0 w0 = Some (invoked, batches, candidate, wn) ->
    exists evsn,
      sent evsn = UserMessage userInput :: List.map ToolResults batches
      /\ tool_calls evsn = List.map request_of invoked
      /\ errors evsn = []
      /\ turn sendMessage callTool (n + fuel) userInput w
         = match agenticLoop sendMessage callTool fuel candidate wn with
           | (evs, w', Thrown err) =>
               ((evsn ++ evs ++ [ConsoleError (error_line err)])%list, w', Returned tt)
           | (evs, w', out) => ((evsn ++ evs)%list, w', out)
           end.
Proof.
  intros n fuel userInput w candidate0 w0 invoked batches candidate wn Hsend Hrounds.
  destruct (rounds_agenticLoop n _ _ _ _ _ _ Hrounds) as (evsn & Hsent & Htools & Herr & Hloop).
  exists (SendMessage (UserMessage userInput) :: evsn). split; [|split; [|split]].
  - cbn [sent flat_map app]. fold (sent evsn). now rewrite Hsent.
  - exact Htools.
  - exact Herr.
  - unfold turn, try_catch, bind, await_sendMessage, emit. rewrite Hsend.
    cbn [of_result]. rewrite Hloop.
    destruct (agenticLoop sendMessage callTool fuel candidate wn) as [[evs w'] [[]|err|]];
      cbn [app]; try reflexivity.
    now rewrite <- app_assoc.
Qed.

(** A call that throws in the round after [n] whole rounds ends the turn:
    nothing more is invoked or sent, and the error is printed. *)
Lemma turn_tool_error :
  forall n fuel userInput w candidate0 w0 invoked batches candidate wn
         done call rest toolResults wa err wb,
    sendMessage (UserMessage userInput) w = (Ok candidate0, w0) ->
    rounds sendMessage callTool n candidate0 w0 = Some (invoked, batches, candidate, wn) ->
    functionCalls candidate = Some (done ++ call :: rest)%list ->
    returned callTool done wn = Some (toolResults, wa) ->
    callTool (call_name call) (call_args call) wa = (Throw err, wb) ->
    exists evs,
      turn sendMessage callTool (n + S fuel) userInput w
      = ((evs ++ [ConsoleError (error_line err)])%list, wb, Returned tt)
      /\ sent evs = UserMessage userInput :: List.map ToolResults batches
      /\ tool_calls evs = List.map request_of (invoked ++ done ++ [call])%list
      /\ errors evs = [].
Proof.
  intros n fuel userInput w candidate0 w0 invoked batches candidate wn
         done call rest toolResults wa err wb Hsend Hrounds Hcalls Hdone Hfail.
  destruct (turn_after_rounds n (S fuel) _ _ _ _ _ _ _ _ Hsend Hrounds)
    as (evsn & Hsent & Htools & Herr & Hturn).
  destruct (failing_forCalls done call rest [] wn toolResults wa err wb Hdone Hfail)
    as (evs & Hfor & Hsent1 & Herr1 & Htools1).
  assert (Hne : (done ++ call :: rest)%list <> []) by (now destruct done).
  rewrite (agenticLoop_round fuel candidate _ wn Hcalls Hne), toolRound_unfold, Hfor in Hturn.
  exists (evsn ++ evs)%list. split; [|split; [|split]].
  - now rewrite Hturn, app_assoc.
  - now rewrite sent_app, Hsent, Hsent1, app_nil_r.
  - rewrite tool_calls_app, Htools, Htools1. symmetry. apply List.map_app.
  - now rewrite errors_app, Herr, Herr1.
Qed.

(** A batch the model refuses in the round after [n] whole rounds ends the
    turn likewise. *)
Lemma turn_batch_error :
  forall n fuel userInput w candidate0 w0 invoked batches candidate wn
         calls toolResults wa err wb,
    sendMessage (UserMessage userInput) w = (Ok candidate0, w0) ->
    rounds sendMessage callTool n candidate0 w0 = Some (invoked, batches, candidate, wn) ->
    functionCalls candidate = Some calls ->
    calls <> [] ->
    returned callTool calls wn = Some (toolResults, wa) ->
    sendMessage (ToolResults (batch calls toolResults)) wa = (Throw err, wb) ->
    exists evs,
      turn sendMessage callTool (n + S fuel) userInput w
      = ((evs ++ [ConsoleError (error_line err)])%list, wb, Returned tt)
      /\ sent evs
         = (UserMessage userInput
            :: List.map ToolResults (batches ++ [batch calls toolResults]))%list
      /\ tool_calls evs = List.map request_of (invoked ++ calls)%list
      /\ errors evs = [].
Proof.
  intros n fuel userInput w candidate0 w0 invoked batches candidate wn
         calls toolResults wa err wb Hsend Hrounds Hcalls Hne Hret Hfail.
  destruct (turn_after_rounds n (S fuel) _ _ _ _ _ _ _ _ Hsend Hrounds)
    as (evsn & Hsent & Htools & Herr & Hturn).
  destruct (returned_forCalls calls [] wn toolResults wa Hret)
    as (evs & Hfor & Hsent1 & Herr1 & Htools1).
  rewrite (agenticLoop_round fuel candidate _ wn Hcalls Hne), toolRound_unfold, Hfor in Hturn.
  cbn [app] in Hturn. rewrite Hfail in Hturn. cbn [of_result] in Hturn.
  exists (evsn ++ evs ++ [SendMessage (ToolResults (batch calls toolResults))])%list.
  split; [|split; [|split]].
  - rewrite Hturn. now rewrite <- !app_assoc.
  - rewrite !sent_app, Hsent, Hsent1. cbn [sent flat_map app].
    now rewrite List.map_app.
  - rewrite !tool_calls_app, Htools, Htools1. cbn [tool_calls flat_map app].
    rewrite app_nil_r. symmetry. apply List.map_app.
  - rewrite !errors_app, Herr, Herr1. reflexivity.
Qed.

End LoopFacts.

(** C2, as the code has it.  Take any tool invocation of the agentic loop,
    in the first round of a turn or after any number of whole rounds, for
    which the dispatcher reports an error, be it an unknown tool, invalid
    input or a division by zero.  Then [mcpClient.callTool] rejects; the
    error is not collected as a result: the calls after it are not
    invoked, no batch is sent for the round, so nothing of it is fed back
    to the model, the turn ends, and the message of the rejection is
    printed for the user on the error console as the last thing the turn
    does. *)
Theorem tool_error_aborts_turn :
  forall (R : Runtime) (env : Weather.Env) (World : Type)
         (sendMessage : Loop.Request -> World -> result string Loop.Response * World)
         (n fuel : nat) (userInput : string) (w w0 wn wa : World)
         (candidate0 candidate : Loop.Response)
         (invoked : list Loop.FunctionCall) (batches : list (list Loop.FunctionResponse))
         (done rest : list Loop.FunctionCall) (call : Loop.FunctionCall)
         (toolResults : list CallToolResult) (e : McpError),
    sendMessage (Loop.UserMessage userInput) w = (Ok candidate0, w0) ->
    Loop.rounds sendMessage (Loop.serverCallTool env) n candidate0 w0
    = Some (invoked, batches, candidate, wn) ->
    Loop.functionCalls candidate = Some (done ++ call :: rest)%list ->
    Loop.returned (Loop.serverCallTool env) done wn = Some (toolResults, wa) ->
    invokeTool env (Loop.call_name call) (Loop.call_args call) = Throw e ->
    Loop.serverCallTool env (Loop.call_name call) (Loop.call_args call) wa
    = (Throw (Loop.rejection e), wa)
    /\ exists evs,
         Loop.turn sendMessage (Loop.serverCallTool env) (n + S fuel) userInput w
         = ((evs ++ [Loop.ConsoleError (Loop.error_line (Loop.rejection e))])%list,
            wa, Loop.Returned tt)
         /\ Loop.sent evs
            = Loop.UserMessage userInput :: List.map Loop.ToolResults batches
         /\ Loop.tool_calls evs
            = List.map Loop.request_of (invoked ++ done ++ [call])%list
         /\ Loop.errors evs = [].
Proof.
  intros R env World sendMessage n fuel userInput w w0 wn wa candidate0 candidate
         invoked batches done rest call toolResults e Hsend Hrounds Hcalls Hdone Hthrow.
  assert (Hfail : Loop.serverCallTool env (Loop.call_name call) (Loop.call_args call) wa
                  = (Throw (Loop.rejection e), wa)).
  { unfold Loop.serverCallTool. now rewrite Hthrow. }
  split; [exact Hfail|].
  exact (turn_tool_error World sendMessage (Loop.serverCallTool env) n fuel userInput
           w candidate0 w0 invoked batches candidate wn done call rest toolResults wa
           (Loop.rejection e) wa Hsend Hrounds Hcalls Hdone Hfail).
Qed.

(** ** The loop against this repository's server *)

Section LoopScenarios.

Import Loop.

(** The scenario of the specification: two calls in one response give one
    follow-up message with two results, in the order requested. *)
Example two_calls_one_batch :
  forall (R : Runtime) (env : Weather.Env),
    exists evs,
      turn scripted (serverCallTool env) 2 "What is 25 x 4, and the weather in Tokyo?"
        [asks [multiply_call; weather_call]; says "100, and 22 degrees."]
      = (evs, [], Returned tt)
      /\ tool_calls evs = [request_of multiply_call; request_of weather_call]
      /\ sent evs
         = [ UserMessage "What is 25 x 4, and the weather in Tokyo?";
             ToolResults
               [ mkFunctionResponse "calculator"
                   (Number_toString 25 ++ " multiply " ++ Number_toString 4
                    ++ " = " ++ Number_toString 100);
                 mkFunctionResponse "get_weather"
                   (JSON_stringify
                      (Weather.weatherReport env (Weather.mkInput "Tokyo" Weather.celsius))
                      2) ] ]
      /\ errors evs = [].
Proof.
  intros R env. eexists. split; [reflexivity|]. repeat split.
Qed.

(** What the client sees of the two errors of the scenarios. *)
Example rejections :
  rejection (mkMcpError MethodNotFound "Unknown tool: calculater")
  = "MCP error -32601: MCP error -32601: Unknown tool: calculater"
  /\ rejection (mkMcpError InvalidParams "Cannot divide by zero")
     = "MCP error -32602: MCP error -32602: Cannot divide by zero".
Proof. split; reflexivity. Qed.

(** C1, as stated, fails.  The model asks for two calls; the first
    returns, the second names no registered tool and throws.  Both requests
    were received and no follow-up message is sent for them. *)
Lemma failed_call_sends_no_batch :
  functionCalls (asks [multiply_call; unknown_call]) = Some [multiply_call; unknown_call]
  /\ forall (R : Runtime) (env : Weather.Env) (w : list Response),
       exists evs,
         toolRound scripted (serverCallTool env) [multiply_call; unknown_call] w
         = (evs, w, Thrown "MCP error -32601: MCP error -32601: Unknown tool: calculater")
         /\ tool_calls evs = [request_of multiply_call; request_of unknown_call]
         /\ sent evs = [].
Proof.
  split; [reflexivity|].
  intros R env w. eexists. split; [reflexivity|]. split; reflexivity.
Qed.

Lemma round_sends_whole_batch_or_nothing_witness :
  functionCalls (asks [multiply_call; weather_call]) = Some [multiply_call; weather_call]
  /\ [multiply_call; weather_call] <> []
  /\ functionCalls (asks [multiply_call; unknown_call]) = Some [multiply_call; unknown_call]
  /\ [multiply_call; unknown_call] <> []
  /\ forall (R : Runtime) (env : Weather.Env) (w : list Response),
       (exists toolResults,
          returned (serverCallTool env) [multiply_call; weather_call] w
          = Some (toolResults, w)
          /\ exists evs r w2,
               scripted (ToolResults (batch [multiply_call; weather_call] toolResults)) w
               = (r, w2)
               /\ toolRound scripted (serverCallTool env) [multiply_call; weather_call] w
                  = ((evs ++ [SendMessage
                                (ToolResults
                                   (batch [multiply_call; weather_call] toolResults))])%list,
                     w2, of_result r)
               /\ tool_calls evs = [request_of multiply_call; request_of weather_call]
               /\ sent evs = []
               /\ length (batch [multiply_call; weather_call] toolResults) = 2
               /\ List.map response_name (batch [multiply_call; weather_call] toolResults)
                  = ["calculator"; "get_weather"])
       /\ (exists toolResults,
             returned (serverCallTool env) [multiply_call] w = Some (toolResults, w)
             /\ serverCallTool env (call_name unknown_call) (call_args unknown_call) w
                = (Throw "MCP error -32601: MCP error -32601: Unknown tool: calculater", w)
             /\ exists evs,
                  toolRound scripted (serverCallTool env) [multiply_call; unknown_call] w
                  = (evs, w,
                     Thrown "MCP error -32601: MCP error -32601: Unknown tool: calculater")
                  /\ agenticLoop scripted (serverCallTool env) 2
                       (asks [multiply_call; unknown_call]) w
                     = (evs, w,
                        Thrown "MCP error -32601: MCP error -32601: Unknown tool: calculater")
                  /\ tool_calls evs = [request_of multiply_call; request_of unknown_call]
                  /\ sent evs = []).
Proof.
  assert (Hne : [multiply_call; weather_call] <> []) by discriminate.
  assert (Hne' : [multiply_call; unknown_call] <> []) by discriminate.
  split; [reflexivity|]. split; [exact Hne|]. split; [reflexivity|]. split; [exact Hne'|].
  intros R env w. split.
  - eexists. split; [reflexivity|].
    destruct (@round_sends_whole_batch_or_nothing R (list Response) scripted
                (serverCallTool env) 1 (asks [multiply_call; weather_call])
                [multiply_call; weather_call] w eq_refl Hne) as (Hwhole & _ & _).
    destruct (Hwhole _ w eq_refl)
      as (evs & r & w2 & Hsend & Hround & Htools & Hsent & Hlen & Hnames & _).
    exists evs, r, w2. repeat split; assumption.
  - eexists. split; [reflexivity|]. split; [reflexivity|].
    destruct (@round_sends_whole_batch_or_nothing R (list Response) scripted
                (serverCallTool env) 1 (asks [multiply_call; unknown_call])
                [multiply_call; unknown_call] w eq_refl Hne') as (_ & Hnone & _).
    exact (Hnone [multiply_call] unknown_call [] _ w _ w eq_refl eq_refl eq_refl).
Defined.

(** C2, as stated, fails.  The model asks to divide by zero and then to
    multiply.  The error of the first call is not fed back: the turn sends
    the model nothing after the user's message, never invokes the second
    call, leaves the model's next response unread, and prints the error. *)
Lemma error_is_not_fed_back :
  exists evs : Runtime -> Weather.Env -> list Event,
    forall (R : Runtime) (env : Weather.Env),
      turn scripted (serverCallTool env) 2 "What is 1 / 0, and 25 x 4?"
        [asks [divide_call; multiply_call]; says "I cannot divide by zero."]
      = (evs R env, [says "I cannot divide by zero."], Returned tt)
      /\ sent (evs R env) = [UserMessage "What is 1 / 0, and 25 x 4?"]
      /\ tool_calls (evs R env) = [request_of divide_call]
      /\ errors (evs R env)
         = [newline
            ++ "❌ Error: MCP error -32602: MCP error -32602: Cannot divide by zero"].
Proof.
  eexists (fun R env => _). intros R env.
  split; [reflexivity|]. repeat split.
Qed.

(** The error of C2 in the second round of a turn: the first round
    multiplies and its batch is sent; the second asks to divide by zero. *)
Lemma tool_error_aborts_turn_witness :
  scripted (UserMessage "What is 25 x 4, and then 1 / 0?")
    [asks [multiply_call]; asks [divide_call; multiply_call]; says "Never read."]
  = (Ok (asks [multiply_call]), [asks [divide_call; multiply_call]; says "Never read."])
  /\ functionCalls (asks [divide_call; multiply_call])
     = Some ([] ++ divide_call :: [multiply_call])%list
  /\ forall (R : Runtime) (env : Weather.Env),
       invokeTool env (call_name divide_call) (call_args divide_call)
       = Throw (mkMcpError InvalidParams "Cannot divide by zero")
       /\ exists first_batch,
            rounds scripted (serverCallTool env) 1 (asks [multiply_call])
              [asks [divide_call; multiply_call]; says "Never read."]
            = Some ([multiply_call], [first_batch], asks [divide_call; multiply_call],
                    [says "Never read."])
            /\ exists evs,
                 turn scripted (serverCallTool env) 2 "What is 25 x 4, and then 1 / 0?"
                   [asks [multiply_call]; asks [divide_call; multiply_call];
                    says "Never read."]
                 = ((evs ++ [ConsoleError
                               (newline
                                ++ "❌ Error: MCP error -32602: MCP error -32602: Cannot divide by zero")])%list,
                    [says "Never read."], Returned tt)
                 /\ sent evs
                    = [UserMessage "What is 25 x 4, and then 1 / 0?"; ToolResults first_batch]
                 /\ tool_calls evs = [request_of multiply_call; request_of divide_call]
                 /\ errors evs = [].
Proof.
  split; [reflexivity|]. split; [reflexivity|].
  intros R env. split; [reflexivity|].
  eexists. split; [reflexivity|].
  exact (proj2
           (@tool_error_aborts_turn R env (list Response) scripted 1 0
              "What is 25 x 4, and then 1 / 0?"
              [asks [multiply_call]; asks [divide_call; multiply_call]; says "Never read."]
              [asks [divide_call; multiply_call]; says "Never read."]
              [says "Never read."] [says "Never read."]
              (asks [multiply_call]) (asks [divide_call; multiply_call])
              [multiply_call] _ [] [multiply_call] divide_call []
              (mkMcpError InvalidParams "Cannot divide by zero")
              eq_refl eq_refl eq_refl eq_refl eq_refl)).
Defined.

End LoopScenarios.

Example store_calculator :
  match Store.store_tool Calculator.calculatorToolDefinition Store.empty_store with
  | Some (tool, h) =>
      Store.read_tool h tool = Some Calculator.calculatorToolDefinition
      /\ match Store.mcpToolToGeminiFn tool h with
         | Some (fn, h') =>
             Store.read_declaration h' fn
             = Some (Translator.mcpToolToGeminiFn Calculator.calculatorToolDefinition)
             /\ Store.read_tool h' tool = Some Calculator.calculatorToolDefinition
         | None => False
         end
  | None => False
  end.
Proof. vm_compute. repeat split. Qed.

(** ** The translator over the store *)

Section StoreFacts.

Import Store.

Lemma deref_some :
  forall h l c, deref h l = Some c <-> l < next h /\ cells h l = Some c.
Proof.
  intros h l c. unfold deref. destruct (Nat.ltb_spec l (next h)); split.
  - auto.
  - now intros [_ Hc].
  - discriminate.
  - intros [Hl _]. lia.
Qed.

Lemma unchanged_refl : forall h, unchanged h h.
Proof. intros h. split; auto. Qed.

Lemma unchanged_trans :
  forall h1 h2 h3, unchanged h1 h2 -> unchanged h2 h3 -> unchanged h1 h3.
Proof.
  intros h1 h2 h3 [Hn1 Hc1] [Hn2 Hc2]. split; [lia|].
  intros l Hl. rewrite Hc2 by lia. now apply Hc1.
Qed.

Lemma unchanged_extend : forall h c, unchanged h (extend h c).
Proof.
  intros h c. split; simpl; [lia|].
  intros l Hl. destruct (Nat.eqb_spec l (next h)); [lia|reflexivity].
Qed.

(** Reading is stable: what a read finds in [h] it finds in every store
    in which [h] is unchanged. *)
Lemma deref_unchanged :
  forall h h' l c, unchanged h h' -> deref h l = Some c -> deref h' l = Some c.
Proof.
  intros h h' l c [Hn Hc] Hd. apply deref_some in Hd as [Hl Hcell].
  apply deref_some. split; [lia|]. now rewrite Hc.
Qed.

Lemma read_object_unchanged :
  forall h h' v o, unchanged h h' -> read_object h v = Some o -> read_object h' v = Some o.
Proof.
  intros h h' v o Hu Hr. unfold read_object in *.
  destruct v; try discriminate.
  destruct (deref h l) as [c|] eqn:Hd; [|discriminate].
  now rewrite (deref_unchanged _ _ _ _ Hu Hd).
Qed.

Lemma read_strings_unchanged :
  forall h h' v xs, unchanged h h' -> read_strings h v = Some xs -> read_strings h' v = Some xs.
Proof.
  intros h h' v xs Hu Hr. unfold read_strings in *.
  destruct v; try discriminate.
  destruct (deref h l) as [c|] eqn:Hd; [|discriminate].
  now rewrite (deref_unchanged _ _ _ _ Hu Hd).
Qed.

Lemma read_optional_stable :
  forall (A : Type) (read read' : jsval -> option A) v o,
    (forall a, read v = Some a -> read' v = Some a) ->
    read_optional read v = Some o -> read_optional read' v = Some o.
Proof.
  intros A read read' v o Hstable Hr. unfold read_optional in *.
  destruct v; auto; destruct (read _) as [a|]; try discriminate;
    now rewrite (Hstable a eq_refl).
Qed.

Lemma read_all_stable :
  forall (A : Type) (read read' : jsval -> option A) fields xs,
    (forall v a, read v = Some a -> read' v = Some a) ->
    read_all read fields = Some xs -> read_all read' fields = Some xs.
Proof.
  intros A read read' fields. induction fields as [|[k v] fields IH]; intros xs Hstable Hr.
  - exact Hr.
  - simpl in *. destruct (read v) as [a|] eqn:Ha; [|discriminate].
    destruct (read_all read fields) as [others|] eqn:Hothers; [|discriminate].
    now rewrite (Hstable _ _ Ha), (IH _ Hstable eq_refl).
Qed.

(** Open the object a successful read went through, in both stores. *)
Ltac open_object h v Hu proto fields :=
  let Ho := fresh "Ho" in
  destruct (read_object h v) as [[proto fields]|] eqn:Ho; [|discriminate];
  rewrite (read_object_unchanged _ _ _ _ Hu Ho).

(** Case on a member that the two reads share. *)
Ltac shared_member t := destruct t; [|discriminate].

(** Case on a member read from the store, and carry it to the other store. *)
Ltac stored_optional_strings h h' Hu fields k :=
  let He := fresh "He" in
  destruct (read_optional (read_strings h) (field fields k)) eqn:He; [|discriminate];
  rewrite (read_optional_stable _ _ (read_strings h') _ _
             (fun a => read_strings_unchanged h h' _ a Hu) He).

Lemma read_property_schema_unchanged :
  forall h h' v p,
    unchanged h h' -> read_property_schema h v = Some p -> read_property_schema h' v = Some p.
Proof.
  intros h h' v p Hu Hr. unfold read_property_schema in *.
  open_object h v Hu proto fields.
  shared_member (read_string (field fields "type")).
  shared_member (read_optional read_string (field fields "description")).
  stored_optional_strings h h' Hu fields "enum".
  exact Hr.
Qed.

Lemma read_entries_unchanged :
  forall h h' v es,
    unchanged h h' -> read_entries h v = Some es -> read_entries h' v = Some es.
Proof.
  intros h h' v es Hu Hr. unfold read_entries in *.
  open_object h v Hu proto fields.
  eapply read_all_stable; [|exact Hr].
  intros v0 a. now apply read_property_schema_unchanged.
Qed.

Lemma read_input_schema_unchanged :
  forall h h' v s,
    unchanged h h' -> read_input_schema h v = Some s -> read_input_schema h' v = Some s.
Proof.
  intros h h' v s Hu Hr. unfold read_input_schema in *.
  open_object h v Hu proto fields.
  destruct (read_optional (read_entries h) (field fields "properties")) eqn:Hp;
    [|discriminate].
  rewrite (read_optional_stable _ _ (read_entries h') _ _
             (fun a => read_entries_unchanged h h' _ a Hu) Hp).
  stored_optional_strings h h' Hu fields "required".
  exact Hr.
Qed.

Lemma read_tool_unchanged :
  forall h h' l t, unchanged h h' -> read_tool h l = Some t -> read_tool h' l = Some t.
Proof.
  intros h h' l t Hu Hr. unfold read_tool in *.
  open_object h (Ref l) Hu proto fields.
  shared_member (read_string (field fields "name")).
  shared_member (read_optional read_string (field fields "description")).
  destruct (read_input_schema h (field fields "inputSchema")) eqn:Hs; [|discriminate].
  now rewrite (read_input_schema_unchanged _ _ _ _ Hu Hs).
Qed.

Lemma read_property_unchanged :
  forall h h' v p, unchanged h h' -> read_property h v = Some p -> read_property h' v = Some p.
Proof.
  intros h h' v p Hu Hr. unfold read_property in *.
  open_object h v Hu proto fields.
  destruct proto; [discriminate|].
  shared_member (read_kind (field fields "type")).
  shared_member (read_string (field fields "description")).
  stored_optional_strings h h' Hu fields "enum".
  exact Hr.
Qed.

Lemma read_properties_unchanged :
  forall h h' v ps,
    unchanged h h' -> read_properties h v = Some ps -> read_properties h' v = Some ps.
Proof.
  intros h h' v ps Hu Hr. unfold read_properties in *.
  open_object h v Hu proto fields.
  assert (Hown : forall own,
            read_all (read_property h) fields = Some own ->
            read_all (read_property h') fields = Some own).
  { intros own. apply read_all_stable. intros v0 a. now apply read_property_unchanged. }
  destruct proto as [lp|].
  - destruct (read_optional (read_property h) (Ref lp)) eqn:Hp; [|discriminate].
    rewrite (read_optional_stable _ _ (read_property h') _ _
               (fun a => read_property_unchanged h h' _ a Hu) Hp).
    destruct (read_all (read_property h) fields) eqn:Ho'; [|discriminate].
    now rewrite (Hown _ eq_refl).
  - destruct (read_all (read_property h) fields) eqn:Ho'; [|discriminate].
    now rewrite (Hown _ eq_refl).
Qed.

Lemma read_parameters_unchanged :
  forall h h' v ps,
    unchanged h h' -> read_parameters h v = Some ps -> read_parameters h' v = Some ps.
Proof.
  intros h h' v ps Hu Hr. unfold read_parameters in *.
  open_object h v Hu proto fields.
  destruct proto; [discriminate|].
  destruct (read_kind (field fields "type")) as [[type|member]|]; try discriminate.
  destruct (read_properties h (field fields "properties")) eqn:Hp; [|discriminate].
  rewrite (read_properties_unchanged _ _ _ _ Hu Hp).
  destruct (read_strings h (field fields "required")) eqn:Hq; [|discriminate].
  now rewrite (read_strings_unchanged _ _ _ _ Hu Hq).
Qed.

Lemma read_declaration_unchanged :
  forall h h' l d,
    unchanged h h' -> read_declaration h l = Some d -> read_declaration h' l = Some d.
Proof.
  intros h h' l d Hu Hr. unfold read_declaration in *.
  open_object h (Ref l) Hu proto fields.
  destruct proto; [discriminate|].
  shared_member (read_string (field fields "name")).
  shared_member (read_string (field fields "description")).
  destruct (read_parameters h (field fields "parameters")) eqn:Hp; [|discriminate].
  now rewrite (read_parameters_unchanged _ _ _ _ Hu Hp).
Qed.

Lemma property_at_stable :
  forall h0 h h' q lo p,
    unchanged_but q h h' -> property_at h0 h q lo p -> property_at h0 h' q lo p.
Proof.
  intros h0 h h' q lo p [Hn Hc] (Hq & Hlo & fields & Hcell & Hrest).
  split; [exact Hq|]. split; [lia|].
  exists fields. split; [|exact Hrest].
  rewrite Hc by lia. exact Hcell.
Qed.

Lemma entries_at_stable :
  forall h0 h h' q fields own,
    unchanged_but q h h' ->
    Forall2 (entry_at h0 h q) fields own -> Forall2 (entry_at h0 h' q) fields own.
Proof.
  intros h0 h h' q fields own Hu Hall.
  induction Hall as [|kv ke fields own [Hk (lo & Hv & Hp)] _ IH]; constructor; auto.
  split; [exact Hk|]. exists lo. split; [exact Hv|].
  eapply property_at_stable; eauto.
Qed.

(** An assignment keeps the two lists of entries aligned. *)
Lemma entries_at_put :
  forall h0 h q fields own key lo p,
    Forall2 (entry_at h0 h q) fields own ->
    property_at h0 h q lo p ->
    Forall2 (entry_at h0 h q) (put key (Ref lo) fields) (put key p own).
Proof.
  intros h0 h q fields own key lo p Hall Hnew.
  assert (Hentry : entry_at h0 h q (key, Ref lo) (key, p)).
  { split; [reflexivity|]. now exists lo. }
  induction Hall as [|[k v] [k' x] fields own [Hk Hrest] Hall IH]; simpl.
  - constructor; [exact Hentry|constructor].
  - simpl in Hk. subst k'.
    destruct (String.eqb_spec key k) as [->|_].
    + constructor; [exact Hentry|exact Hall].
    + constructor; [|exact IH]. split; [reflexivity|exact Hrest].
Qed.

Lemma property_at_read :
  forall h0 h q lo p,
    unchanged h0 h -> property_at h0 h q lo p -> read_property h (Ref lo) = Some p.
Proof.
  intros h0 h q lo p Hu (_ & Hlo & fields & Hcell & Htype & Hdescr & Henum).
  unfold read_property, read_object.
  rewrite (proj2 (deref_some h lo _) (conj Hlo Hcell)).
  rewrite Htype, Hdescr. simpl.
  destruct p as [type description enum]. simpl in *.
  destruct enum as [items|].
  - destruct Henum as (a & -> & Ha). simpl.
    now rewrite (deref_unchanged _ _ _ _ Hu Ha).
  - now rewrite Henum.
Qed.

Lemma entries_at_read :
  forall h0 h q fields own,
    unchanged h0 h ->
    Forall2 (entry_at h0 h q) fields own -> read_all (read_property h) fields = Some own.
Proof.
  intros h0 h q fields own Hu Hall.
  induction Hall as [|[k v] [k' p] fields own [Hk (lo & Hv & Hp)] _ IH]; [reflexivity|].
  simpl in *. subst k' v.
  now rewrite (property_at_read _ _ _ _ _ Hu Hp), IH.
Qed.

Lemma properties_at_read :
  forall h0 h q acc,
    unchanged h0 h -> q < next h -> properties_at h0 h q acc ->
    read_properties h (Ref q) = Some acc.
Proof.
  intros h0 h q acc Hu Hq (proto & fields & Hcell & Hproto & Hown).
  unfold read_properties, read_object.
  rewrite (proj2 (deref_some h q _) (conj Hq Hcell)).
  rewrite (entries_at_read _ _ _ _ _ Hu Hown).
  destruct acc as [aproto aown]. simpl in *.
  destruct proto as [lp|].
  - destruct Hproto as (p & -> & Hp).
    unfold read_optional. now rewrite (property_at_read _ _ _ _ _ Hu Hp).
  - now rewrite Hproto.
Qed.

(** What a successful read of a tool property says about the store. *)
Lemma read_property_schema_inv :
  forall h v p,
    read_property_schema h v = Some p ->
    exists l proto fields,
      v = Ref l
      /\ deref h l = Some (Obj proto fields)
      /\ field fields "type" = Str (prop_type p)
      /\ read_optional read_string (field fields "description") = Some (prop_description p)
      /\ read_optional (read_strings h) (field fields "enum") = Some (prop_enum p).
Proof.
  intros h v p Hr. unfold read_property_schema, read_object in Hr.
  destruct v as [| |t|l]; try discriminate.
  destruct (deref h l) as [[proto fields|items]|] eqn:Hd; try discriminate.
  destruct (field fields "type") as [|type| |] eqn:Htype; try discriminate. simpl in Hr.
  destruct (read_optional read_string (field fields "description")) as [d|] eqn:Hdescr;
    [|discriminate].
  destruct (read_optional (read_strings h) (field fields "enum")) as [e|] eqn:Henum;
    [|discriminate].
  inversion Hr; subst. simpl.
  exists l, proto, fields. repeat split; assumption.
Qed.

Lemma optional_string_or_else :
  forall v o,
    read_optional read_string v = Some o ->
    or_else v (Str "") = Str (Translator.or_else o "").
Proof.
  intros v o Hr. destruct v; simpl in Hr; inversion Hr; reflexivity.
Qed.

Lemma optional_strings_inv :
  forall h v o,
    read_optional (read_strings h) v = Some o ->
    match o with
    | None => v = Undefined
    | Some items => exists a, v = Ref a /\ deref h a = Some (Arr items)
    end.
Proof.
  intros h v o Hr. destruct v as [| | |a]; simpl in Hr; try discriminate.
  - now inversion Hr.
  - destruct (deref h a) as [[proto fields|items]|] eqn:Hd; try discriminate.
    inversion Hr; subst. now exists a.
Qed.

Lemma deref_extend_old :
  forall h c l, l < next h -> deref (extend h c) l = deref h l.
Proof.
  intros h c l Hl. unfold deref. simpl.
  destruct (Nat.ltb_spec l (S (next h))); [|lia].
  destruct (Nat.ltb_spec l (next h)); [|lia].
  destruct (Nat.eqb_spec l (next h)); [lia|reflexivity].
Qed.

Lemma deref_extend_new :
  forall h c, deref (extend h c) (next h) = Some c.
Proof.
  intros h c. unfold deref. simpl.
  destruct (Nat.ltb_spec (next h) (S (next h))); [|lia].
  now rewrite Nat.eqb_refl.
Qed.

Lemma cells_update_same :
  forall h l c, cells (update h l c) l = Some c.
Proof. intros. simpl. now rewrite Nat.eqb_refl. Qed.

Lemma cells_update_other :
  forall h l c l', l' <> l -> cells (update h l c) l' = cells h l'.
Proof. intros h l c l' Hne. simpl. now destruct (Nat.eqb_spec l' l). Qed.

Lemma cells_extend_new :
  forall h c, cells (extend h c) (next h) = Some c.
Proof. intros. simpl. now rewrite Nat.eqb_refl. Qed.

Lemma cells_extend_old :
  forall h c l, l <> next h -> cells (extend h c) l = cells h l.
Proof. intros h c l Hne. simpl. now destruct (Nat.eqb_spec l (next h)). Qed.

(** One iteration of the loop: two allocations, the operand of the spread
    and the new entry, and one assignment, to the properties object. *)
Lemma forEntries_step :
  forall P q pfields key lv rest h vproto vfields type proto fields,
    deref h P = Some (Obj None pfields) ->
    field pfields "properties" = Ref q ->
    deref h lv = Some (Obj vproto vfields) ->
    field vfields "type" = Str type ->
    deref h q = Some (Obj proto fields) ->
    let enum := field vfields "enum" in
    let spread := if truthy enum then [("enum", enum)] else [] in
    let property :=
      Obj None ([ ("type", Kind (Translator.toGeminiSchemaType type));
                  ("description", or_else (field vfields "description") (Str "")) ]
                ++ spread)%list in
    forEntries P ((key, Ref lv) :: rest) h
    = forEntries P rest
        (update (extend (extend h (Obj None spread)) property) q
           (if String.eqb key "__proto__"
            then Obj (Some (S (next h))) fields
            else Obj proto (put key (Ref (S (next h))) fields))).
Proof.
  intros P q pfields key lv rest h vproto vfields type proto fields
         HP Hq Hlv Htype Hcell enum spread property.
  assert (Hq' : q < next h) by (apply deref_some in Hcell; tauto).
  cbn [forEntries]. unfold bind at 1. unfold getprop at 1. rewrite HP, Hq.
  unfold bind at 1. unfold getprop at 1. rewrite Hlv, Htype.
  unfold bind at 1. unfold property_key at 1.
  unfold bind at 1. unfold getprop at 1. rewrite Hlv.
  unfold bind at 1. unfold getprop at 1. rewrite Hlv.
  fold enum. fold spread.
  unfold bind at 1. unfold alloc at 1.
  unfold bind at 1. unfold entries at 1. rewrite deref_extend_new.
  unfold bind at 1. unfold alloc at 1.
  fold property.
  unfold bind at 1. unfold setprop at 1.
  rewrite deref_extend_old by (simpl; lia).
  rewrite deref_extend_old by exact Hq'.
  rewrite Hcell. simpl next.
  destruct (String.eqb key "__proto__"); reflexivity.
Qed.

(** The loop: every iteration changes the properties object and nothing
    else that was there before, and leaves in it what the pure loop
    computes. *)
Lemma forEntries_spec :
  forall (h0 : store) (P q : loc) (pfields : list (string * jsval))
         (es : list (string * jsval)) (pes : list (string * PropertySchema)),
    read_all (read_property_schema h0) es = Some pes ->
    next h0 <= q ->
    q <> P ->
    field pfields "properties" = Ref q ->
    forall (h : store) (acc : Translator.Properties),
      unchanged h0 h ->
      q < next h ->
      deref h P = Some (Obj None pfields) ->
      properties_at h0 h q acc ->
      exists h',
        forEntries P es h = Some (tt, h')
        /\ unchanged_but q h h'
        /\ unchanged h0 h'
        /\ properties_at h0 h' q
             (fold_left
                (fun o kv =>
                   Translator.assign o (fst kv) (Translator.translate_property (snd kv)))
                pes acc).
Proof.
  intros h0 P q pfields es. induction es as [|[key val] rest IH];
    intros pes Hread Hq0 HqP Hprops h acc Hu Hq HP Hacc.
  - simpl in Hread. inversion Hread; subst. simpl.
    exists h. split; [reflexivity|]. split; [split; auto|]. split; assumption.
  - simpl in Hread.
    destruct (read_property_schema h0 val) as [p|] eqn:Hp; [|discriminate].
    destruct (read_all (read_property_schema h0) rest) as [prest|] eqn:Hrest; [|discriminate].
    inversion Hread; subst pes. clear Hread.
    destruct (read_property_schema_inv _ _ _ Hp)
      as (lv & vproto & vfields & -> & Hlv & Htype & Hdescr & Henum).
    destruct Hacc as (proto & fields & Hcell & Hproto & Hown).
    pose proof (deref_unchanged _ _ _ _ Hu Hlv) as Hlv'.
    pose proof (proj2 (deref_some h q _) (conj Hq Hcell)) as Hderef.
    rewrite (forEntries_step P q pfields key lv rest h vproto vfields (prop_type p)
               proto fields HP Hprops Hlv' Htype Hderef).
    set (enum := field vfields "enum") in *.
    set (spread := if truthy enum then [("enum", enum)] else []).
    set (property :=
           Obj None ([ ("type", Kind (Translator.toGeminiSchemaType (prop_type p)));
                       ("description", or_else (field vfields "description") (Str "")) ]
                     ++ spread)%list).
    set (cell' := if String.eqb key "__proto__"
                  then Obj (Some (S (next h))) fields
                  else Obj proto (put key (Ref (S (next h))) fields)).
    set (h1 := update (extend (extend h (Obj None spread)) property) q cell').
    assert (Hnext : next h1 = S (S (next h))) by reflexivity.
    assert (Hbut : unchanged_but q h h1).
    { split; [rewrite Hnext; lia|]. intros l Hl Hne. unfold h1.
      rewrite cells_update_other by exact Hne.
      rewrite cells_extend_old by (simpl; lia).
      now rewrite cells_extend_old by lia. }
    assert (Hu1 : unchanged h0 h1).
    { destruct Hu as [Hn Hc]. split; [rewrite Hnext; lia|].
      intros l Hl. destruct Hbut as [_ Hbut]. rewrite Hbut by lia. now apply Hc. }
    assert (HP1 : deref h1 P = Some (Obj None pfields)).
    { apply deref_some in HP as [HPn HPc]. apply deref_some.
      split; [rewrite Hnext; lia|]. destruct Hbut as [_ Hbut]. rewrite Hbut; auto. }
    assert (Hnew : property_at h0 h1 q (S (next h)) (Translator.translate_property p)).
    { split; [lia|]. split; [rewrite Hnext; lia|].
      exists ([ ("type", Kind (Translator.toGeminiSchemaType (prop_type p)));
                ("description", or_else (field vfields "description") (Str "")) ]
              ++ spread)%list.
      split.
      { unfold h1. rewrite cells_update_other by lia.
        exact (cells_extend_new (extend h (Obj None spread)) property). }
      split; [reflexivity|].
      split; [simpl; unfold field at 1; simpl; now apply optional_string_or_else|].
      pose proof (optional_strings_inv _ _ _ Henum) as Hinv. fold enum in Hinv.
      simpl. destruct (prop_enum p) as [items|].
      - destruct Hinv as (a & Ha & Harr). exists a. split; [|exact Harr].
        unfold spread. rewrite Ha. reflexivity.
      - unfold spread. rewrite Hinv. reflexivity. }
    assert (Hacc1 : properties_at h0 h1 q
                      (Translator.assign acc key (Translator.translate_property p))).
    { assert (Hcell1 : cells h1 q = Some cell') by apply cells_update_same.
      unfold Translator.assign, cell' in *.
      destruct (String.eqb key "__proto__").
      - exists (Some (S (next h))), fields. split; [exact Hcell1|]. split.
        + exists (Translator.translate_property p). split; [reflexivity|exact Hnew].
        + simpl. eapply entries_at_stable; eauto.
      - exists proto, (put key (Ref (S (next h))) fields). split; [exact Hcell1|]. split.
        + simpl. destruct proto as [lp|]; [|exact Hproto].
          destruct Hproto as (pp & Hpp & Hat). exists pp. split; [exact Hpp|].
          eapply property_at_stable; eauto.
        + simpl. apply entries_at_put; [|exact Hnew].
          eapply entries_at_stable; eauto. }
    destruct (IH prest eq_refl Hq0 HqP Hprops h1
                (Translator.assign acc key (Translator.translate_property p))
                Hu1 ltac:(rewrite Hnext; lia) HP1 Hacc1)
      as (h' & Hrun & Hbut' & Hu' & Hat').
    exists h'. split; [exact Hrun|]. split; [|split; [exact Hu'|exact Hat']].
    destruct Hbut as [Hn1 Hc1]. destruct Hbut' as [Hn2 Hc2].
    split; [lia|]. intros l Hl Hne. rewrite Hc2 by (auto; lia). now apply Hc1.
Qed.

Lemma read_tool_inv :
  forall h tool t,
    read_tool h tool = Some t ->
    exists tproto tfields ls sproto sfields,
      deref h tool = Some (Obj tproto tfields)
      /\ field tfields "name" = Str (Mcp.name t)
      /\ read_optional read_string (field tfields "description") = Some (Mcp.description t)
      /\ field tfields "inputSchema" = Ref ls
      /\ deref h ls = Some (Obj sproto sfields)
      /\ read_optional (read_entries h) (field sfields "properties")
         = Some (Mcp.properties (Mcp.inputSchema t))
      /\ read_optional (read_strings h) (field sfields "required")
         = Some (Mcp.required (Mcp.inputSchema t)).
Proof.
  intros h tool t Hr. unfold read_tool, read_object in Hr.
  destruct (deref h tool) as [[tproto tfields|items]|] eqn:Htool; try discriminate.
  destruct (field tfields "name") as [|name| |] eqn:Hname; try discriminate. simpl in Hr.
  destruct (read_optional read_string (field tfields "description")) as [d|] eqn:Hdescr;
    [|discriminate].
  unfold read_input_schema, read_object in Hr.
  destruct (field tfields "inputSchema") as [| | |ls] eqn:Hschema; try discriminate.
  destruct (deref h ls) as [[sproto sfields|items]|] eqn:Hls; try discriminate.
  destruct (read_optional (read_entries h) (field sfields "properties")) as [ps|] eqn:Hps;
    [|discriminate].
  destruct (read_optional (read_strings h) (field sfields "required")) as [rq|] eqn:Hrq;
    [|discriminate].
  inversion Hr; subst. simpl.
  exists tproto, tfields, ls, sproto, sfields. repeat split; assumption.
Qed.

Lemma deref_unchanged_but :
  forall q h h' l c,
    unchanged_but q h h' -> l <> q -> deref h l = Some c -> deref h' l = Some c.
Proof.
  intros q h h' l c [Hn Hc] Hne Hd. apply deref_some in Hd as [Hl Hcell].
  apply deref_some. split; [lia|]. now rewrite Hc.
Qed.

(** [schema.required ?? []]: the array of the schema itself, or a fresh
    empty one. *)
Lemma required_or_empty :
  forall h h1 q v req,
    unchanged h h1 ->
    next h <= q -> q < next h1 ->
    read_optional (read_strings h) v = Some req ->
    exists ra h2,
      (if nullish v then fresh <- alloc (Arr []) ;; ret (Ref fresh) else ret v) h1
      = Some (Ref ra, h2)
      /\ unchanged h1 h2
      /\ ra <> q
      /\ deref h2 ra = Some (Arr (Translator.or_else req [])).
Proof.
  intros h h1 q v req Hu Hq Hq1 Hread.
  pose proof (optional_strings_inv _ _ _ Hread) as Hinv.
  destruct req as [items|].
  - destruct Hinv as (a & -> & Ha). simpl.
    exists a, h1. split; [reflexivity|]. split; [apply unchanged_refl|].
    split; [apply deref_some in Ha; lia|].
    eapply deref_unchanged; eauto.
  - subst v. simpl. unfold bind, alloc, ret.
    exists (next h1), (extend h1 (Arr [])). split; [reflexivity|].
    split; [apply unchanged_extend|]. split; [lia|apply deref_extend_new].
Qed.

(** The [if (schema.properties)] with its loop. *)
Lemma properties_loop :
  forall h h3 P q pfields v props,
    unchanged h h3 ->
    next h <= q -> q < next h3 -> q <> P ->
    deref h3 P = Some (Obj None pfields) ->
    field pfields "properties" = Ref q ->
    cells h3 q = Some (Obj None []) ->
    read_optional (read_entries h) v = Some props ->
    exists h4,
      (if truthy v then es <- entries v ;; forEntries P es else ret tt) h3 = Some (tt, h4)
      /\ unchanged_but q h3 h4
      /\ unchanged h h4
      /\ properties_at h h4 q
           (match props with
            | Some es => Translator.translate_properties es
            | None => Translator.empty
            end).
Proof.
  intros h h3 P q pfields v props Hu Hq Hq3 HqP HP Hprops Hcell Hread.
  assert (Hempty : properties_at h h3 q Translator.empty).
  { exists None, []. split; [exact Hcell|]. split; [reflexivity|constructor]. }
  destruct v as [| | |lp]; simpl in Hread; try discriminate.
  - inversion Hread; subst. simpl. exists h3.
    split; [reflexivity|]. split; [split; auto|]. split; assumption.
  - unfold read_entries, read_object in Hread.
    destruct (deref h lp) as [[eproto efields|items]|] eqn:Hlp; try discriminate.
    destruct (read_all (read_property_schema h) efields) as [pes|] eqn:Hall; [|discriminate].
    inversion Hread; subst. change (truthy (Ref lp)) with true.
    unfold bind at 1. unfold entries at 1. cbv beta iota.
    rewrite (deref_unchanged _ _ _ _ Hu Hlp).
    exact (forEntries_spec h P q pfields efields pes Hall Hq HqP Hprops h3 Translator.empty
             Hu Hq3 HP Hempty).
Qed.

Lemma translator_refines :
  forall h tool t,
    read_tool h tool = Some t ->
    exists fn h',
      mcpToolToGeminiFn tool h = Some (fn, h')
      /\ unchanged h h'
      /\ next h <= fn
      /\ read_declaration h' fn = Some (Translator.mcpToolToGeminiFn t).
Proof.
  intros h tool t Hr.
  destruct (read_tool_inv _ _ _ Hr)
    as (tproto & tfields & ls & sproto & sfields
        & Htool & Hname & Hdescr & Hschema & Hls & Hprops & Hreq).
  set (q := next h).
  set (h1 := extend h (Obj None [])).
  assert (Hu1 : unchanged h h1) by apply unchanged_extend.
  destruct (required_or_empty h h1 q _ _ Hu1 (Nat.le_refl _) ltac:(simpl; lia) Hreq)
    as (ra & h2 & Hrun2 & Hu12 & Hraq & Hra).
  set (pfields := [ ("type", Kind (Translator.Tag Translator.OBJECT));
                    ("properties", Ref q); ("required", Ref ra) ]).
  set (P := next h2).
  set (h3 := extend h2 (Obj None pfields)).
  assert (Hu3 : unchanged h h3).
  { eapply unchanged_trans; [exact Hu1|].
    eapply unchanged_trans; [exact Hu12|apply unchanged_extend]. }
  assert (Hq2 : q < next h2) by (destruct Hu12 as [Hn _]; simpl in Hn; lia).
  assert (Hcell3 : cells h3 q = Some (Obj None [])).
  { unfold h3. rewrite cells_extend_old by lia.
    destruct Hu12 as [_ Hc]. rewrite Hc by (simpl; lia). apply cells_extend_new. }
  destruct (properties_loop h h3 P q pfields _ _ Hu3 (Nat.le_refl _)
              ltac:(simpl; lia) ltac:(unfold P; lia) (deref_extend_new h2 _) eq_refl
              Hcell3 Hprops)
    as (h4 & Hrun4 & Hbut & Hu4 & Hat).
  set (fields := [ ("name", Str (Mcp.name t));
                   ("description", Str (Translator.or_else (Mcp.description t) ""));
                   ("parameters", Ref P) ]).
  exists (next h4), (extend h4 (Obj None fields)).
  assert (Hn34 : next h3 <= next h4) by (destruct Hbut; assumption).
  assert (Hu5 : unchanged h4 (extend h4 (Obj None fields))) by apply unchanged_extend.
  split; [|split; [|split]].
  - unfold mcpToolToGeminiFn.
    unfold bind at 1. unfold getprop at 1. rewrite Htool, Hschema.
    unfold bind at 1. unfold alloc at 1. fold q. fold h1.
    unfold bind at 1. unfold getprop at 1.
    rewrite (deref_unchanged _ _ _ _ Hu1 Hls).
    unfold bind at 1. rewrite Hrun2.
    unfold bind at 1. unfold alloc at 1. fold pfields. fold P. fold h3.
    unfold bind at 1. unfold getprop at 1.
    rewrite (deref_unchanged _ _ _ _ Hu3 Hls).
    unfold bind at 1. rewrite Hrun4.
    unfold bind at 1. unfold getprop at 1.
    rewrite (deref_unchanged _ _ _ _ Hu4 Htool), Hname.
    unfold bind at 1. unfold getprop at 1.
    rewrite (deref_unchanged _ _ _ _ Hu4 Htool).
    rewrite (optional_string_or_else _ _ Hdescr).
    reflexivity.
  - eapply unchanged_trans; [exact Hu4|exact Hu5].
  - destruct Hu4 as [Hn _]. exact Hn.
  - assert (HP4 : deref h4 P = Some (Obj None pfields)).
    { eapply deref_unchanged_but; [exact Hbut|unfold P; lia|apply deref_extend_new]. }
    assert (Hprops4 : read_properties h4 (Ref q)
                      = Some (match Mcp.properties (Mcp.inputSchema t) with
                              | Some es => Translator.translate_properties es
                              | None => Translator.empty
                              end)).
    { assert (Hn3 : next h3 = S (next h2)) by reflexivity.
      apply (properties_at_read h h4 q _ Hu4); [lia|exact Hat]. }
    assert (Hra4 : deref h4 ra = Some (Arr (Translator.or_else (Mcp.required (Mcp.inputSchema t)) []))).
    { eapply deref_unchanged_but; [exact Hbut|exact Hraq|].
      eapply deref_unchanged; [apply unchanged_extend|exact Hra]. }
    unfold read_declaration, read_object.
    rewrite deref_extend_new.
    change (field fields "name") with (Str (Mcp.name t)).
    change (field fields "description")
      with (Str (Translator.or_else (Mcp.description t) "")).
    change (field fields "parameters") with (Ref P).
    cbn [read_string].
    unfold read_parameters, read_object.
    rewrite (deref_unchanged _ _ _ _ Hu5 HP4).
    change (field pfields "type") with (Kind (Translator.Tag Translator.OBJECT)).
    change (field pfields "properties") with (Ref q).
    change (field pfields "required") with (Ref ra).
    cbn [read_kind].
    rewrite (read_properties_unchanged _ _ _ _ Hu5 Hprops4).
    unfold read_strings.
    rewrite (deref_unchanged _ _ _ _ Hu5 Hra4).
    reflexivity.
Qed.

Lemma assoc_cons_other :
  forall (A : Type) (k k' : string) (a : A) (o : list (string * A)),
    k <> k' -> assoc k ((k', a) :: o) = assoc k o.
Proof.
  intros A k k' a o Hne. cbn [assoc]. now destruct (String.eqb_spec k k').
Qed.

Lemma assoc_app :
  forall (A : Type) (k : string) (o o' : list (string * A)),
    assoc k (o ++ o')%list
    = match assoc k o with
      | Some a => Some a
      | None => assoc k o'
      end.
Proof.
  intros A k o o'. induction o as [|[k' a] o IH]; [reflexivity|].
  cbn [app assoc]. now destruct (String.eqb k k').
Qed.

(** *** Every tool can be held in a store *)

Lemma store_strings_reads :
  forall items h,
    exists v h',
      store_strings items h = Some (v, h')
      /\ unchanged h h'
      /\ read_strings h' v = Some items.
Proof.
  intros items h. exists (Ref (next h)), (extend h (Arr items)).
  split; [reflexivity|]. split; [apply unchanged_extend|].
  unfold read_strings. now rewrite deref_extend_new.
Qed.

Lemma store_property_schema_reads :
  forall p h,
    exists v h',
      store_property_schema p h = Some (v, h')
      /\ unchanged h h'
      /\ read_property_schema h' v = Some p.
Proof.
  intros [type [d|] [items|]] h;
    (eexists; eexists; split; [reflexivity|]; split;
     [repeat (eapply unchanged_trans; [|apply unchanged_extend]); apply unchanged_refl|]);
    unfold read_property_schema, read_object; rewrite deref_extend_new; simpl;
    try (unfold read_strings;
         rewrite deref_extend_old by (simpl; lia);
         rewrite deref_extend_new);
    reflexivity.
Qed.

Lemma store_all_reads :
  forall ps h,
    exists fields h',
      store_all ps h = Some (fields, h')
      /\ unchanged h h'
      /\ read_all (read_property_schema h') fields = Some ps.
Proof.
  induction ps as [|[k p] ps IH]; intros h.
  - exists [], h. split; [reflexivity|]. split; [apply unchanged_refl|reflexivity].
  - destruct (store_property_schema_reads p h) as (v & h1 & Hrun1 & Hu1 & Hread1).
    destruct (IH h1) as (fields & h2 & Hrun2 & Hu2 & Hread2).
    exists ((k, v) :: fields), h2. split.
    + simpl. unfold bind at 1. rewrite Hrun1. unfold bind at 1. rewrite Hrun2. reflexivity.
    + split; [eapply unchanged_trans; eauto|].
      simpl. now rewrite (read_property_schema_unchanged _ _ _ _ Hu2 Hread1), Hread2.
Qed.

Lemma store_entries_reads :
  forall ps h,
    exists v h',
      store_entries ps h = Some (v, h')
      /\ unchanged h h'
      /\ read_entries h' v = Some ps.
Proof.
  intros ps h. destruct (store_all_reads ps h) as (fields & h1 & Hrun & Hu & Hread).
  exists (Ref (next h1)), (extend h1 (Obj None fields)). split.
  - unfold store_entries. unfold bind at 1. rewrite Hrun. reflexivity.
  - split; [eapply unchanged_trans; [exact Hu|apply unchanged_extend]|].
    unfold read_entries, read_object. rewrite deref_extend_new.
    eapply read_all_stable; [|exact Hread].
    intros v a. apply read_property_schema_unchanged, unchanged_extend.
Qed.

Lemma store_input_schema_reads :
  forall s h,
    exists v h',
      store_input_schema s h = Some (v, h')
      /\ unchanged h h'
      /\ read_input_schema h' v = Some s.
Proof.
  intros [properties required] h. unfold store_input_schema. simpl.
  assert (Hprops : exists fs h1,
            optional_field "properties" store_entries properties h = Some (fs, h1)
            /\ unchanged h h1
            /\ assoc "required" fs = None
            /\ assoc "type" fs = None
            /\ read_optional (read_entries h1) (field fs "properties") = Some properties).
  { destruct properties as [ps|]; simpl.
    - destruct (store_entries_reads ps h) as (v & h1 & Hrun & Hu & Hread).
      exists [("properties", v)], h1. unfold bind. rewrite Hrun.
      repeat split; auto; try apply Hu.
      unfold field. simpl. unfold read_optional. rewrite Hread.
      unfold read_entries, read_object in Hread. destruct v; try discriminate. reflexivity.
    - exists [], h. repeat split; auto. }
  destruct Hprops as (fs & h1 & Hrun1 & Hu1 & Hnoreq & Hnotype & Hread1).
  assert (Hreq : exists fr h2,
            optional_field "required" store_strings required h1 = Some (fr, h2)
            /\ unchanged h1 h2
            /\ assoc "properties" fr = None
            /\ read_optional (read_strings h2) (field fr "required") = Some required).
  { destruct required as [items|]; simpl.
    - exists [("required", Ref (next h1))], (extend h1 (Arr items)).
      split; [reflexivity|]. split; [apply unchanged_extend|]. split; [reflexivity|].
      unfold field. simpl. unfold read_strings. now rewrite deref_extend_new.
    - exists [], h1. repeat split; auto. }
  destruct Hreq as (fr & h2 & Hrun2 & Hu2 & Hnoprops & Hread2).
  exists (Ref (next h2)), (extend h2 (Obj None ([("type", Str "object")] ++ fs ++ fr)%list)).
  split.
  - unfold bind at 1. rewrite Hrun1. unfold bind at 1. rewrite Hrun2. reflexivity.
  - split.
    + eapply unchanged_trans; [exact Hu1|].
      eapply unchanged_trans; [exact Hu2|apply unchanged_extend].
    + unfold read_input_schema, read_object. rewrite deref_extend_new.
      assert (Hfp : field ([("type", Str "object")] ++ fs ++ fr)%list "properties"
                    = field fs "properties").
      { unfold field. cbn [app]. rewrite assoc_cons_other by discriminate.
        rewrite assoc_app. destruct (assoc "properties" fs); [reflexivity|].
        now rewrite Hnoprops. }
      assert (Hfr : field ([("type", Str "object")] ++ fs ++ fr)%list "required"
                    = field fr "required").
      { unfold field. cbn [app]. rewrite assoc_cons_other by discriminate.
        now rewrite assoc_app, Hnoreq. }
      rewrite Hfp, Hfr.
      rewrite (read_optional_stable _ _ (read_entries (extend h2 _)) _ _
                 (fun a => read_entries_unchanged h1 _ _ a
                             (unchanged_trans _ _ _ Hu2 (unchanged_extend h2 _))) Hread1).
      rewrite (read_optional_stable _ _ (read_strings (extend h2 _)) _ _
                 (fun a => read_strings_unchanged h2 _ _ a (unchanged_extend h2 _)) Hread2).
      reflexivity.
Qed.

(** Whatever the tool and the store, the tool can be put in the store, and
    is then read back from it. *)
Lemma store_tool_reads :
  forall t h,
    exists tool h',
      store_tool t h = Some (tool, h')
      /\ unchanged h h'
      /\ read_tool h' tool = Some t.
Proof.
  intros [name description schema] h. unfold store_tool. simpl.
  destruct (store_input_schema_reads schema h) as (v & h1 & Hrun & Hu & Hread).
  assert (Hv : exists l, v = Ref l).
  { unfold read_input_schema, read_object in Hread. destruct v; try discriminate. eauto. }
  destruct Hv as [ls ->].
  destruct description as [d|]; simpl;
    (eexists; eexists; split;
     [unfold bind at 1; simpl; unfold bind at 1; rewrite Hrun; reflexivity|]);
    (split; [eapply unchanged_trans; [exact Hu|apply unchanged_extend]|]);
    unfold read_tool, read_object; rewrite deref_extend_new; simpl;
    rewrite (read_input_schema_unchanged _ _ _ _ (unchanged_extend h1 _) Hread);
    reflexivity.
Qed.

(** C8.  Translating a tool has no side effect and gives the same
    declaration each time.  Whatever store holds the tool, the translator
    returns; nothing that was allocated before the call has changed after
    it, so the tool is still the same tool; a second call on the same tool
    returns a second object, and the two objects read back as one and the
    same declaration, the one the function [Translator.mcpToolToGeminiFn]
    gives. *)
Theorem translator_is_pure :
  forall (h : store) (tool : loc) (t : Tool),
    read_tool h tool = Some t ->
    exists fn h1 fn' h2,
      mcpToolToGeminiFn tool h = Some (fn, h1)
      /\ mcpToolToGeminiFn tool h1 = Some (fn', h2)
      /\ unchanged h h1
      /\ unchanged h1 h2
      /\ read_tool h2 tool = Some t
      /\ fn <> fn'
      /\ read_declaration h2 fn = Some (Translator.mcpToolToGeminiFn t)
      /\ read_declaration h2 fn' = Some (Translator.mcpToolToGeminiFn t).
Proof.
  intros h tool t Hr.
  destruct (translator_refines h tool t Hr) as (fn & h1 & Hrun1 & Hu1 & Hfresh1 & Hd1).
  pose proof (read_tool_unchanged _ _ _ _ Hu1 Hr) as Hr1.
  destruct (translator_refines h1 tool t Hr1) as (fn' & h2 & Hrun2 & Hu2 & Hfresh2 & Hd2).
  exists fn, h1, fn', h2.
  repeat (split; [assumption|]).
  split; [now apply read_tool_unchanged with h1|].
  split.
  - assert (Hfn : fn < next h1).
    { unfold read_declaration, read_object in Hd1.
      destruct (deref h1 fn) eqn:Hd; [|discriminate].
      apply deref_some in Hd. tauto. }
    lia.
  - split; [now apply read_declaration_unchanged with h1|assumption].
Qed.

End StoreFacts.

Lemma translator_is_pure_witness :
  exists (tool : Store.loc) (h : Store.store),
    Store.store_tool Calculator.calculatorToolDefinition Store.empty_store = Some (tool, h)
    /\ Store.read_tool h tool = Some Calculator.calculatorToolDefinition
    /\ exists fn h1 fn' h2,
         Store.mcpToolToGeminiFn tool h = Some (fn, h1)
         /\ Store.mcpToolToGeminiFn tool h1 = Some (fn', h2)
         /\ Store.unchanged h h1
         /\ Store.unchanged h1 h2
         /\ Store.read_tool h2 tool = Some Calculator.calculatorToolDefinition
         /\ fn <> fn'
         /\ Store.read_declaration h2 fn
            = Some (Translator.mcpToolToGeminiFn Calculator.calculatorToolDefinition)
         /\ Store.read_declaration h2 fn'
            = Some (Translator.mcpToolToGeminiFn Calculator.calculatorToolDefinition).
Proof.
  eexists. eexists. split; [reflexivity|].
  split; [reflexivity|].
  apply translator_is_pure. reflexivity.
Defined.

(* ================================================================== *)
(** * Part III.  The resources, the prompts and the chat               *)
(* ================================================================== *)

(** ** Notes and the resource handlers *)

Section NotesFacts.

Import Notes Handlers.

Lemma strip_prefix_app :
  forall prefix rest : string, strip_prefix prefix (prefix ++ rest) = Some rest.
Proof.
  induction prefix as [|c prefix IH]; intros rest; simpl; [reflexivity|].
  now rewrite Ascii.eqb_refl.
Qed.

Lemma strip_prefix_inv :
  forall prefix s rest : string, strip_prefix prefix s = Some rest -> s = prefix ++ rest.
Proof.
  induction prefix as [|c prefix IH]; intros s rest Hs; simpl in Hs.
  - now inversion Hs.
  - destruct s as [|d s]; [discriminate|].
    destruct (Ascii.eqb_spec c d) as [->|_]; [|discriminate].
    simpl. now rewrite (IH _ _ Hs).
Qed.

(** The regular expression [/^notes:\/\/(\d+)$/], said in words. *)
Lemma match_note_uri_spec :
  forall uri digits : string,
    match_note_uri uri = Some digits
    <-> uri = "notes://" ++ digits /\ all_digits digits = true /\ digits <> "".
Proof.
  intros uri digits. unfold match_note_uri. split.
  - destruct (strip_prefix "notes://" uri) as [ds|] eqn:Hs; [|discriminate].
    destruct (all_digits ds) eqn:Hd; [|discriminate].
    destruct (String.eqb_spec ds "") as [->|Hne]; [discriminate|].
    cbn [andb negb]. intros H. inversion H; subst.
    split; [exact (strip_prefix_inv _ _ _ Hs)|]. split; assumption.
  - intros (-> & Hd & Hne). rewrite strip_prefix_app, Hd.
    destruct (String.eqb_spec digits ""); [contradiction|reflexivity].
Qed.

Lemma strip_prefix_prefix :
  forall prefix s : string,
    String.prefix prefix s = true <-> exists rest, strip_prefix prefix s = Some rest.
Proof.
  induction prefix as [|c prefix IH]; intros s.
  - split; [intros _; now exists s|intros _; now destruct s].
  - destruct s as [|d s]; simpl.
    + split; [discriminate|intros [rest Hr]; discriminate].
    + destruct (Ascii.eqb_spec c d) as [->|Hne].
      * destruct (ascii_dec d d) as [_|Hdd]; [apply IH|now destruct Hdd].
      * destruct (ascii_dec c d) as [Hcd|_]; [contradiction|].
        split; [discriminate|intros [rest Hr]; discriminate].
Qed.

Lemma digits_are_not_all :
  forall digits : string,
    all_digits digits = true -> String.eqb ("notes://" ++ digits) "notes://all" = false.
Proof.
  intros digits Hd. destruct digits as [|c digits]; [reflexivity|].
  simpl in Hd. apply andb_prop in Hd as [Hc _].
  destruct (String.eqb_spec ("notes://" ++ String c digits) "notes://all") as [Heq|]; [|reflexivity].
  inversion Heq; subst. discriminate Hc.
Qed.

Lemma find_in_store :
  forall (wanted : float) (note : Note),
    find (fun n => PrimFloat.eqb (id n) wanted) notesStore = Some note ->
    In note notesStore /\ PrimFloat.eqb (id note) wanted = true.
Proof. intros wanted note Hf. now apply find_some in Hf. Qed.

(** Every case of [readNoteResource]. *)
Lemma readNoteResource_cases :
  forall (R : Runtime) (uri : string),
    (uri = "notes://all" /\ readNoteResource uri = Ok (single uri summary_text))
    \/ (exists digits note,
          uri = "notes://" ++ digits
          /\ all_digits digits = true
          /\ digits <> ""
          /\ In note notesStore
          /\ PrimFloat.eqb (id note) (parseInt digits) = true
          /\ readNoteResource uri = Ok (single uri (note_text note)))
    \/ (exists digits,
          uri = "notes://" ++ digits
          /\ all_digits digits = true
          /\ digits <> ""
          /\ (forall note, In note notesStore ->
                PrimFloat.eqb (id note) (parseInt digits) = false)
          /\ readNoteResource uri
             = Throw ("Note with ID " ++ Number_toString (parseInt digits) ++ " not found"))
    \/ (uri <> "notes://all"
        /\ (forall digits,
              uri = "notes://" ++ digits -> all_digits digits = true -> digits = "")
        /\ readNoteResource uri = Throw ("Unknown resource URI: " ++ uri)).
Proof.
  intros R uri. unfold readNoteResource.
  destruct (String.eqb_spec uri "notes://all") as [->|Hne]; [now left|]. right.
  destruct (match_note_uri uri) as [digits|] eqn:Hm.
  - apply match_note_uri_spec in Hm as (Huri & Hd & Hnonempty).
    cbv zeta.
    destruct (find (fun n => PrimFloat.eqb (id n) (parseInt digits)) notesStore)
      as [note|] eqn:Hf.
    + apply find_in_store in Hf as [Hin Heq].
      left. exists digits, note. repeat split; assumption.
    + right. left. exists digits. repeat split; try assumption.
      intros note Hin. exact (find_none _ _ Hf note Hin).
  - right. right. split; [exact Hne|]. split; [|reflexivity].
    intros digits Huri Hd.
    destruct (String.eqb_spec digits "") as [He|Hnonempty]; [exact He|].
    assert (Hsome : match_note_uri uri = Some digits)
      by (apply match_note_uri_spec; repeat split; assumption).
    rewrite Hm in Hsome. discriminate.
Qed.

(** X1.  A read that succeeds returns exactly one content, of type
    text/plain, under the URI that was asked for; the URI is [notes://all]
    and the text is the summary, or the URI is [notes://] followed by one
    or more digits, the text is that of a stored note, and the number the
    digits denote is the id of that note. *)
Theorem note_read_success :
  forall (R : Runtime) (uri : string) (r : ReadResourceResult),
    readNoteResource uri = Ok r ->
    exists text : string,
      r = mkReadResourceResult [mkContents uri "text/plain" text]
      /\ (uri = "notes://all" /\ text = summary_text
          \/ exists digits note,
               uri = "notes://" ++ digits
               /\ all_digits digits = true
               /\ digits <> ""
               /\ In note notesStore
               /\ PrimFloat.eqb (id note) (parseInt digits) = true
               /\ text = note_text note).
Proof.
  intros R uri r Hr.
  destruct (readNoteResource_cases R uri)
    as [(Hall & Hread)
       |[(digits & note & Huri & Hd & Hne & Hin & Heq & Hread)
        |[(digits & _ & _ & _ & _ & Hread)|(_ & _ & Hread)]]];
    rewrite Hread in Hr; try discriminate; inversion Hr; subst r.
  - exists summary_text. split; [reflexivity|]. now left.
  - exists (note_text note). split; [reflexivity|].
    right. exists digits, note. repeat split; assumption.
Qed.

(** X2.  A read that fails has one of two messages.  For [notes://]
    followed by one or more digits that denote the id of no stored note it
    is "Note with ID n not found", with n the number as the runtime prints
    it.  For every other URI, among them [notes://] alone, a sign, a
    letter after the digits or another capitalisation, it is "Unknown
    resource URI: " followed by the URI. *)
Theorem note_read_failure :
  forall (R : Runtime) (uri message : string),
    readNoteResource uri = Throw message ->
    (exists digits,
       uri = "notes://" ++ digits
       /\ all_digits digits = true
       /\ digits <> ""
       /\ (forall note, In note notesStore -> PrimFloat.eqb (id note) (parseInt digits) = false)
       /\ message = "Note with ID " ++ Number_toString (parseInt digits) ++ " not found")
    \/ (uri <> "notes://all"
        /\ (forall digits,
              uri = "notes://" ++ digits -> all_digits digits = true -> digits = "")
        /\ message = "Unknown resource URI: " ++ uri).
Proof.
  intros R uri message Hr.
  destruct (readNoteResource_cases R uri)
    as [(Hall & Hread)
       |[(digits & note & _ & _ & _ & _ & _ & Hread)
        |[(digits & Huri & Hd & Hne & Hnone & Hread)|(Hne & Hshape & Hread)]]];
    rewrite Hread in Hr; try discriminate; inversion Hr; subst message.
  - left. exists digits. repeat split; assumption.
  - right. repeat split; assumption.
Qed.

Example malformed_note_uris :
  forall R : Runtime,
    readNoteResource "notes://" = Throw "Unknown resource URI: notes://"
    /\ readNoteResource "notes://1x" = Throw "Unknown resource URI: notes://1x"
    /\ readNoteResource "notes://-1" = Throw "Unknown resource URI: notes://-1"
    /\ readNoteResource "notes://1.0" = Throw "Unknown resource URI: notes://1.0"
    /\ readNoteResource "Notes://1" = Throw "Unknown resource URI: Notes://1"
    /\ readNoteResource "notes://4"
       = Throw ("Note with ID " ++ Number_toString 4 ++ " not found").
Proof. intros R. repeat split. Qed.

(** *** Leading zeros *)

Lemma all_digits_app :
  forall s s' : string,
    all_digits (s ++ s') = all_digits s && all_digits s'.
Proof.
  induction s as [|c s IH]; intros s'; simpl; [reflexivity|].
  now rewrite IH, andb_assoc.
Qed.

Lemma leading_zeros :
  forall zs : string,
    (forall c, In c (list_ascii_of_string zs) -> c = "0"%char) ->
    all_digits zs = true
    /\ forall digits, digits_value 0 (zs ++ digits) = digits_value 0 digits.
Proof.
  induction zs as [|c zs IH]; intros Hz; [now split|].
  assert (Hc : c = "0"%char) by (apply Hz; now left). subst c.
  destruct IH as [Hd Hv]; [intros c Hc; apply Hz; now right|].
  split; [simpl; now rewrite Hd|].
  intros digits. simpl append. cbn [digits_value].
  change (10 * 0 + (Z.of_nat (nat_of_ascii "0") - 48))%Z with 0%Z. apply Hv.
Qed.

Lemma append_nonempty :
  forall s s' : string, s' <> "" -> s ++ s' <> "".
Proof. intros [|c s] s' Hne; [exact Hne|discriminate]. Qed.

(** What [readNoteResource] does for [notes://] followed by digits. *)
Lemma readNoteResource_digits :
  forall (R : Runtime) (digits : string),
    all_digits digits = true ->
    digits <> "" ->
    readNoteResource ("notes://" ++ digits)
    = match find (fun n => PrimFloat.eqb (id n) (parseInt digits)) notesStore with
      | Some note => Ok (single ("notes://" ++ digits) (note_text note))
      | None => Throw ("Note with ID " ++ Number_toString (parseInt digits) ++ " not found")
      end.
Proof.
  intros R digits Hd Hne. unfold readNoteResource.
  rewrite (digits_are_not_all digits Hd).
  assert (Hm : match_note_uri ("notes://" ++ digits) = Some digits)
    by (apply match_note_uri_spec; repeat split; assumption).
  rewrite Hm. reflexivity.
Qed.

(** X3.  Zeros in front of the digits do not count: [notes://007] and
    [notes://7] denote the same note.  Both reads succeed with the same
    text, each under its own URI, or both fail with the same message. *)
Theorem leading_zeros_are_ignored :
  forall (R : Runtime) (zs digits : string),
    (forall c, In c (list_ascii_of_string zs) -> c = "0"%char) ->
    all_digits digits = true ->
    digits <> "" ->
    (exists text,
       readNoteResource ("notes://" ++ zs ++ digits)
       = Ok (single ("notes://" ++ zs ++ digits) text)
       /\ readNoteResource ("notes://" ++ digits) = Ok (single ("notes://" ++ digits) text))
    \/ (exists message,
          readNoteResource ("notes://" ++ zs ++ digits) = Throw message
          /\ readNoteResource ("notes://" ++ digits) = Throw message).
Proof.
  intros R zs digits Hz Hd Hne.
  destruct (leading_zeros zs Hz) as [Hzd Hv].
  assert (Hd' : all_digits (zs ++ digits) = true) by (now rewrite all_digits_app, Hzd, Hd).
  rewrite (readNoteResource_digits R (zs ++ digits) Hd' (append_nonempty zs digits Hne)).
  rewrite (readNoteResource_digits R digits Hd Hne).
  unfold parseInt. rewrite Hv.
  destruct (find (fun n => PrimFloat.eqb (id n) (float_of_Z (digits_value 0 digits))) notesStore)
    as [note|].
  - left. now exists (note_text note).
  - right. eexists. split; reflexivity.
Qed.

(** *** From [resources/list] to [resources/read] *)

Lemma prefix_notes :
  forall rest : string, String.prefix "notes://" ("notes://" ++ rest) = true.
Proof.
  intros rest. apply strip_prefix_prefix. exists rest. apply strip_prefix_app.
Qed.

(** A stored note is read under any digits that denote its id. *)
Lemma stored_note_read :
  forall (R : Runtime) (note : Note) (digits : string),
    In note notesStore ->
    all_digits digits = true ->
    digits <> "" ->
    parseInt digits = id note ->
    readNoteResource ("notes://" ++ digits)
    = Ok (single ("notes://" ++ digits) (note_text note)).
Proof.
  intros R note digits Hin Hd Hne Hid.
  rewrite (readNoteResource_digits R digits Hd Hne), Hid.
  destruct Hin as [<-|[<-|[<-|[]]]]; reflexivity.
Qed.

(** X4.  Whatever [resources/list] lists, [resources/read] reads.  On a
    runtime that prints the id of each stored note as digits that
    [parseInt] reads back, every listed resource is read successfully:
    one content under the listed URI, of the listed type, whose text is
    the summary for [notes://all] and otherwise the text of the note the
    entry is named after. *)
Theorem listed_resources_are_readable :
  forall R : Runtime,
    (forall note, In note notesStore ->
       all_digits (Number_toString (id note)) = true
       /\ Number_toString (id note) <> ""
       /\ parseInt (Number_toString (id note)) = id note) ->
    forall resource, In resource listResources ->
      exists text,
        readResource (uri resource)
        = Ok (mkReadResourceResult [mkContents (uri resource) (mimeType resource) text])
        /\ (uri resource = "notes://all" /\ text = summary_text
            \/ exists note,
                 In note notesStore
                 /\ name resource = title note
                 /\ text = note_text note).
Proof.
  intros R Hprint resource Hin. unfold listResources in Hin.
  destruct Hin as [<-|Hin].
  - exists summary_text. split; [reflexivity|]. now left.
  - unfold getNotesResourceList in Hin. apply in_map_iff in Hin as (note & <- & Hnote).
    destruct (Hprint note Hnote) as (Hd & Hne & Hid).
    exists (note_text note). cbn [uri name mimeType]. split.
    + unfold readResource. rewrite prefix_notes.
      now rewrite (stored_note_read R note _ Hnote Hd Hne Hid).
    + right. now exists note.
Qed.

(** X5.  The errors of [resources/read].  Outside the [notes://] scheme
    the handler throws an McpError with code InvalidRequest and the
    message "Unknown resource URI: " followed by the URI.  Inside the
    scheme it never throws an McpError: every failure is the plain Error
    of [readNoteResource], be it for a note that is not stored or for a
    URI that is not well formed, and the latter has the very text of the
    InvalidRequest error. *)
Theorem resource_read_errors :
  forall (R : Runtime) (uri : string) (thrown : Exception),
    readResource uri = Throw thrown ->
    (String.prefix "notes://" uri = false
     /\ thrown = Mcp (mkMcpError InvalidRequest ("Unknown resource URI: " ++ uri)))
    \/ (String.prefix "notes://" uri = true
        /\ uri <> "notes://all"
        /\ (thrown = PlainError ("Unknown resource URI: " ++ uri)
            \/ exists digits,
                 uri = "notes://" ++ digits
                 /\ all_digits digits = true
                 /\ digits <> ""
                 /\ thrown = PlainError ("Note with ID " ++ Number_toString (parseInt digits)
                                         ++ " not found"))).
Proof.
  intros R uri thrown Hr. unfold readResource in Hr.
  destruct (String.prefix "notes://" uri) eqn:Hp.
  - right. split; [reflexivity|].
    destruct (readNoteResource_cases R uri)
      as [(Hall & Hread)
         |[(digits & note & _ & _ & _ & _ & _ & Hread)
          |[(digits & Huri & Hd & Hne & _ & Hread)|(Hne & _ & Hread)]]];
      rewrite Hread in Hr; try discriminate; inversion Hr; subst thrown.
    + split; [|right; exists digits; repeat split; assumption].
      intros Hall. rewrite Huri in Hall.
      pose proof (digits_are_not_all digits Hd) as Hneq.
      rewrite Hall in Hneq. discriminate.
    + split; [exact Hne|now left].
  - left. split; [reflexivity|]. now inversion Hr.
Qed.

End NotesFacts.

Lemma note_read_success_witness :
  exists r : Notes.ReadResourceResult,
    @Notes.readNoteResource Witness.runtime "notes://2" = Ok r
    /\ exists text : string,
         r = Notes.mkReadResourceResult [Notes.mkContents "notes://2" "text/plain" text]
         /\ (("notes://2" = "notes://all" /\ text = @Notes.summary_text Witness.runtime)
             \/ exists digits note,
                  "notes://2" = "notes://" ++ digits
                  /\ Notes.all_digits digits = true
                  /\ digits <> ""
                  /\ In note Notes.notesStore
                  /\ PrimFloat.eqb (Notes.id note) (Notes.parseInt digits) = true
                  /\ text = Notes.note_text note).
Proof.
  eexists. split; [reflexivity|].
  exact (note_read_success Witness.runtime "notes://2" _ eq_refl).
Defined.

Lemma note_read_failure_witness :
  @Notes.readNoteResource Witness.runtime "notes://42" = Throw "Note with ID 42 not found"
  /\ ((exists digits,
         "notes://42" = "notes://" ++ digits
         /\ Notes.all_digits digits = true
         /\ digits <> ""
         /\ (forall note, In note Notes.notesStore ->
               PrimFloat.eqb (Notes.id note) (Notes.parseInt digits) = false)
         /\ "Note with ID 42 not found"
            = "Note with ID " ++ @Number_toString Witness.runtime (Notes.parseInt digits)
              ++ " not found")
      \/ ("notes://42" <> "notes://all"
          /\ (forall digits,
                "notes://42" = "notes://" ++ digits -> Notes.all_digits digits = true
                -> digits = "")
          /\ "Note with ID 42 not found" = "Unknown resource URI: " ++ "notes://42")).
Proof.
  split; [reflexivity|].
  exact (note_read_failure Witness.runtime "notes://42" _ eq_refl).
Defined.

Lemma leading_zeros_are_ignored_witness :
  (forall c, In c (list_ascii_of_string "00") -> c = "0"%char)
  /\ Notes.all_digits "3" = true
  /\ "3" <> ""
  /\ forall R : Runtime,
       (exists text,
          Notes.readNoteResource ("notes://" ++ "00" ++ "3")
          = Ok (Notes.single ("notes://" ++ "00" ++ "3") text)
          /\ Notes.readNoteResource ("notes://" ++ "3")
             = Ok (Notes.single ("notes://" ++ "3") text))
       \/ (exists message,
             Notes.readNoteResource ("notes://" ++ "00" ++ "3") = Throw message
             /\ Notes.readNoteResource ("notes://" ++ "3") = Throw message).
Proof.
  assert (Hz : forall c, In c (list_ascii_of_string "00") -> c = "0"%char).
  { intros c [<-|[<-|[]]]; reflexivity. }
  assert (Hne : "3" <> "") by discriminate.
  split; [exact Hz|]. split; [reflexivity|]. split; [exact Hne|].
  intros R. exact (leading_zeros_are_ignored R "00" "3" Hz eq_refl Hne).
Defined.

Lemma runtime_prints_ids :
  forall note, In note Notes.notesStore ->
    Notes.all_digits (@Number_toString Witness.runtime (Notes.id note)) = true
    /\ @Number_toString Witness.runtime (Notes.id note) <> ""
    /\ Notes.parseInt (@Number_toString Witness.runtime (Notes.id note)) = Notes.id note.
Proof.
  intros note [<-|[<-|[<-|[]]]]; (split; [reflexivity|split; [discriminate|reflexivity]]).
Defined.

Lemma listed_resources_are_readable_witness :
  (forall note, In note Notes.notesStore ->
     Notes.all_digits (@Number_toString Witness.runtime (Notes.id note)) = true
     /\ @Number_toString Witness.runtime (Notes.id note) <> ""
     /\ Notes.parseInt (@Number_toString Witness.runtime (Notes.id note)) = Notes.id note)
  /\ In (Notes.mkResource "notes://2" "MCP Transport Types"
           "Note #2 — tags: mcp, transport" "text/plain")
        (@Handlers.listResources Witness.runtime)
  /\ exists text,
       @Handlers.readResource Witness.runtime "notes://2"
       = Ok (Notes.mkReadResourceResult [Notes.mkContents "notes://2" "text/plain" text])
       /\ ("notes://2" = "notes://all" /\ text = @Notes.summary_text Witness.runtime
           \/ exists note,
                In note Notes.notesStore
                /\ "MCP Transport Types" = Notes.title note
                /\ text = Notes.note_text note).
Proof.
  assert (Hin : In (Notes.mkResource "notes://2" "MCP Transport Types"
                      "Note #2 — tags: mcp, transport" "text/plain")
                   (@Handlers.listResources Witness.runtime))
    by (right; right; left; reflexivity).
  split; [exact runtime_prints_ids|]. split; [exact Hin|].
  exact (listed_resources_are_readable Witness.runtime runtime_prints_ids _ Hin).
Defined.

Lemma resource_read_errors_witness :
  @Handlers.readResource Witness.runtime "file:///etc/passwd"
  = Throw (Handlers.Mcp (mkMcpError InvalidRequest "Unknown resource URI: file:///etc/passwd"))
  /\ @Handlers.readResource Witness.runtime "notes://abc"
     = Throw (Handlers.PlainError "Unknown resource URI: notes://abc")
  /\ ((String.prefix "notes://" "notes://abc" = false
       /\ Handlers.PlainError "Unknown resource URI: notes://abc"
          = Handlers.Mcp (mkMcpError InvalidRequest ("Unknown resource URI: " ++ "notes://abc")))
      \/ (String.prefix "notes://" "notes://abc" = true
          /\ "notes://abc" <> "notes://all"
          /\ (Handlers.PlainError "Unknown resource URI: notes://abc"
              = Handlers.PlainError ("Unknown resource URI: " ++ "notes://abc")
              \/ exists digits,
                   "notes://abc" = "notes://" ++ digits
                   /\ Notes.all_digits digits = true
                   /\ digits <> ""
                   /\ Handlers.PlainError "Unknown resource URI: notes://abc"
                      = Handlers.PlainError
                          ("Note with ID "
                           ++ @Number_toString Witness.runtime (Notes.parseInt digits)
                           ++ " not found")))).
Proof.
  split; [reflexivity|]. split; [reflexivity|].
  exact (resource_read_errors Witness.runtime "notes://abc" _ eq_refl).
Defined.

(** ** The prompt templates *)

Section PromptFacts.

Import Prompts Handlers.

(** [z.string().min(1)] on a field: the parsed text, or one issue at the
    field. *)
Lemma required_text_field :
  forall (o : list (string * value)) (path : list string) (k : string),
    match field o path k (string_min 1) with
    | inl s => prop o k = VStr s /\ s <> ""
    | inr issues =>
        (exists c, issues = [mkIssue c (path ++ [k])%list])
        /\ forall s, prop o k = VStr s -> s = ""
    end.
Proof.
  intros o path k. unfold field, string_min.
  destruct (prop o k) as [| |b|x|s|xs|fields];
    try (split; [now eexists|discriminate]).
  destruct s as [|c s]; simpl.
  - split; [now eexists|]. intros s Hs. now inversion Hs.
  - split; [reflexivity|discriminate].
Qed.

Lemma focus_options :
  forall s : string,
    match assoc s [ ("security", security); ("performance", performance);
                    ("readability", readability); ("all", all) ] with
    | Some f => s = focus_name f
    | None => forall f, s <> focus_name f
    end.
Proof.
  intros s. cbn [assoc].
  destruct (String.eqb_spec s "security") as [->|H1]; [reflexivity|].
  destruct (String.eqb_spec s "performance") as [->|H2]; [reflexivity|].
  destruct (String.eqb_spec s "readability") as [->|H3]; [reflexivity|].
  destruct (String.eqb_spec s "all") as [->|H4]; [reflexivity|].
  intros [| | |]; assumption.
Qed.

Lemma level_options :
  forall s : string,
    match assoc s [ ("beginner", beginner); ("intermediate", intermediate);
                    ("expert", expert) ] with
    | Some l => s = level_name l
    | None => forall l, s <> level_name l
    end.
Proof.
  intros s. cbn [assoc].
  destruct (String.eqb_spec s "beginner") as [->|H1]; [reflexivity|].
  destruct (String.eqb_spec s "intermediate") as [->|H2]; [reflexivity|].
  destruct (String.eqb_spec s "expert") as [->|H3]; [reflexivity|].
  intros [| |]; assumption.
Qed.

Lemma focus_name_inj : forall f f', focus_name f = focus_name f' -> f = f'.
Proof. intros [| | |] [| | |] H; (reflexivity || discriminate H). Qed.

Lemma level_name_inj : forall l l', level_name l = level_name l' -> l = l'.
Proof. intros [| |] [| |] H; (reflexivity || discriminate H). Qed.

(** The optional [focus]: absent it is [all]; given, it is one of the four
    names; anything else is one issue at the field. *)
Lemma focus_field :
  forall (o : list (string * value)) (path : list string),
    match field o path "focus"
            (default (enum [ ("security", security); ("performance", performance);
                             ("readability", readability); ("all", all) ])
               (VStr "all")) with
    | inl f => (prop o "focus" = VUndefined /\ f = all) \/ prop o "focus" = VStr (focus_name f)
    | inr issues =>
        (exists c, issues = [mkIssue c (path ++ ["focus"])%list])
        /\ prop o "focus" <> VUndefined
        /\ forall f, prop o "focus" <> VStr (focus_name f)
    end.
Proof.
  intros o path. unfold field, default.
  destruct (prop o "focus") as [| |b|x|s|xs|fields];
    try (split; [now eexists|split; [discriminate|intros f; discriminate]]).
  - left. now split.
  - unfold enum. pose proof (focus_options s) as Hs.
    destruct (assoc s _) as [f|].
    + right. now subst s.
    + split; [now eexists|]. split; [discriminate|].
      intros f Hf. inversion Hf. now apply (Hs f).
Qed.

Lemma level_field :
  forall (o : list (string * value)) (path : list string),
    match field o path "level"
            (default (enum [ ("beginner", beginner); ("intermediate", intermediate);
                             ("expert", expert) ])
               (VStr "beginner")) with
    | inl l =>
        (prop o "level" = VUndefined /\ l = beginner) \/ prop o "level" = VStr (level_name l)
    | inr issues =>
        (exists c, issues = [mkIssue c (path ++ ["level"])%list])
        /\ prop o "level" <> VUndefined
        /\ forall l, prop o "level" <> VStr (level_name l)
    end.
Proof.
  intros o path. unfold field, default.
  destruct (prop o "level") as [| |b|x|s|xs|fields];
    try (split; [now eexists|split; [discriminate|intros l; discriminate]]).
  - left. now split.
  - unfold enum. pose proof (level_options s) as Hs.
    destruct (assoc s _) as [l|].
    + right. now subst s.
    + split; [now eexists|]. split; [discriminate|].
      intros l Hl. inversion Hl. now apply (Hs l).
Qed.

(** X6.  The code-review prompt is built exactly for an argument object
    whose [language] is a non-empty string and whose [focus] is absent or
    one of security, performance, readability and all; an absent focus
    stands for all.  The reply is then one message of the user, of type
    text, with the template filled in for that language and focus. *)
Theorem code_review_accepts :
  forall (R : Runtime) (o : list (string * value)) (reply : GetPromptResult),
    handleCodeReviewPrompt (VObj o) = Ok reply
    <-> exists l f,
          prop o "language" = VStr l
          /\ l <> ""
          /\ ((prop o "focus" = VUndefined /\ f = all) \/ prop o "focus" = VStr (focus_name f))
          /\ reply
             = mkGetPromptResult
                 [mkMessage "user" "text" (code_review_text (mkCodeReviewArgs l f))].
Proof.
  intros R o reply. unfold handleCodeReviewPrompt, CodeReviewArgsSchema, object.
  pose proof (required_text_field o [] "language") as Hl.
  pose proof (focus_field o []) as Hf.
  destruct (field o [] "language" (string_min 1)) as [l|il];
    destruct (field o [] "focus" _) as [f|jf]; cbn [both]; split.
  - intros H. inversion H; subst reply. exists l, f. destruct Hl as [Hl Hne].
    repeat split; assumption.
  - intros (l' & f' & Hl' & Hne' & Hf' & ->). destruct Hl as [Hl Hne].
    rewrite Hl in Hl'. inversion Hl'; subst l'.
    assert (f' = f) as ->; [|reflexivity].
    destruct Hf as [[Hu ->]|Hs]; destruct Hf' as [[Hu' ->]|Hs']; try reflexivity.
    + rewrite Hu in Hs'. discriminate.
    + rewrite Hu' in Hs. discriminate.
    + rewrite Hs in Hs'. inversion Hs' as [Hn]. now apply focus_name_inj in Hn.
  - discriminate.
  - intros (l' & f' & _ & _ & Hf' & _). destruct Hf as (_ & Hdef & Hnone).
    destruct Hf' as [[Hu _]|Hs]; [contradiction|now apply Hnone in Hs].
  - discriminate.
  - intros (l' & f' & Hl' & Hne' & _). destruct Hl as [_ Hempty].
    now apply Hempty in Hl'.
  - discriminate.
  - intros (l' & f' & Hl' & Hne' & _). destruct Hl as [_ Hempty].
    now apply Hempty in Hl'.
Qed.

(** X7.  A code-review request that is refused is refused with an McpError
    of code InvalidParams whose message is "Invalid prompt arguments: "
    followed by the rendering of at least one zod issue, and every issue
    is at an argument that is at fault: at the root when the arguments are
    no object, at [language] when it is not a non-empty string, at [focus]
    when it is given and is none of the four names. *)
Theorem code_review_rejects :
  forall (R : Runtime) (args : value) (e : McpError),
    handleCodeReviewPrompt args = Throw e ->
    exists issues,
      e = mkMcpError InvalidParams ("Invalid prompt arguments: " ++ ZodError_message issues)
      /\ issues <> []
      /\ forall i, In i issues ->
           (issue_path i = [] /\ forall o, args <> VObj o)
           \/ exists o,
                args = VObj o
                /\ ((issue_path i = ["language"]
                     /\ forall l, prop o "language" = VStr l -> l = "")
                    \/ (issue_path i = ["focus"]
                        /\ prop o "focus" <> VUndefined
                        /\ forall f, prop o "focus" <> VStr (focus_name f))).
Proof.
  intros R args e. unfold handleCodeReviewPrompt, CodeReviewArgsSchema, object.
  destruct args as [| |b|x|s|xs|o];
    try (intros H; inversion H; subst e; eexists; split; [reflexivity|];
         split; [discriminate|];
         intros i [<-|[]]; left; split; [reflexivity|discriminate]).
  pose proof (required_text_field o [] "language") as Hl.
  pose proof (focus_field o []) as Hf.
  destruct (field o [] "language" (string_min 1)) as [l|il];
    destruct (field o [] "focus" _) as [f|jf]; cbn [both]; intros H;
    [discriminate| | |]; inversion H; subst e; clear H;
    eexists; (split; [reflexivity|]).
  - destruct Hf as ([c ->] & Hdef & Hnone). split; [discriminate|].
    intros i [<-|[]]. right. exists o. split; [reflexivity|]. right. now repeat split.
  - destruct Hl as ([c ->] & Hempty). split; [discriminate|].
    intros i [<-|[]]. right. exists o. split; [reflexivity|]. left. now split.
  - destruct Hl as ([c ->] & Hempty). destruct Hf as ([c' ->] & Hdef & Hnone).
    split; [discriminate|].
    intros i [<-|[<-|[]]]; right; exists o; (split; [reflexivity|]).
    + left. now split.
    + right. now repeat split.
Qed.

(** X8.  The explain-concept prompt is built exactly for an argument
    object whose [concept] is a non-empty string and whose [level] is
    absent or one of beginner, intermediate and expert; an absent level
    stands for beginner.  The reply is then one message of the user, of
    type text, with the template filled in for that concept and level. *)
Theorem explain_concept_accepts :
  forall (R : Runtime) (o : list (string * value)) (reply : GetPromptResult),
    handleExplainConceptPrompt (VObj o) = Ok reply
    <-> exists c l,
          prop o "concept" = VStr c
          /\ c <> ""
          /\ ((prop o "level" = VUndefined /\ l = beginner)
              \/ prop o "level" = VStr (level_name l))
          /\ reply
             = mkGetPromptResult
                 [mkMessage "user" "text" (explain_concept_text (mkExplainConceptArgs c l))].
Proof.
  intros R o reply. unfold handleExplainConceptPrompt, ExplainConceptArgsSchema, object.
  pose proof (required_text_field o [] "concept") as Hc.
  pose proof (level_field o []) as Hl.
  destruct (field o [] "concept" (string_min 1)) as [c|ic];
    destruct (field o [] "level" _) as [l|jl]; cbn [both]; split.
  - intros H. inversion H; subst reply. exists c, l. destruct Hc as [Hc Hne].
    repeat split; assumption.
  - intros (c' & l' & Hc' & Hne' & Hl' & ->). destruct Hc as [Hc Hne].
    rewrite Hc in Hc'. inversion Hc'; subst c'.
    assert (l' = l) as ->; [|reflexivity].
    destruct Hl as [[Hu ->]|Hs]; destruct Hl' as [[Hu' ->]|Hs']; try reflexivity.
    + rewrite Hu in Hs'. discriminate.
    + rewrite Hu' in Hs. discriminate.
    + rewrite Hs in Hs'. inversion Hs' as [Hn]. now apply level_name_inj in Hn.
  - discriminate.
  - intros (c' & l' & _ & _ & Hl' & _). destruct Hl as (_ & Hdef & Hnone).
    destruct Hl' as [[Hu _]|Hs]; [contradiction|now apply Hnone in Hs].
  - discriminate.
  - intros (c' & l' & Hc' & Hne' & _). destruct Hc as [_ Hempty].
    now apply Hempty in Hc'.
  - discriminate.
  - intros (c' & l' & Hc' & Hne' & _). destruct Hc as [_ Hempty].
    now apply Hempty in Hc'.
Qed.

End PromptFacts.

(** Both arguments at fault: both issues are reported. *)
Example code_review_two_issues :
  forall R : Runtime,
    Prompts.handleCodeReviewPrompt (VObj [("language", VStr ""); ("focus", VStr "style")])
    = Throw (mkMcpError InvalidParams
               ("Invalid prompt arguments: "
                ++ ZodError_message [mkIssue too_small ["language"];
                                     mkIssue invalid_enum_value ["focus"]])).
Proof. reflexivity. Qed.

Lemma code_review_rejects_witness :
  prop [("language", VStr "TypeScript"); ("focus", VStr "style")] "focus" = VStr "style"
  /\ forall R : Runtime,
       exists e,
         Prompts.handleCodeReviewPrompt
           (VObj [("language", VStr "TypeScript"); ("focus", VStr "style")])
         = Throw e
         /\ exists issues,
              e = mkMcpError InvalidParams
                    ("Invalid prompt arguments: " ++ ZodError_message issues)
              /\ issues <> []
              /\ forall i, In i issues ->
                   (issue_path i = []
                    /\ forall o,
                         VObj [("language", VStr "TypeScript"); ("focus", VStr "style")]
                         <> VObj o)
                   \/ exists o,
                        VObj [("language", VStr "TypeScript"); ("focus", VStr "style")] = VObj o
                        /\ ((issue_path i = ["language"]
                             /\ forall l, prop o "language" = VStr l -> l = "")
                            \/ (issue_path i = ["focus"]
                                /\ prop o "focus" <> VUndefined
                                /\ forall f, prop o "focus" <> VStr (Prompts.focus_name f))).
Proof.
  split; [reflexivity|].
  intros R. eexists. split; [reflexivity|].
  apply (code_review_rejects R
           (VObj [("language", VStr "TypeScript"); ("focus", VStr "style")])).
  reflexivity.
Defined.

(** ** A whole turn, and the chat *)

Section TurnFacts.

Import Loop.

Context {R : Runtime}.
Variable World : Type.
Variable sendMessage : Request -> World -> result string Response * World.
Variable callTool : string -> value -> World -> result string CallToolResult * World.

(** The names the batches answer, in order. *)
Lemma answered_batches :
  forall batches : list (list FunctionResponse),
    answered (List.map ToolResults batches)
    = flat_map (List.map response_name) batches.
Proof.
  induction batches as [|b batches IH]; [reflexivity|].
  unfold answered in *. simpl. now rewrite IH.
Qed.

Lemma answers_names :
  forall calls parts,
    Forall2 (answers callTool) calls parts ->
    List.map response_name parts = List.map fst (List.map request_of calls).
Proof.
  induction 1 as [|call part calls parts [Hname _] _ IH]; [reflexivity|].
  simpl. now rewrite Hname, IH.
Qed.

(** The loop, over all its rounds: it prints no error; what it sends are
    batches of results; and the batches answer, in order, the invocations
    made, but for the invocations of a round that an error cut short. *)
Lemma agenticLoop_spec :
  forall fuel candidate w evs w' out,
    agenticLoop sendMessage callTool fuel candidate w = (evs, w', out) ->
    errors evs = []
    /\ exists batches unanswered,
         sent evs = List.map ToolResults batches
         /\ List.map fst (tool_calls evs)
            = (flat_map (List.map response_name) batches ++ unanswered)%list
         /\ (unanswered = [] \/ exists err, out = Thrown err).
Proof.
  induction fuel as [|fuel IH]; intros candidate w evs w' out Hrun.
  - simpl in Hrun. inversion Hrun; subst. split; [reflexivity|].
    exists [], []. repeat split. now left.
  - destruct (functionCalls candidate) as [[|call rest]|] eqn:Hcalls.
    + rewrite agenticLoop_final in Hrun by now right.
      inversion Hrun; subst. split; [reflexivity|]. exists [], []. repeat split. now left.
    + assert (Hne : call :: rest <> []) by discriminate.
      rewrite (agenticLoop_round World sendMessage callTool fuel candidate _ w Hcalls Hne)
        in Hrun.
      rewrite toolRound_unfold in Hrun.
      destruct (forCalls callTool (call :: rest) [] w) as [[evs1 w1] out1] eqn:Hfor.
      destruct (forCalls_spec World callTool _ _ _ _ _ _ Hfor) as (Hsent & Herr & Hout).
      destruct out1 as [toolResults|err|]; [| |destruct Hout].
      * destruct Hout as (Htools & parts & Hparts & Hall). simpl in Hparts. subst parts.
        apply answers_names in Hall.
        destruct (sendMessage (ToolResults toolResults) w1) as [[response|err] w2];
          cbn [of_result] in Hrun.
        -- destruct (agenticLoop sendMessage callTool fuel response w2)
             as [[evs2 w3] out2] eqn:Hloop.
           inversion Hrun; subst. clear Hrun.
           destruct (IH _ _ _ _ _ Hloop)
             as (Herr2 & batches & unanswered & Hsent2 & Htools2 & Hun).
           split.
           { rewrite !errors_app, Herr, Herr2. reflexivity. }
           exists (toolResults :: batches), unanswered. split; [|split].
           ++ rewrite !sent_app, Hsent, Hsent2. reflexivity.
           ++ rewrite !tool_calls_app, !List.map_app, Htools, Htools2, <- Hall.
              cbn [flat_map tool_calls List.map app].
              now rewrite app_nil_r, app_assoc.
           ++ exact Hun.
        -- inversion Hrun; subst. clear Hrun. split.
           { rewrite errors_app, Herr. reflexivity. }
           exists [toolResults], []. split; [|split].
           ++ rewrite sent_app, Hsent. reflexivity.
           ++ rewrite tool_calls_app, List.map_app, Htools, <- Hall.
              cbn [flat_map tool_calls List.map app]. now rewrite !app_nil_r.
           ++ now left.
      * inversion Hrun; subst. clear Hrun.
        split; [exact Herr|].
        exists [], (List.map fst (tool_calls evs)). split; [exact Hsent|].
        split; [reflexivity|]. right. now exists err.
    + rewrite agenticLoop_final in Hrun by now left.
      inversion Hrun; subst. split; [reflexivity|]. exists [], []. repeat split. now left.
Qed.

(** A turn is its body, followed by one line on the error console when
    the body threw. *)
Lemma turn_spec :
  forall fuel userInput w evs w' out,
    turn sendMessage callTool fuel userInput w = (evs, w', out) ->
    exists body batches unanswered,
      errors body = []
      /\ sent body = UserMessage userInput :: List.map ToolResults batches
      /\ List.map fst (tool_calls body)
         = (flat_map (List.map response_name) batches ++ unanswered)%list
      /\ ((evs = body /\ unanswered = [] /\ (out = Returned tt \/ out = OutOfFuel))
          \/ exists err,
               evs = (body ++ [ConsoleError (error_line err)])%list /\ out = Returned tt).
Proof.
  intros fuel userInput w evs w' out Hrun.
  unfold turn, try_catch, bind, await_sendMessage, emit in Hrun.
  destruct (sendMessage (UserMessage userInput) w) as [[candidate|err] w0];
    cbn [of_result] in Hrun.
  - destruct (agenticLoop sendMessage callTool fuel candidate w0)
      as [[evs1 w1] out1] eqn:Hloop.
    destruct (agenticLoop_spec _ _ _ _ _ _ Hloop)
      as (Herr & batches & unanswered & Hsent & Htools & Hun).
    exists (SendMessage (UserMessage userInput) :: evs1), batches, unanswered.
    split; [exact Herr|]. split; [simpl; now rewrite <- Hsent|].
    split; [exact Htools|].
    destruct out1 as [[]|err|]; inversion Hrun; subst; clear Hrun.
    + left. split; [reflexivity|]. split; [|now left].
      destruct Hun as [Hun|[err Hthrown]]; [exact Hun|discriminate].
    + right. now exists err.
    + left. split; [reflexivity|]. split; [|now right].
      destruct Hun as [Hun|[err Hthrown]]; [exact Hun|discriminate].
  - inversion Hrun; subst; clear Hrun.
    exists [SendMessage (UserMessage userInput)], [], [].
    split; [reflexivity|]. split; [reflexivity|]. split; [reflexivity|].
    right. now exists err.
Qed.

(** Where the error of a loop comes from: a message or a tool call that
    threw it. *)
Lemma agenticLoop_thrown :
  forall fuel candidate w evs w' err,
    agenticLoop sendMessage callTool fuel candidate w = (evs, w', Thrown err) ->
    (exists request wa wb, sendMessage request wa = (Throw err, wb))
    \/ (exists name args wa wb, callTool name args wa = (Throw err, wb)).
Proof.
  induction fuel as [|fuel IH]; intros candidate w evs w' err Hrun; [discriminate|].
  destruct (functionCalls candidate) as [[|call rest]|] eqn:Hcalls.
  - rewrite agenticLoop_final in Hrun by now right. discriminate.
  - assert (Hne : call :: rest <> []) by discriminate.
    rewrite (agenticLoop_round World sendMessage callTool fuel candidate _ w Hcalls Hne),
      toolRound_unfold in Hrun.
    destruct (forCalls callTool (call :: rest) [] w) as [[evs1 w1] out1] eqn:Hfor.
    destruct (forCalls_spec World callTool _ _ _ _ _ _ Hfor) as (_ & _ & Hout).
    destruct out1 as [toolResults|err1|]; [| |destruct Hout].
    + destruct (sendMessage (ToolResults toolResults) w1) as [[response|err2] w2] eqn:Hsend;
        cbn [of_result] in Hrun.
      * destruct (agenticLoop sendMessage callTool fuel response w2)
          as [[evs2 w3] out2] eqn:Hloop.
        inversion Hrun; subst. exact (IH _ _ _ _ _ Hloop).
      * inversion Hrun; subst. left. do 3 eexists. exact Hsend.
    + inversion Hrun; subst.
      destruct Hout as (done & c & rest' & wa & wb & _ & _ & Hfail).
      right. do 4 eexists. exact Hfail.
  - rewrite agenticLoop_final in Hrun by now left. discriminate.
Qed.

(** X10.  A turn catches every error and prints it.  Whatever the model
    and the server do, a turn returns (or, in the model, runs out of
    rounds), and it prints at most one error line, as the last thing it
    does; the error printed is one that a message to the model or a tool
    call threw.  Conversely each error thrown is printed, with its own
    text, and ends the turn there: the error of the user's message, the
    error of a tool call in any round, and the error of the message that
    carries the batch of any round. *)
Theorem turn_catches_every_error :
  forall (fuel : nat) (userInput : string) (w w' : World) (evs : list Event)
         (out : outcome unit),
    turn sendMessage callTool fuel userInput w = (evs, w', out) ->
    (out = Returned tt \/ out = OutOfFuel)
    /\ (errors evs = []
        \/ exists body err,
             evs = (body ++ [ConsoleError (error_line err)])%list
             /\ errors body = []
             /\ out = Returned tt
             /\ ((exists request wa wb, sendMessage request wa = (Throw err, wb))
                 \/ (exists name args wa wb, callTool name args wa = (Throw err, wb))))
    /\ (forall err w1,
          sendMessage (UserMessage userInput) w = (Throw err, w1) ->
          evs = [SendMessage (UserMessage userInput); ConsoleError (error_line err)]
          /\ w' = w1
          /\ out = Returned tt)
    /\ (forall n candidate0 w0 invoked batches candidate wn,
          sendMessage (UserMessage userInput) w = (Ok candidate0, w0) ->
          rounds sendMessage callTool n candidate0 w0
          = Some (invoked, batches, candidate, wn) ->
          n < fuel ->
          (forall done call rest toolResults wa err wb,
             functionCalls candidate = Some (done ++ call :: rest)%list ->
             returned callTool done wn = Some (toolResults, wa) ->
             callTool (call_name call) (call_args call) wa = (Throw err, wb) ->
             exists body,
               evs = (body ++ [ConsoleError (error_line err)])%list
               /\ errors body = []
               /\ w' = wb
               /\ out = Returned tt)
          /\ (forall calls toolResults wa err wb,
                functionCalls candidate = Some calls ->
                calls <> [] ->
                returned callTool calls wn = Some (toolResults, wa) ->
                sendMessage (ToolResults (batch calls toolResults)) wa = (Throw err, wb) ->
                exists body,
                  evs = (body ++ [ConsoleError (error_line err)])%list
                  /\ errors body = []
                  /\ w' = wb
                  /\ out = Returned tt)).
Proof.
  intros fuel userInput w w' evs out Hrun.
  split; [|split; [|split]].
  - destruct (turn_spec _ _ _ _ _ _ Hrun)
      as (body & batches & unanswered & _ & _ & _ & [(_ & _ & Hout)|(err & _ & ->)]);
      [exact Hout|now left].
  - unfold turn, try_catch, bind, await_sendMessage, emit in Hrun.
    destruct (sendMessage (UserMessage userInput) w) as [[candidate|err] w0] eqn:Hsend;
      cbn [of_result] in Hrun.
    + destruct (agenticLoop sendMessage callTool fuel candidate w0)
        as [[evs1 w1] out1] eqn:Hloop.
      destruct (agenticLoop_spec _ _ _ _ _ _ Hloop) as (Herr & _).
      destruct out1 as [[]|err|]; inversion Hrun; subst; clear Hrun.
      * left. exact Herr.
      * right. exists (SendMessage (UserMessage userInput) :: evs1), err.
        split; [reflexivity|]. split; [exact Herr|]. split; [reflexivity|].
        exact (agenticLoop_thrown _ _ _ _ _ _ Hloop).
      * left. exact Herr.
    + inversion Hrun; subst; clear Hrun. right.
      exists [SendMessage (UserMessage userInput)], err.
      split; [reflexivity|]. split; [reflexivity|]. split; [reflexivity|].
      left. do 3 eexists. exact Hsend.
  - intros err w1 Hsend.
    unfold turn, try_catch, bind, await_sendMessage, emit in Hrun.
    rewrite Hsend in Hrun. cbn [of_result] in Hrun. inversion Hrun. now repeat split.
  - intros n candidate0 w0 invoked batches candidate wn Hsend Hrounds Hlt.
    assert (Hfuel : fuel = n + S (fuel - S n)) by lia.
    rewrite Hfuel in Hrun. split.
    + intros done call rest toolResults wa err wb Hcalls Hdone Hfail.
      destruct (turn_tool_error World sendMessage callTool n (fuel - S n) userInput w
                  candidate0 w0 invoked batches candidate wn done call rest toolResults
                  wa err wb Hsend Hrounds Hcalls Hdone Hfail)
        as (body & Hturn & _ & _ & Herr).
      rewrite Hturn in Hrun. inversion Hrun; subst. now exists body.
    + intros calls toolResults wa err wb Hcalls Hne Hret Hfail.
      destruct (turn_batch_error World sendMessage callTool n (fuel - S n) userInput w
                  candidate0 w0 invoked batches candidate wn calls toolResults
                  wa err wb Hsend Hrounds Hcalls Hne Hret Hfail)
        as (body & Hturn & _ & _ & Herr).
      rewrite Hturn in Hrun. inversion Hrun; subst. now exists body.
Qed.

(** X11.  A turn accounts for every tool it invokes.  The first message
    of a turn is the user's line and every later message is a batch of
    tool results.  The names the batches answer, in order, are the names
    of the tools invoked, in order, followed by the invocations of the
    round an error cut short, if any; in a turn that prints no error every
    invocation has been answered. *)
Theorem turn_accounts_for_every_call :
  forall (fuel : nat) (userInput : string) (w w' : World) (evs : list Event)
         (out : outcome unit),
    turn sendMessage callTool fuel userInput w = (evs, w', out) ->
    exists batches unanswered,
      sent evs = UserMessage userInput :: List.map ToolResults batches
      /\ List.map fst (tool_calls evs) = (answered (sent evs) ++ unanswered)%list
      /\ (errors evs = [] -> unanswered = []).
Proof.
  intros fuel userInput w w' evs out Hrun.
  destruct (turn_spec _ _ _ _ _ _ Hrun)
    as (body & batches & unanswered & Herr & Hsent & Htools
        & [(-> & Hun & _)|(err & -> & _)]);
    exists batches, unanswered.
  - split; [exact Hsent|]. split; [|intros _; exact Hun].
    rewrite Hsent, Htools.
    change (answered (UserMessage userInput :: ?l)) with (answered l).
    now rewrite answered_batches.
  - rewrite sent_app, tool_calls_app, errors_app, Herr, Hsent.
    cbn [sent tool_calls errors flat_map app]. rewrite !app_nil_r.
    split; [reflexivity|]. split; [|discriminate].
    rewrite Htools.
    change (answered (UserMessage userInput :: ?l)) with (answered l).
    now rewrite answered_batches.
Qed.

(** *** The chat *)

Variable String_trim : string -> string.

Lemma user_messages_app :
  forall evs evs',
    Session.user_messages (evs ++ evs')%list
    = (Session.user_messages evs ++ Session.user_messages evs')%list.
Proof. intros. unfold Session.user_messages. apply flat_map_app. Qed.

Lemma user_messages_client :
  forall evs : list Event,
    Session.user_messages (List.map Session.Client evs)
    = flat_map (fun r => match r with UserMessage u => [u] | ToolResults _ => [] end)
        (sent evs).
Proof.
  induction evs as [|e evs IH]; [reflexivity|].
  destruct e as [l|l|n a|[u|rs]]; simpl; try exact IH.
  now rewrite <- IH.
Qed.

Lemma user_messages_batches :
  forall batches : list (list FunctionResponse),
    flat_map (fun r => match r with UserMessage u => [u] | ToolResults _ => [] end)
      (List.map ToolResults batches)
    = [].
Proof. induction batches as [|b batches IH]; [reflexivity|exact IH]. Qed.

(** The one message of the user in a turn is the line typed. *)
Lemma turn_user_messages :
  forall fuel userInput w evs w' out,
    turn sendMessage callTool fuel userInput w = (evs, w', out) ->
    Session.user_messages (List.map Session.Client evs) = [userInput].
Proof.
  intros fuel userInput w evs w' out Hrun.
  destruct (turn_spec _ _ _ _ _ _ Hrun)
    as (body & batches & unanswered & _ & Hsent & _ & [(-> & _ & _)|(err & -> & _)]);
    rewrite user_messages_client; [|rewrite sent_app, app_nil_r];
    rewrite Hsent; simpl; now rewrite user_messages_batches.
Qed.

(** X12.  The chat, over the lines the user types.  No error of the
    model or of a tool ends it: it is closed by [exit], or waits for the
    next line (or, in the model, is out of rounds within a turn).  Each line before the first [exit] that
    is not blank is sent to the model once, in the order typed, and no
    other line is: blank lines and the lines after [exit] send nothing.
    It is closed exactly when some line is [exit], and closing is the last
    thing it does: a goodbye, the MCP client closed, the terminal closed. *)
Theorem chat_sends_each_line_once :
  forall (fuel : nat) (inputs : list string) (w w' : World) (evs : list Session.Event)
         (st : Session.status),
    Session.askQuestion String_trim sendMessage callTool fuel inputs w = (evs, w', st) ->
    (forall err, st <> Session.Escaped err)
    /\ (exists later,
          Session.turns String_trim inputs = (Session.user_messages evs ++ later)%list
          /\ (st <> Session.OutOfFuel -> later = []))
    /\ (st = Session.Closed ->
          (exists userInput,
             In userInput inputs /\ Session.is_exit String_trim userInput = true)
          /\ exists before,
               evs = (before ++ [ Session.Client (ConsoleLog Session.goodbye);
                                  Session.CloseClient; Session.CloseReadline ])%list)
    /\ (st = Session.Waiting ->
          forall userInput, In userInput inputs ->
            Session.is_exit String_trim userInput = false).
Proof.
  intros fuel inputs. induction inputs as [|userInput rest IH]; intros w w' evs st Hrun.
  - simpl in Hrun. inversion Hrun; subst.
    split; [discriminate|]. split; [exists []; now split|].
    split; [discriminate|]. intros _ u [].
  - simpl in Hrun.
    cbn [Session.turns].
    destruct (Session.is_exit String_trim userInput) eqn:Hexit.
    + inversion Hrun; subst.
      split; [discriminate|]. split; [exists []; now split|]. split; [|discriminate].
      intros _. split; [exists userInput; split; [now left|exact Hexit]|].
      now exists [Session.Question Session.prompt].
    + destruct (Session.is_blank String_trim userInput) eqn:Hblank.
      * destruct (Session.askQuestion String_trim sendMessage callTool fuel rest w)
          as [[evs1 w1] st1] eqn:Hrest.
        inversion Hrun; subst. clear Hrun.
        destruct (IH _ _ _ _ Hrest) as (Hesc & (later & Hturns & Hlater) & Hclosed & Hwait).
        split; [exact Hesc|]. split; [exists later; split; [exact Hturns|exact Hlater]|].
        split.
        -- intros Hst. destruct (Hclosed Hst) as ((u & Hin & Hu) & before & ->).
           split; [exists u; split; [now right|exact Hu]|].
           now exists (Session.Question Session.prompt :: before).
        -- intros Hst u [<-|Hin]; [exact Hexit|now apply Hwait].
      * destruct (turn sendMessage callTool fuel userInput w) as [[evs0 w0] out0] eqn:Hturn.
        pose proof (turn_user_messages _ _ _ _ _ _ Hturn) as Hmsg.
        destruct (turn_spec _ _ _ _ _ _ Hturn)
          as (body & batches & unanswered & _ & _ & _ & Hout).
        assert (Hcases : out0 = Returned tt \/ out0 = OutOfFuel).
        { destruct Hout as [(_ & _ & H)|(err & _ & H)]; [exact H|now left]. }
        clear Hout. destruct Hcases as [-> | ->].
        -- destruct (Session.askQuestion String_trim sendMessage callTool fuel rest w0)
             as [[evs1 w1] st1] eqn:Hrest.
           inversion Hrun; subst. clear Hrun.
           destruct (IH _ _ _ _ Hrest)
             as (Hesc & (later & Hturns & Hlater) & Hclosed & Hwait).
           split; [exact Hesc|]. split.
           { exists later. split; [|exact Hlater].
             change (Session.user_messages (Session.Question Session.prompt :: ?l))
               with (Session.user_messages l).
             rewrite user_messages_app, Hmsg, Hturns. reflexivity. }
           split.
           ++ intros Hst. destruct (Hclosed Hst) as ((u & Hin & Hu) & before & ->).
              split; [exists u; split; [now right|exact Hu]|].
              exists (Session.Question Session.prompt
                      :: List.map Session.Client evs0 ++ before)%list.
              cbn [app]. now rewrite app_assoc.
           ++ intros Hst u [<-|Hin]; [exact Hexit|now apply Hwait].
        -- inversion Hrun; subst. clear Hrun.
           split; [discriminate|]. split.
           { exists (Session.turns String_trim rest). split; [|intros Hne; now destruct Hne].
             change (Session.user_messages (Session.Question Session.prompt :: ?l))
               with (Session.user_messages l).
             now rewrite Hmsg. }
           split; discriminate.
Qed.

End TurnFacts.

Section TurnScenarios.

Import Loop.

(** A chat of four lines: a blank line, a question, [exit], and a line
    that is never read. *)
Example chat_of_four_lines :
  forall env : Weather.Env,
    exists evs,
      @Session.askQuestion Witness.runtime (fun s => s) (list Response)
        scripted (@serverCallTool Witness.runtime (list Response) env) 2
        [""; "What is 25 x 4?"; "exit"; "Anyone there?"]
        [asks [multiply_call]; says "100."]
      = (evs, [], Session.Closed)
      /\ Session.user_messages evs = ["What is 25 x 4?"]
      /\ Session.questions evs = 3.
Proof.
  intros env. eexists. split; [reflexivity|]. split; reflexivity.
Qed.

End TurnScenarios.

(** Three turns against this repository's server: the model refuses the
    user's message; a tool call fails in the first round; the model refuses
    the batch of the first round.  Each error is printed. *)
Lemma turn_catches_every_error_witness :
  Loop.scripted (Loop.UserMessage "Hello") [] = (Throw "fetch failed", [])
  /\ Loop.scripted (Loop.UserMessage "What is 1 / 0?") [asks [divide_call]]
     = (Ok (asks [divide_call]), [])
  /\ Loop.scripted (Loop.UserMessage "What is 25 x 4?") [asks [multiply_call]]
     = (Ok (asks [multiply_call]), [])
  /\ forall (R : Runtime) (env : Weather.Env),
       Loop.turn Loop.scripted (Loop.serverCallTool env) 2 "Hello" []
       = ([Loop.SendMessage (Loop.UserMessage "Hello");
           Loop.ConsoleError (Loop.error_line "fetch failed")], [], Loop.Returned tt)
       /\ (exists body,
             Loop.turn Loop.scripted (Loop.serverCallTool env) 2 "What is 1 / 0?"
               [asks [divide_call]]
             = ((body ++ [Loop.ConsoleError
                            (Loop.error_line
                               "MCP error -32602: MCP error -32602: Cannot divide by zero")])%list,
                [], Loop.Returned tt)
             /\ Loop.errors body = [])
       /\ (exists body,
             Loop.turn Loop.scripted (Loop.serverCallTool env) 2 "What is 25 x 4?"
               [asks [multiply_call]]
             = ((body ++ [Loop.ConsoleError (Loop.error_line "fetch failed")])%list,
                [], Loop.Returned tt)
             /\ Loop.errors body = []).
Proof.
  split; [reflexivity|]. split; [reflexivity|]. split; [reflexivity|].
  intros R env. split; [|split].
  - destruct (Loop.turn Loop.scripted (Loop.serverCallTool env) 2 "Hello" [])
      as [[evs w'] out] eqn:Hrun.
    destruct (@turn_catches_every_error R (list Loop.Response) Loop.scripted
                (Loop.serverCallTool env) 2 "Hello" [] w' evs out Hrun)
      as (_ & _ & Huser & _).
    destruct (Huser "fetch failed" [] eq_refl) as (-> & -> & ->). reflexivity.
  - destruct (Loop.turn Loop.scripted (Loop.serverCallTool env) 2 "What is 1 / 0?"
                [asks [divide_call]]) as [[evs w'] out] eqn:Hrun.
    destruct (@turn_catches_every_error R (list Loop.Response) Loop.scripted
                (Loop.serverCallTool env) 2 "What is 1 / 0?" [asks [divide_call]]
                w' evs out Hrun)
      as (_ & _ & _ & Hround).
    destruct (Hround 0 (asks [divide_call]) [] [] [] (asks [divide_call]) []
                eq_refl eq_refl (le_S 1 1 (le_n 1))) as (Htool & _).
    destruct (Htool [] divide_call [] [] []
                "MCP error -32602: MCP error -32602: Cannot divide by zero" []
                eq_refl eq_refl eq_refl)
      as (body & -> & Herr & -> & ->).
    now exists body.
  - destruct (Loop.turn Loop.scripted (Loop.serverCallTool env) 2 "What is 25 x 4?"
                [asks [multiply_call]]) as [[evs w'] out] eqn:Hrun.
    destruct (@turn_catches_every_error R (list Loop.Response) Loop.scripted
                (Loop.serverCallTool env) 2 "What is 25 x 4?" [asks [multiply_call]]
                w' evs out Hrun)
      as (_ & _ & _ & Hround).
    destruct (Hround 0 (asks [multiply_call]) [] [] [] (asks [multiply_call]) []
                eq_refl eq_refl (le_S 1 1 (le_n 1))) as (_ & Hbatch).
    assert (Hne : [multiply_call] <> []) by discriminate.
    destruct (Hbatch [multiply_call] _ [] "fetch failed" [] eq_refl Hne eq_refl eq_refl)
      as (body & -> & Herr & -> & ->).
    now exists body.
Defined.

Lemma turn_accounts_for_every_call_witness :
  Loop.functionCalls (asks [multiply_call; weather_call])
  = Some [multiply_call; weather_call]
  /\ forall (R : Runtime) (env : Weather.Env),
       exists evs w' out,
         Loop.turn Loop.scripted (Loop.serverCallTool env) 3
           "What is 25 x 4, the weather in Tokyo, and 1 / 0?"
           [asks [multiply_call; weather_call]; asks [divide_call]; says "Done."]
         = (evs, w', out)
         /\ List.map fst (Loop.tool_calls evs) = ["calculator"; "get_weather"; "calculator"]
         /\ answered (Loop.sent evs) = ["calculator"; "get_weather"]
         /\ exists batches unanswered,
              Loop.sent evs
              = Loop.UserMessage "What is 25 x 4, the weather in Tokyo, and 1 / 0?"
                :: List.map Loop.ToolResults batches
              /\ List.map fst (Loop.tool_calls evs)
                 = (answered (Loop.sent evs) ++ unanswered)%list
              /\ (Loop.errors evs = [] -> unanswered = []).
Proof.
  split; [reflexivity|].
  intros R env. eexists. eexists. eexists. split; [reflexivity|].
  split; [reflexivity|]. split; [reflexivity|].
  eapply (@turn_accounts_for_every_call R (list Loop.Response) Loop.scripted
           (Loop.serverCallTool env) 3
           "What is 25 x 4, the weather in Tokyo, and 1 / 0?"
           [asks [multiply_call; weather_call]; asks [divide_call]; says "Done."]
           [says "Done."] _ (Loop.Returned tt)).
  reflexivity.
Defined.

Lemma chat_sends_each_line_once_witness :
  @Session.turns Witness.runtime (fun s => s)
    [""; "What is 25 x 4?"; "exit"; "Anyone there?"]
  = ["What is 25 x 4?"]
  /\ forall env : Weather.Env,
       exists evs w' st,
         @Session.askQuestion Witness.runtime (fun s => s) (list Loop.Response)
           Loop.scripted (@Loop.serverCallTool Witness.runtime (list Loop.Response) env) 2
           [""; "What is 25 x 4?"; "exit"; "Anyone there?"]
           [asks [multiply_call]; says "100."]
         = (evs, w', st)
         /\ Session.user_messages evs = ["What is 25 x 4?"]
         /\ (forall err, st <> Session.Escaped err)
         /\ (exists later,
               @Session.turns Witness.runtime (fun s => s)
                 [""; "What is 25 x 4?"; "exit"; "Anyone there?"]
               = (Session.user_messages evs ++ later)%list
               /\ (st <> Session.OutOfFuel -> later = []))
         /\ (st = Session.Closed ->
               (exists userInput,
                  In userInput [""; "What is 25 x 4?"; "exit"; "Anyone there?"]
                  /\ @Session.is_exit Witness.runtime (fun s => s) userInput = true)
               /\ exists before,
                    evs = (before ++ [ Session.Client (Loop.ConsoleLog Session.goodbye);
                                       Session.CloseClient; Session.CloseReadline ])%list)
         /\ (st = Session.Waiting ->
               forall userInput,
                 In userInput [""; "What is 25 x 4?"; "exit"; "Anyone there?"] ->
                 @Session.is_exit Witness.runtime (fun s => s) userInput = false).
Proof.
  split; [reflexivity|].
  intros env. eexists. eexists. eexists. split; [reflexivity|].
  split; [reflexivity|].
  eapply (@chat_sends_each_line_once Witness.runtime (list Loop.Response) Loop.scripted
           (@Loop.serverCallTool Witness.runtime (list Loop.Response) env) (fun s => s) 2
           [""; "What is 25 x 4?"; "exit"; "Anyone there?"]
           [asks [multiply_call]; says "100."] []).
  reflexivity.
Defined.

(** ** Dispatch of prompts, and declared arguments *)

Section PromptDispatch.

Import Prompts Handlers.

Lemma prop_cons_same :
  forall (o : list (string * value)) (k : string) (v : value),
    prop ((k, v) :: o) k = v.
Proof. intros o k v. unfold prop. cbn [assoc]. now rewrite String.eqb_refl. Qed.

Lemma prop_cons_other :
  forall (o : list (string * value)) (k k' : string) (v : value),
    k' <> k -> prop ((k, v) :: o) k' = prop o k'.
Proof.
  intros o k k' v Hne. unfold prop. cbn [assoc].
  destruct (String.eqb_spec k' k) as [Heq|_]; [contradiction|reflexivity].
Qed.

(** X9.  The arguments a prompt declares agree with what its handler
    asks.  For a listed prompt and an argument it declares, when a request
    leaves the argument out: if the argument is declared required, the
    request is refused with InvalidParams and a zod issue at that
    argument; if it is declared optional, the request is answered as the
    same request with one more string, the default, for that argument. *)
Theorem declared_arguments_agree :
  forall (R : Runtime) (p : Prompt) (a : PromptArgument) (o : list (string * value)),
    In p listPrompts ->
    In a (prompt_arguments p) ->
    prop o (argument_name a) = VUndefined ->
    (argument_required a = true ->
       exists issues i,
         getPrompt (prompt_name p) (VObj o)
         = Throw (mkMcpError InvalidParams
                    ("Invalid prompt arguments: " ++ ZodError_message issues))
         /\ In i issues
         /\ issue_path i = [argument_name a])
    /\ (argument_required a = false ->
          exists d,
            getPrompt (prompt_name p) (VObj o)
            = getPrompt (prompt_name p) (VObj ((argument_name a, VStr d) :: o))).
Proof.
  intros R p a o Hp Ha Hundef.
  destruct Hp as [<-|[<-|[]]]; destruct Ha as [<-|[<-|[]]];
    cbn [argument_name prompt_name codeReviewPromptDef explainConceptPromptDef] in *;
    (split; [intros Hreq|intros Hopt]); try discriminate.
  - assert (Hissue :
      has_issue
        (both (field o [] "language" (string_min 1))
              (field o [] "focus"
                 (default (enum [ ("security", security); ("performance", performance);
                                  ("readability", readability); ("all", all) ])
                    (VStr "all"))))
        ["language"]).
    { apply both_has_issue_l. unfold field. rewrite Hundef.
      apply string_min_rejects. discriminate. }
    destruct Hissue as (issues & i & Heq & Hin & Hpath).
    exists issues, i. split; [|now split].
    change (getPrompt "code-review" (VObj o)) with (handleCodeReviewPrompt (VObj o)).
    unfold handleCodeReviewPrompt, CodeReviewArgsSchema, object. now rewrite Heq.
  - exists "all".
    change (getPrompt "code-review" ?v) with (handleCodeReviewPrompt v).
    unfold handleCodeReviewPrompt, CodeReviewArgsSchema, object, field.
    rewrite prop_cons_same, (prop_cons_other o "focus" "language") by discriminate.
    now rewrite Hundef.
  - assert (Hissue :
      has_issue
        (both (field o [] "concept" (string_min 1))
              (field o [] "level"
                 (default (enum [ ("beginner", beginner); ("intermediate", intermediate);
                                  ("expert", expert) ])
                    (VStr "beginner"))))
        ["concept"]).
    { apply both_has_issue_l. unfold field. rewrite Hundef.
      apply string_min_rejects. discriminate. }
    destruct Hissue as (issues & i & Heq & Hin & Hpath).
    exists issues, i. split; [|now split].
    change (getPrompt "explain-concept" (VObj o)) with (handleExplainConceptPrompt (VObj o)).
    unfold handleExplainConceptPrompt, ExplainConceptArgsSchema, object. now rewrite Heq.
  - exists "beginner".
    change (getPrompt "explain-concept" ?v) with (handleExplainConceptPrompt v).
    unfold handleExplainConceptPrompt, ExplainConceptArgsSchema, object, field.
    rewrite prop_cons_same, (prop_cons_other o "level" "concept") by discriminate.
    now rewrite Hundef.
Qed.

Lemma prompt_error_shape :
  forall (R : Runtime) (args : value) (e : McpError),
    handleCodeReviewPrompt args = Throw e \/ handleExplainConceptPrompt args = Throw e ->
    exists issues,
      e = mkMcpError InvalidParams ("Invalid prompt arguments: " ++ ZodError_message issues).
Proof.
  intros R args e [H|H].
  - unfold handleCodeReviewPrompt in H.
    destruct (CodeReviewArgsSchema [] args) as [parsed|issues]; [discriminate|].
    exists issues. now inversion H.
  - unfold handleExplainConceptPrompt in H.
    destruct (ExplainConceptArgsSchema [] args) as [parsed|issues]; [discriminate|].
    exists issues. now inversion H.
Qed.

(** X13.  The prompts listed are the prompts served.  A name that
    [prompts/list] does not list is refused with MethodNotFound and
    "Unknown prompt: " followed by the name, whatever the arguments; a
    listed name is never refused that way: its only error is InvalidParams
    with "Invalid prompt arguments: " and the rendering of the zod issues.
    A request without arguments is the request with the empty object. *)
Theorem prompt_dispatch :
  forall (R : Runtime) (name : string) (args : value),
    (~ In name (List.map prompt_name listPrompts) ->
       getPrompt name args = Throw (mkMcpError MethodNotFound ("Unknown prompt: " ++ name)))
    /\ (In name (List.map prompt_name listPrompts) ->
          forall e, getPrompt name args = Throw e ->
            exists issues,
              e = mkMcpError InvalidParams
                    ("Invalid prompt arguments: " ++ ZodError_message issues))
    /\ getPrompt name VUndefined = getPrompt name (VObj []).
Proof.
  intros R name args. split; [|split].
  - intros Hnot. unfold getPrompt.
    destruct (String.eqb_spec name "code-review") as [->|_];
      [exfalso; apply Hnot; simpl; auto|].
    destruct (String.eqb_spec name "explain-concept") as [->|_];
      [exfalso; apply Hnot; simpl; auto|].
    reflexivity.
  - intros [<-|[<-|[]]] e He.
    + apply (prompt_error_shape R (match args with VUndefined => VObj [] | _ => args end)).
      left. exact He.
    + apply (prompt_error_shape R (match args with VUndefined => VObj [] | _ => args end)).
      right. exact He.
  - reflexivity.
Qed.

End PromptDispatch.

Lemma declared_arguments_agree_witness :
  In Prompts.codeReviewPromptDef Handlers.listPrompts
  /\ In (Prompts.mkArgument "language" "Programming language (e.g. TypeScript, Python, Go)"
           true)
        (Prompts.prompt_arguments Prompts.codeReviewPromptDef)
  /\ prop [("focus", VStr "security")] "language" = VUndefined
  /\ forall R : Runtime,
       (true = true ->
          exists issues i,
            Handlers.getPrompt "code-review" (VObj [("focus", VStr "security")])
            = Throw (mkMcpError InvalidParams
                       ("Invalid prompt arguments: " ++ ZodError_message issues))
            /\ In i issues
            /\ issue_path i = ["language"])
       /\ (true = false ->
             exists d,
               Handlers.getPrompt "code-review" (VObj [("focus", VStr "security")])
               = Handlers.getPrompt "code-review"
                   (VObj (("language", VStr d) :: [("focus", VStr "security")]))).
Proof.
  assert (Hp : In Prompts.codeReviewPromptDef Handlers.listPrompts) by (left; reflexivity).
  assert (Ha : In (Prompts.mkArgument "language"
                     "Programming language (e.g. TypeScript, Python, Go)" true)
                  (Prompts.prompt_arguments Prompts.codeReviewPromptDef))
    by (left; reflexivity).
  split; [exact Hp|]. split; [exact Ha|]. split; [reflexivity|].
  intros R.
  exact (declared_arguments_agree R Prompts.codeReviewPromptDef
           (Prompts.mkArgument "language"
              "Programming language (e.g. TypeScript, Python, Go)" true)
           [("focus", VStr "security")] Hp Ha eq_refl).
Defined.

(** ** The tools, once more *)

Section ToolFacts.

(** X14.  What the calculator computes.  For an operation among the four
    names and two numbers other than NaN, the reply is the one text
    "a op b = r" in which r is the binary64 sum, difference, product or
    quotient of the two numbers, each number as the runtime prints it;
    the one exception is a division whose divisor equals zero, which is
    refused with "Cannot divide by zero".  Nothing else is refused: not
    an infinite operand, not a result that overflows. *)
Theorem calculator_computes :
  forall (R : Runtime) (o : list (string * value)) (op : Calculator.Operation)
         (x y : float),
    prop o "operation" = VStr (Calculator.operation_name op) ->
    prop o "a" = VNum x ->
    prop o "b" = VNum y ->
    PrimFloat.is_nan x = false ->
    PrimFloat.is_nan y = false ->
    Calculator.handleCalculator (VObj o)
    = if match op with Calculator.divide => PrimFloat.eqb y 0 | _ => false end
      then Throw (mkMcpError InvalidParams "Cannot divide by zero")
      else Ok (text_result
                 (Number_toString x ++ " " ++ Calculator.operation_name op ++ " "
                  ++ Number_toString y ++ " = "
                  ++ Number_toString
                       (match op with
                        | Calculator.add => x + y
                        | Calculator.subtract => x - y
                        | Calculator.multiply => x * y
                        | Calculator.divide => x / y
                        end)%float)).
Proof.
  intros R o op x y Hop Hx Hy Hnx Hny.
  unfold Calculator.handleCalculator.
  pose proof (calculator_schema_cases o) as Hs.
  destruct (Calculator.CalculatorInputSchema [] (VObj o)) as [[op' x' y']|issues]
    eqn:Hparse.
  - cbn [Calculator.operation Calculator.a Calculator.b] in Hs.
    destruct Hs as (Hop' & Hx' & Hy' & _ & _).
    rewrite Hop in Hop'. rewrite Hx in Hx'. rewrite Hy in Hy'.
    inversion Hop' as [Hname]. apply operation_name_inj in Hname.
    inversion Hx'. inversion Hy'. subst op' x' y'.
    unfold Calculator.compute. cbn [Calculator.operation Calculator.a Calculator.b].
    destruct op; try reflexivity.
    now destruct (PrimFloat.eqb y 0).
  - exfalso. clear Hs.
    unfold Calculator.CalculatorInputSchema, object in Hparse.
    pose proof (operation_field o []) as Fop.
    pose proof (number_field o [] "a") as Fa.
    pose proof (number_field o [] "b") as Fb.
    destruct (field o [] "operation" _) as [op'|iop].
    + destruct (field o [] "a" number) as [x'|ia].
      * destruct (field o [] "b" number) as [y'|ib]; [discriminate|].
        destruct Fb as [_ Fb]. rewrite (Fb y Hy) in Hny. discriminate.
      * destruct Fa as [_ Fa]. rewrite (Fa x Hx) in Hnx. discriminate.
    + destruct Fop as [_ Fop]. exact (Fop op Hop).
Qed.

Lemma enum_issues :
  forall (A : Type) (options : list (string * A)) (path : list string) (v : value)
         (issues : list ZodIssue),
    enum options path v = inr issues -> issues <> [].
Proof.
  intros A options path v issues. unfold enum.
  destruct v as [| |b|x|s|xs|fields]; try (intros H; inversion H; discriminate).
  destruct (assoc s options); intros H; inversion H; discriminate.
Qed.

Lemma weather_schema_issues :
  forall (o : list (string * value)) (issues : list ZodIssue),
    Weather.WeatherInputSchema [] (VObj o) = inr issues -> issues <> [].
Proof.
  intros o issues. unfold Weather.WeatherInputSchema, object.
  pose proof (required_text_field o [] "city") as Hc.
  destruct (field o [] "city" (string_min 1)) as [c|ic];
    [|destruct Hc as [[c ->] _]];
    (destruct (field o [] "unit" _) as [u|iu] eqn:Hu; cbn [both app];
     intros H; inversion H; subst issues; try discriminate).
  unfold field, default in Hu.
  destruct (prop o "unit"); exact (enum_issues _ _ _ _ _ Hu).
Qed.

(** X15.  The errors of a registered tool.  A registered tool is never
    refused as unknown.  Whatever the arguments, what it throws has the
    code InvalidParams, and is one of two things: the calculator's
    "Cannot divide by zero", thrown for the operation divide and a
    divisor equal to zero (minus zero too); or "Invalid input: " followed
    by the rendering of at least one zod issue. *)
Theorem registered_tool_errors :
  forall (R : Runtime) (env : Weather.Env) (name : string) (args : value) (e : McpError),
    In name registered_names ->
    invokeTool env name args = Throw e ->
    code e = InvalidParams
    /\ ((name = "calculator"
         /\ message e = "Cannot divide by zero"
         /\ exists o x,
              args = VObj o
              /\ prop o "operation" = VStr "divide"
              /\ prop o "b" = VNum x
              /\ PrimFloat.eqb x 0 = true)
        \/ exists issues,
             issues <> []
             /\ message e = "Invalid input: " ++ ZodError_message issues).
Proof.
  intros R env name args e [<-|[<-|[]]] He.
  - change (Calculator.handleCalculator args = Throw e) in He.
    unfold Calculator.handleCalculator in He.
    destruct args as [| |b|x|s|xs|o];
      try (inversion He; subst e; split; [reflexivity|]; right;
           eexists; split; [|reflexivity]; discriminate).
    pose proof (calculator_schema_cases o) as Hs.
    destruct (Calculator.CalculatorInputSchema [] (VObj o)) as [[op x y]|issues].
    + cbn [Calculator.operation Calculator.a Calculator.b] in Hs.
      destruct Hs as (Hop & _ & Hy & _).
      unfold Calculator.compute in He.
      cbn [Calculator.operation Calculator.a Calculator.b] in He.
      destruct op; try discriminate.
      destruct (PrimFloat.eqb y 0) eqn:Hzero; [|discriminate].
      inversion He; subst e. split; [reflexivity|]. left.
      split; [reflexivity|]. split; [reflexivity|]. now exists o, y.
    + inversion He; subst e. split; [reflexivity|]. right. now exists issues.
  - change (Weather.handleGetWeather env args = Throw e) in He.
    unfold Weather.handleGetWeather in He.
    destruct args as [| |b|x|s|xs|o];
      try (inversion He; subst e; split; [reflexivity|]; right;
           eexists; split; [|reflexivity]; discriminate).
    destruct (Weather.WeatherInputSchema [] (VObj o)) as [input|issues] eqn:Hs;
      [discriminate|].
    inversion He; subst e. split; [reflexivity|]. right.
    exists issues. split; [|reflexivity]. exact (weather_schema_issues o issues Hs).
Qed.

End ToolFacts.

Lemma calculator_computes_witness :
  prop [("operation", VStr "divide"); ("a", VNum 1); ("b", VNum 8)] "operation"
  = VStr (Calculator.operation_name Calculator.divide)
  /\ PrimFloat.is_nan 1 = false
  /\ PrimFloat.is_nan 8 = false
  /\ forall R : Runtime,
       Calculator.handleCalculator
         (VObj [("operation", VStr "divide"); ("a", VNum 1); ("b", VNum 8)])
       = Ok (text_result
               (Number_toString 1 ++ " divide " ++ Number_toString 8 ++ " = "
                ++ Number_toString 0.125))
       /\ Calculator.handleCalculator
            (VObj [("operation", VStr "divide"); ("a", VNum 1); ("b", VNum 8)])
          = if match Calculator.divide with
               | Calculator.divide => PrimFloat.eqb 8 0
               | _ => false
               end
            then Throw (mkMcpError InvalidParams "Cannot divide by zero")
            else Ok (text_result
                       (Number_toString 1 ++ " "
                        ++ Calculator.operation_name Calculator.divide ++ " "
                        ++ Number_toString 8 ++ " = "
                        ++ Number_toString
                             (match Calculator.divide with
                              | Calculator.add => 1 + 8
                              | Calculator.subtract => 1 - 8
                              | Calculator.multiply => 1 * 8
                              | Calculator.divide => 1 / 8
                              end)%float)).
Proof.
  split; [reflexivity|]. split; [reflexivity|]. split; [reflexivity|].
  intros R. split; [reflexivity|].
  exact (calculator_computes R
           [("operation", VStr "divide"); ("a", VNum 1); ("b", VNum 8)]
           Calculator.divide 1 8 eq_refl eq_refl eq_refl eq_refl eq_refl).
Defined.

Lemma registered_tool_errors_witness :
  In "calculator" registered_names
  /\ forall (R : Runtime) (env : Weather.Env),
       invokeTool env "calculator" (calculator_args "divide" (VNum 1) (VNum (-0)))
       = Throw (mkMcpError InvalidParams "Cannot divide by zero")
       /\ code (mkMcpError InvalidParams "Cannot divide by zero") = InvalidParams
       /\ (("calculator" = "calculator"
            /\ message (mkMcpError InvalidParams "Cannot divide by zero")
               = "Cannot divide by zero"
            /\ exists o x,
                 calculator_args "divide" (VNum 1) (VNum (-0)) = VObj o
                 /\ prop o "operation" = VStr "divide"
                 /\ prop o "b" = VNum x
                 /\ PrimFloat.eqb x 0 = true)
           \/ exists issues,
                issues <> []
                /\ message (mkMcpError InvalidParams "Cannot divide by zero")
                   = "Invalid input: " ++ ZodError_message issues).
Proof.
  assert (Hin : In "calculator" registered_names) by (left; reflexivity).
  split; [exact Hin|].
  intros R env. split; [reflexivity|].
  exact (registered_tool_errors R env "calculator"
           (calculator_args "divide" (VNum 1) (VNum (-0)))
           (mkMcpError InvalidParams "Cannot divide by zero") Hin eq_refl).
Defined.

(** ** The translator, for any tool *)

Section TranslatorFields.

Import Translator.

Lemma put_keys :
  forall (A : Type) (key : string) (v : A) (entries : list (string * A)) (k : string),
    In k (List.map fst (put key v entries)) <-> k = key \/ In k (List.map fst entries).
Proof.
  intros A key v entries k. induction entries as [|[k' old] entries IH]; simpl.
  - intuition.
  - destruct (String.eqb_spec key k') as [->|Hne]; simpl.
    + intuition.
    + rewrite IH. intuition.
Qed.

Lemma put_NoDup :
  forall (A : Type) (key : string) (v : A) (entries : list (string * A)),
    NoDup (List.map fst entries) -> NoDup (List.map fst (put key v entries)).
Proof.
  intros A key v entries. induction entries as [|[k' old] entries IH]; simpl; intros Hnd.
  - constructor; [intros []|constructor].
  - destruct (String.eqb_spec key k') as [->|Hne]; simpl; [exact Hnd|].
    inversion Hnd as [|? ? Hnot Hrest]; subst. constructor; [|now apply IH].
    rewrite put_keys. intros [Heq|Hin]; [now subst|contradiction].
Qed.

Lemma put_In :
  forall (A : Type) (key : string) (v : A) (entries : list (string * A)) (kv : string * A),
    In kv (put key v entries) -> kv = (key, v) \/ In kv entries.
Proof.
  intros A key v entries kv. induction entries as [|[k' old] entries IH]; simpl.
  - intuition.
  - destruct (String.eqb_spec key k') as [->|Hne]; simpl.
    + intros [<-|Hin]; auto.
    + intros [<-|Hin]; auto. destruct (IH Hin); auto.
Qed.

(** The loop over the fields, from any properties object built so far. *)
Lemma translate_loop_fields :
  forall (entries : list (string * PropertySchema)) (acc : Properties),
    let result :=
      fold_left (fun o kv => assign o (fst kv) (translate_property (snd kv))) entries acc in
    (NoDup (List.map fst (own acc)) -> NoDup (List.map fst (own result)))
    /\ (forall k,
          In k (List.map fst (own result))
          <-> In k (List.map fst (own acc))
              \/ (In k (List.map fst entries) /\ k <> "__proto__"))
    /\ (forall k p,
          In (k, p) (own result) ->
          In (k, p) (own acc)
          \/ exists val, In (k, val) entries /\ p = translate_property val).
Proof.
  induction entries as [|[key val] entries IH]; intros acc; cbn zeta; simpl fold_left.
  - split; [auto|]. split; [intros k; simpl; tauto|auto].
  - destruct (IH (assign acc key (translate_property val))) as (Hnd & Hkeys & Hvals).
    cbn zeta in *. unfold assign in *. cbn [fst snd] in *.
    destruct (String.eqb_spec key "__proto__") as [->|Hne]; cbn [own] in *.
    + split; [exact Hnd|]. split.
      * intros k. rewrite Hkeys. simpl. intuition. subst. contradiction.
      * intros k p Hin. destruct (Hvals k p Hin) as [Hacc|(v & Hv & Hp)]; [now left|].
        right. exists v. split; [now right|exact Hp].
    + split; [intros Hacc; apply Hnd; now apply put_NoDup|]. split.
      * intros k. rewrite Hkeys, put_keys. simpl. intuition. subst. auto.
      * intros k p Hin. destruct (Hvals k p Hin) as [Hacc|(v & Hv & Hp)].
        -- apply put_In in Hacc as [Heq|Hacc]; [|now left].
           inversion Heq; subst. right. exists val. split; [now left|reflexivity].
        -- right. exists v. split; [now right|exact Hp].
Qed.

(** X17.  The fields of a declaration, for any tool whatever.  No field
    name occurs twice in the declaration; its field names are those of
    the tool, but for [__proto__], which is never among them; and every
    field of the declaration is the translation of a field of that name
    of the tool: its kind mapped by [toGeminiSchemaType], its description
    or the empty string, its enum. *)
Theorem declaration_fields :
  forall tool : Tool,
    let declared := or_else (Mcp.properties (Mcp.inputSchema tool)) [] in
    let fields := own (properties (parameters (mcpToolToGeminiFn tool))) in
    NoDup (List.map fst fields)
    /\ (forall k,
          In k (List.map fst fields) <-> In k (List.map fst declared) /\ k <> "__proto__")
    /\ (forall k p,
          In (k, p) fields ->
          exists val,
            In (k, val) declared
            /\ p = mkProperty (toGeminiSchemaType (prop_type val))
                              (or_else (prop_description val) "")
                              (prop_enum val)).
Proof.
  intros tool declared fields. unfold fields, declared, mcpToolToGeminiFn.
  cbn [parameters properties].
  destruct (Mcp.properties (Mcp.inputSchema tool)) as [entries|]; cbn [or_else].
  - unfold translate_properties.
    destruct (translate_loop_fields entries empty) as (Hnd & Hkeys & Hvals).
    cbn zeta in *. split; [apply Hnd; constructor|]. split.
    + intros k. rewrite Hkeys. simpl. tauto.
    + intros k p Hin. destruct (Hvals k p Hin) as [[]|Hval]. exact Hval.
  - split; [constructor|]. split; [intros k; simpl; tauto|intros k p []].
Qed.

End TranslatorFields.

Lemma translation_preserves_fields_witness :
  Mcp.properties (Mcp.inputSchema Weather.weatherToolDefinition)
  = Some [ ("city",
            Mcp.mkProperty "string" (Some "Name of the city to get weather for") None);
           ("unit",
            Mcp.mkProperty "string" (Some "Temperature unit (default: celsius)")
              (Some ["celsius"; "fahrenheit"])) ]
  /\ NoDup ["city"; "unit"]
  /\ ~ In "__proto__" ["city"; "unit"]
  /\ Translator.name (Translator.mcpToolToGeminiFn Weather.weatherToolDefinition)
     = "get_weather"
  /\ Translator.own
       (Translator.properties
          (Translator.parameters
             (Translator.mcpToolToGeminiFn Weather.weatherToolDefinition)))
     = [ ("city",
          Translator.mkProperty (Translator.Tag Translator.STRING)
            "Name of the city to get weather for" None);
         ("unit",
          Translator.mkProperty (Translator.Tag Translator.STRING)
            "Temperature unit (default: celsius)" (Some ["celsius"; "fahrenheit"])) ].
Proof.
  assert (Hnd : NoDup ["city"; "unit"]).
  { constructor; [intros [H|[]]; discriminate H|].
    constructor; [intros []|constructor]. }
  assert (Hproto : ~ In "__proto__" ["city"; "unit"]).
  { intros [H|[H|[]]]; discriminate H. }
  split; [reflexivity|]. split; [exact Hnd|]. split; [exact Hproto|].
  pose proof (translation_preserves_fields Weather.weatherToolDefinition _ eq_refl Hnd Hproto)
    as (Hname & _ & _ & _ & Hown).
  split; [exact Hname|exact Hown].
Defined.

(** ** The weather of a city of the table *)

Section WeatherFacts.

Lemma in_keys_assoc :
  forall (A : Type) (o : list (string * A)) (k : string),
    In k (List.map fst o) -> exists a, assoc k o = Some a.
Proof.
  intros A o k. induction o as [|[k' a'] o IH]; simpl; [intros []|].
  destruct (String.eqb_spec k k') as [->|Hne]; [now exists a'|].
  intros [Heq|Hin]; [now destruct Hne|now apply IH].
Qed.

(** X18.  The reply for a city of the table does not depend on chance.
    When the city, in lower case, is a key of the weather table, the
    handler draws nothing from [Math.random]: two environments with the
    same clock give the same reply, whatever their random numbers. *)
Theorem stored_city_ignores_random :
  forall (R : Runtime) (env env' : Weather.Env) (args : list (string * value)) (c : string),
    prop args "city" = VStr c ->
    In (String_toLowerCase c) (List.map fst Weather.MOCK_WEATHER) ->
    Weather.Date_toISOString env = Weather.Date_toISOString env' ->
    Weather.handleGetWeather env (VObj args) = Weather.handleGetWeather env' (VObj args).
Proof.
  intros R env env' args c Hc Hkey Hdate. unfold Weather.handleGetWeather.
  destruct (Weather.WeatherInputSchema [] (VObj args)) as [input|issues] eqn:Hparse;
    [|reflexivity].
  assert (Hcity : Weather.city input = c).
  { unfold Weather.WeatherInputSchema, object in Hparse.
    pose proof (required_text_field args [] "city") as Hfield.
    destruct (field args [] "city" (string_min 1)) as [c'|ic].
    - destruct Hfield as [Hc' _]. rewrite Hc in Hc'. inversion Hc'; subst c'.
      destruct (field args [] "unit" _) as [u|iu]; cbn [both] in Hparse; [|discriminate].
      now inversion Hparse.
    - destruct (field args [] "unit" _) as [u|iu]; cbn [both] in Hparse; discriminate. }
  unfold Weather.weatherReport. rewrite Hcity, Hdate.
  destruct (in_keys_assoc _ _ _ Hkey) as [d Hd].
  unfold Weather.weather_data, get. now rewrite Hd.
Qed.

End WeatherFacts.

Lemma stored_city_ignores_random_witness :
  prop [("city", VStr "tokyo")] "city" = VStr "tokyo"
  /\ In (@String_toLowerCase Witness.runtime "tokyo") (List.map fst Weather.MOCK_WEATHER)
  /\ Weather.handleGetWeather (H:=Witness.runtime)
       (Weather.mkEnv (fun _ => 0.25%float) "2025-01-01T00:00:00.000Z")
       (VObj [("city", VStr "tokyo")])
     = Weather.handleGetWeather (H:=Witness.runtime)
         (Weather.mkEnv (fun _ => 0.75%float) "2025-01-01T00:00:00.000Z")
         (VObj [("city", VStr "tokyo")]).
Proof.
  assert (Hkey : In (@String_toLowerCase Witness.runtime "tokyo")
                    (List.map fst Weather.MOCK_WEATHER)).
  { right. right. left. reflexivity. }
  split; [reflexivity|]. split; [exact Hkey|].
  exact (stored_city_ignores_random Witness.runtime
           (Weather.mkEnv (fun _ => 0.25%float) "2025-01-01T00:00:00.000Z")
           (Weather.mkEnv (fun _ => 0.75%float) "2025-01-01T00:00:00.000Z")
           [("city", VStr "tokyo")] "tokyo" eq_refl Hkey eq_refl).
Defined.
